(** * Campus funding manager: a shallow embedding of the Python sources

    The development follows the layout of the repository:

    - [models.py]      the two dataclasses [User] and [FundingRequest];
    - [structures.py]  the binary search tree keyed by amount, the [heapq]
                       wrappers for the urgency queue, the approved queue;
    - [storage.py]     [save_state] and [load_state] over the JSON file;
    - [main.py]        the command-line loop (module [Cli]);
    - [app.py]         the Flask handlers (module [Web]).

    Modelling conventions.

    - A Python [float] is a finite value, [inf], [-inf] or [nan] (type
      [float]).  A finite float is given by a rational: every double is one
      and doubles compare exactly as rationals do.  [nan] compares false
      with every float, itself included.  [float] of an int rounds to the
      nearest double and raises [OverflowError] beyond the largest.
    - A Python [int] is a [Z]; the request counter, which starts at 1 and is
      only incremented, is a [nat].
    - A [dict] is an association list in insertion order, with unique keys;
      a [set] of strings is a [gset string]; a [list] or [deque] is a list.
    - [FundingRequest] objects are shared between the request map, the tree,
      the heap and the approved queue and their [status] is assigned in
      place.  The objects therefore live in a store ([objs]) and every
      structure holds addresses into it.  [User] objects are never assigned
      to and are kept by value.
    - The builtins that read text, [str.strip], [str.lower], [str.isdigit],
      [float(str)] and [int(str)], are taken as an interface ([Builtins])
      of which two laws are assumed: the numeral that [str] writes for a
      non-negative int is a string of digits, and [int] reads it back.  An
      instance for ASCII text is given for the worked examples.
    - An exception that the sources do not catch ends the program; the
      functions that can raise return a [result].
    - The dataclasses do not check the types of their fields.  The engine
      is modelled for records whose text fields ([id], [name], [role],
      [student_id], [status]) hold strings; a start on a data file that puts
      another JSON value there is not covered ([IllTyped]).
    - [sorted] is modelled by a stable insertion sort and the pages of
      app.py by the arguments that they pass to [render_template]. *)

From Stdlib Require Import QArith ZArith String Ascii.
From Stdlib Require Import Decimal DecimalNat DecimalString.
From Stdlib Require OrderedTypeEx.
From stdpp Require Import base list strings gmap sorting.

Local Close Scope Q_scope.
Local Open Scope string_scope.
Local Open Scope list_scope.
Local Open Scope nat_scope.

(** ** Exceptions and results *)

Inductive exn :=
| KeyError | TypeError | AttributeError | ValueError | OverflowError.

Inductive result (A : Type) :=
| Ok (a : A)
| Raise (e : exn).
Arguments Ok {A} a.
Arguments Raise {A} e.

Definition rbind {A B} (m : result A) (k : A → result B) : result B :=
  match m with
  | Ok a => k a
  | Raise e => Raise e
  end.

Global Instance result_bind : MBind result := λ A B k m, rbind m k.

(** [try: x = m  except Exception: x = d] *)
Definition try_except {A} (m : result A) (d : A) : A :=
  match m with
  | Ok a => a
  | Raise _ => d
  end.

(** ** Floats *)

(** A Python [float]: a finite value, [inf], [-inf] or [nan].  A finite
    double is a rational, and finite doubles compare as the rationals do;
    a finite value is therefore given by a rational. *)
Inductive float :=
| Finite (q : Q)
| PosInf
| NegInf
| NaN.

(** How two floats compare; [None] when one of them is nan, which is
    neither smaller than, nor equal to, nor larger than any float. *)
Definition float_compare (a b : float) : option comparison :=
  match a with
  | NaN => None
  | Finite x =>
      match b with
      | NaN => None
      | Finite y => Some (x ?= y)%Q
      | PosInf => Some Lt
      | NegInf => Some Gt
      end
  | PosInf =>
      match b with
      | NaN => None
      | PosInf => Some Eq
      | _ => Some Gt
      end
  | NegInf =>
      match b with
      | NaN => None
      | NegInf => Some Eq
      | _ => Some Lt
      end
  end.

(** [a < b], [a >= b] and [a == b] on floats. *)
Definition float_lt (a b : float) : bool :=
  match float_compare a b with
  | Some Lt => true
  | _ => false
  end.

Definition float_ge (a b : float) : bool :=
  match float_compare a b with
  | Some Gt | Some Eq => true
  | _ => false
  end.

Definition float_eqb (a b : float) : bool :=
  match float_compare a b with
  | Some Eq => true
  | _ => false
  end.

(** [int(x)] on a float truncates towards zero; nan and the infinities have
    no integer value. *)
Definition float_trunc (q : Q) : Z := Z.quot (Qnum q) (Zpos (Qden q)).

Definition int_of_float (x : float) : result Z :=
  match x with
  | Finite q => Ok (float_trunc q)
  | NaN => Raise ValueError
  | PosInf | NegInf => Raise OverflowError
  end.

(** [float(n)] on an int: the nearest double, ties to the even mantissa of
    53 bits; an int that rounds to 2^1024 or beyond is too large. *)
Definition float_of_int (n : Z) : result float :=
  let a := Z.abs n in
  let e := (Z.log2 a - 52)%Z in
  if (e <=? 0)%Z then Ok (Finite (inject_Z n))
  else
    let m := (a / 2 ^ e)%Z in
    let r := (a mod 2 ^ e)%Z in
    let half := (2 ^ (e - 1))%Z in
    let m := if (half <? r)%Z || ((r =? half)%Z && Z.odd m)
             then (m + 1)%Z else m in
    let v := (m * 2 ^ e)%Z in
    if (2 ^ 1024 <=? v)%Z then Raise OverflowError
    else Ok (Finite (inject_Z (Z.sgn n * v))).

(** ** Python builtins used by the sources *)

(** [str(n)] for a non-negative [int], as used by the f-string [f"R{n}"]. *)
Definition str_of_nat (n : nat) : string := NilZero.string_of_uint (Nat.to_uint n).

(** The value of a non-empty string of the decimal digits 0 to 9. *)
Definition digits_value (s : string) : option nat :=
  Nat.of_uint <$> NilZero.uint_of_string s.

(** The builtins that read text are taken as an interface.  What the
    development needs to know of them is that the decimal numeral that
    [str] writes for a non-negative int is a string of digits which [int]
    reads back. *)
Class Builtins := {
  (** [s.strip()] *)
  str_strip : string → string;
  (** [s.lower()] *)
  str_lower : string → string;
  (** [s.isdigit()] *)
  str_isdigit : string → bool;
  (** [float(s)] on a string; [None] stands for [ValueError] *)
  float_of_str : string → option float;
  (** [int(s)] on a string; [None] stands for [ValueError] *)
  int_of_str : string → option Z;
  (** [str(n).isdigit()] *)
  isdigit_str_of_nat : ∀ n, str_isdigit (str_of_nat n) = true;
  (** [int(str(n)) == n] *)
  int_of_str_of_nat : ∀ n, int_of_str (str_of_nat n) = Some (Z.of_nat n)
}.

(** ** Dictionaries (insertion ordered) *)

Section Dict.
Context {K V : Type} (eqb : K → K → bool).

(** [d.get(k)] *)
Fixpoint dict_get (d : list (K * V)) (k : K) : option V :=
  match d with
  | [] => None
  | (k', v) :: d' => if eqb k' k then Some v else dict_get d' k
  end.

(** [d[k] = v]: an existing key keeps its place (and its key object), a
    new key goes to the end. *)
Fixpoint dict_set (d : list (K * V)) (k : K) (v : V) : list (K * V) :=
  match d with
  | [] => [(k, v)]
  | (k', v') :: d' =>
      if eqb k' k then (k', v) :: d' else (k', v') :: dict_set d' k v
  end.

(** [d.update(other)] *)
Definition dict_update (d other : list (K * V)) : list (K * V) :=
  fold_left (λ acc kv, dict_set acc kv.1 kv.2) other d.

Definition dict_keys (d : list (K * V)) : list K := d.*1.
Definition dict_values (d : list (K * V)) : list V := d.*2.
End Dict.

(** ** JSON values, as [json.load] returns them *)

#[warnings="-register-all"]
Inductive json :=
| JNull
| JBool (b : bool)
| JInt (z : Z)
| JFloat (x : float)
| JStr (s : string)
| JList (l : list json)
| JDict (d : list (string * json)).

(** The content of the data file. *)
Inductive File :=
| Missing                 (* [os.path.exists] is false *)
| Unreadable              (* [open] or [json.load] raises *)
| Content (payload : json).

(** ** models.py *)

(** The dataclasses do not check their field types: after [load_state] a
  field annotated [str] holds whatever JSON value the file had.  The
  records are therefore indexed by the type [S] of those fields: [string]
  inside the engine, [json] for the output of [load_state]. *)

Record User (S : Type) := mkUser {
user_id : S;
user_name : S;
user_role : S
}.
Arguments mkUser {S}.
Arguments user_id {S}.
Arguments user_name {S}.
Arguments user_role {S}.

Record FundingRequest (S : Type) := mkReq {
req_id : S;
student_id : S;
amount : float;
urgency : Z;
status : S
}.
Arguments mkReq {S}.
Arguments req_id {S}.
Arguments student_id {S}.
Arguments amount {S}.
Arguments urgency {S}.
Arguments status {S}.

Global Instance FundingRequest_inhabited : Inhabited (FundingRequest string) :=
populate (mkReq "" "" (Finite 0) 0%Z "").

(** [req.status = st] *)
Definition with_status {S} (r : FundingRequest S) (st : S) : FundingRequest S :=
mkReq (req_id r) (student_id r) (amount r) (urgency r) st.

(** ** structures.py *)

(** An address of a [FundingRequest] object in the object store. *)
Abbreviation ref := nat (only parsing).

(** *** The binary search tree keyed by amount *)

(** [Optional[BSTNode]]: [NoNode] is [None]. *)
Inductive BSTNode :=
| NoNode
| Node (req : ref) (left right : BSTNode).

Record RequestBST := mkBST { root : BSTNode }.

Section BST.
(** The object store through which [r.amount] is read. *)
Context (objs : list (FundingRequest string)).

Fixpoint _insert (node : BSTNode) (r : ref) : BSTNode :=
  match node with
  | NoNode => Node r NoNode NoNode
  | Node q l rt =>
      (* Keep duplicates to the right to allow equal amounts *)
      if float_lt (amount (objs !!! r)) (amount (objs !!! q))
      then Node q (_insert l r) rt
      else Node q l (_insert rt r)
  end.

Definition insert (self : RequestBST) (req : ref) : RequestBST :=
  mkBST (_insert (root self) req).
End BST.

(** [_in] appends to the list [out] that [inorder] allocated. *)
Fixpoint _in (node : BSTNode) (out : list ref) : list ref :=
match node with
| NoNode => out
| Node q l rt => _in rt (_in l out ++ [q])
end.

Definition inorder (self : RequestBST) : list ref := _in (root self) [].

(** *** heapq *)

(** [heapq.heappush] and [heapq.heappop] of the Python standard library,
  over a list used as an array.  [heap !!! i] is [heap[i]]; every index
  read below is in range when the functions are entered through
  [heappush] and [heappop], so Python's [IndexError] does not arise. *)

Section Heapq.
Context {T : Type} `{!Inhabited T} (lt : T → T → bool).

(** The [while pos > startpos] loop of [_siftdown].  [pos] strictly
    decreases, so [pos] iterations are always enough: when the counter
    reaches 0 so has [pos], and the loop exits. *)
Fixpoint _siftdown_loop (n : nat) (heap : list T) (startpos pos : nat)
    (newitem : T) : list T :=
  match n with
  | 0 => <[pos:=newitem]> heap
  | S n' =>
      if bool_decide (startpos < pos) then
        let parentpos := Nat.shiftr (pos - 1) 1 in
        let parent := heap !!! parentpos in
        if lt newitem parent
        then _siftdown_loop n' (<[pos:=parent]> heap) startpos parentpos newitem
        else <[pos:=newitem]> heap
      else <[pos:=newitem]> heap
  end.

Definition _siftdown (heap : list T) (startpos pos : nat) : list T :=
  let newitem := heap !!! pos in
  _siftdown_loop pos heap startpos pos newitem.

(** The [while childpos < endpos] loop of [_siftup]: returns the heap and
    the final [pos].  [pos] strictly increases and stays below [endpos]. *)
Fixpoint _siftup_loop (n : nat) (heap : list T) (endpos pos : nat)
    : list T * nat :=
  match n with
  | 0 => (heap, pos)
  | S n' =>
      let childpos := 2 * pos + 1 in
      if bool_decide (childpos < endpos) then
        let rightpos := childpos + 1 in
        let childpos :=
          if bool_decide (rightpos < endpos)
             && negb (lt (heap !!! childpos) (heap !!! rightpos))
          then rightpos else childpos in
        _siftup_loop n' (<[pos:=heap !!! childpos]> heap) endpos childpos
      else (heap, pos)
  end.

Definition _siftup (heap : list T) (pos : nat) : list T :=
  let endpos := length heap in
  let startpos := pos in
  let newitem := heap !!! pos in
  let '(heap, pos) := _siftup_loop (endpos - pos) heap endpos pos in
  let heap := <[pos:=newitem]> heap in
  _siftdown heap startpos pos.

Definition heappush (heap : list T) (item : T) : list T :=
  let heap := heap ++ [item] in
  _siftdown heap 0 (length heap - 1).

(** [None] is the [IndexError] of [heap.pop()] on an empty list. *)
Definition heappop (heap : list T) : option (T * list T) :=
  match last heap with
  | None => None
  | Some lastelt =>
      let heap := take (length heap - 1) heap in
      match heap with
      | [] => Some (lastelt, heap)
      | returnitem :: _ =>
          let heap := <[0:=lastelt]> heap in
          Some (returnitem, _siftup heap 0)
      end
  end.
End Heapq.

(** *** The urgency queue *)

(** A heap entry is the tuple [(-req.urgency, req.id, req)]. *)
Definition entry : Type := Z * string * ref.

(** [a < b] on two entries.  Python compares the tuples component by
  component, and the third components only when urgency and id both tie.
  For two entries of one request the tuples are then equal and [a < b] is
  false, as it is here.  Two different [FundingRequest] objects with the
  same urgency and id would be compared by the [__eq__] of the dataclass
  and, when their fields differ, by [<], which they do not have
  ([TypeError]).  [entry_lt] is therefore the comparison of Python for
  entries of requests with pairwise different ids only: that is so in
  every state of the engine ([inv_ids] below), and it is assumed
  ([distinct_ids]) where a heap is considered by itself. *)
Definition entry_lt (a b : entry) : bool :=
(a.1.1 <? b.1.1)%Z || ((a.1.1 =? b.1.1)%Z && String.ltb a.1.2 b.1.2).

Definition push_heap (objs : list (FundingRequest string))
  (heap : list entry) (req : ref) : list entry :=
heappush entry_lt heap
  ((- urgency (objs !!! req))%Z, req_id (objs !!! req), req).

Definition pop_heap (heap : list entry) : option ref * list entry :=
match heap with
| [] => (None, heap)
| _ =>
    match heappop entry_lt heap with
    | Some ((_, _, req), heap') => (Some req, heap')
    | None => (None, heap)
    end
end.

(** *** The approved queue *)

Definition make_queue : list ref := [].

Definition enqueue (q : list ref) (req : ref) : list ref := q ++ [req].

Definition dequeue (q : list ref) : option ref * list ref :=
match q with
| [] => (None, q)
| x :: q' => (Some x, q')
end.

(** ** storage.py *)

(** *** Python operations on JSON values *)

(** [x[k]] for a string [k]. *)
Definition py_getitem (x : json) (k : string) : result json :=
  match x with
  | JDict d =>
      match dict_get String.eqb d k with
      | Some v => Ok v
      | None => Raise KeyError
      end
  | _ => Raise TypeError
  end.

(** [x.get(k, default)]: only a [dict] has the method. *)
Definition py_get (x : json) (k : string) (default : json) : result json :=
  match x with
  | JDict d =>
      match dict_get String.eqb d k with
      | Some v => Ok v
      | None => Ok default
      end
  | _ => Raise AttributeError
  end.

(** [iter(x)], as run by [for u in x]: a list yields its items, a dict its
    keys, a string its characters. *)
Definition py_iter (x : json) : result (list json) :=
  match x with
  | JList l => Ok l
  | JDict d => Ok (JStr <$> d.*1)
  | JStr s => Ok ((λ c, JStr (String c EmptyString)) <$> list_ascii_of_string s)
  | _ => Raise TypeError
  end.

Section PyConversions.
Context {builtins : Builtins}.

(** [float(x)] *)
Definition py_float (x : json) : result float :=
  match x with
  | JInt z => float_of_int z
  | JFloat x => Ok x
  | JBool b => Ok (Finite (if b then 1%Q else 0%Q))
  | JStr s =>
      match float_of_str s with
      | Some q => Ok q
      | None => Raise ValueError
      end
  | _ => Raise TypeError
  end.

(** [int(x)] *)
Definition py_int (x : json) : result Z :=
  match x with
  | JInt z => Ok z
  | JFloat x => int_of_float x
  | JBool b => Ok (if b then 1%Z else 0%Z)
  | JStr s =>
      match int_of_str s with
      | Some z => Ok z
      | None => Raise ValueError
      end
  | _ => Raise TypeError
  end.
End PyConversions.

(** Lists and dicts are unhashable and cannot be dict keys. *)
Definition hashable (k : json) : bool :=
  match k with
  | JList _ | JDict _ => false
  | _ => true
  end.

(** Equality of dict keys: [True == 1 == 1.0].  A key is found when it is
    the very object stored or equal to it; [json.load] returns one and the
    same object for every NaN of the file, so among the values of a loaded
    file nan is the same key as nan. *)
Definition key_num (k : json) : option float :=
  match k with
  | JBool b => Some (Finite (if b then 1%Q else 0%Q))
  | JInt z => Some (Finite (inject_Z z))
  | JFloat x => Some x
  | _ => None
  end.

Definition num_key_eqb (x y : float) : bool :=
  match x, y with
  | NaN, NaN => true
  | _, _ => float_eqb x y
  end.

Definition key_eqb (a b : json) : bool :=
  match a, b with
  | JNull, JNull => true
  | JStr s, JStr t => String.eqb s t
  | _, _ =>
      match key_num a, key_num b with
      | Some x, Some y => num_key_eqb x y
      | _, _ => false
      end
  end.

(** [d[k] = v] for a dict keyed by JSON values. *)
Definition py_setitem {V} (d : list (json * V)) (k : json) (v : V)
    : result (list (json * V)) :=
  if hashable k then Ok (dict_set key_eqb d k v) else Raise TypeError.

(** [for x in l: acc = body(acc, x)], stopping at the first exception. *)
Fixpoint for_each {A St} (l : list A) (acc : St) (body : St → A → result St)
    : result St :=
  match l with
  | [] => Ok acc
  | x :: l' => acc' ← body acc x; for_each l' acc' body
  end.

(** *** save_state *)

Definition user_payload (u : User string) : json :=
  JDict [("id", JStr (user_id u)); ("name", JStr (user_name u));
         ("role", JStr (user_role u))].

Definition request_payload (r : FundingRequest string) : json :=
  JDict [("id", JStr (req_id r)); ("student_id", JStr (student_id r));
         ("amount", JFloat (amount r)); ("urgency", JInt (urgency r));
         ("status", JStr (status r))].

(** The file written by [save_state]: [json.dump] followed by a later
    [json.load] gives the payload back, so the file is represented by the
    payload itself. *)
Definition save_state (users_map : list (string * User string))
    (requests_map : list (string * FundingRequest string)) : File :=
  Content (JDict [("users", JList (user_payload <$> dict_values users_map));
                  ("requests",
                   JList (request_payload <$> dict_values requests_map))]).

(** *** load_state *)

Section LoadState.
Context {builtins : Builtins}.

(** The body of [for u in payload.get("users", [])]. *)
Definition load_user (users_map : list (json * User json)) (u : json)
    : result (list (json * User json)) :=
  uid ← py_getitem u "id";
  name ← py_get u "name" (JStr "");
  role ← py_get u "role" (JStr "student");
  key ← py_getitem u "id";
  py_setitem users_map key (mkUser uid name role).

(** The body of [for r in payload.get("requests", [])]. *)
Definition load_request (requests_map : list (json * FundingRequest json))
    (r : json) : result (list (json * FundingRequest json)) :=
  let amt :=
    try_except (v ← py_get r "amount" (JInt 0); py_float v) (Finite 0) in
  let urg := try_except (v ← py_get r "urgency" (JInt 1); py_int v) 1%Z in
  rid ← py_getitem r "id";
  sid ← py_get r "student_id" (JStr "");
  st ← py_get r "status" (JStr "submitted");
  key ← py_getitem r "id";
  py_setitem requests_map key (mkReq rid sid amt urg st).

Definition load_state (path : File)
    : result (list (json * User json) * list (json * FundingRequest json)) :=
  match path with
  | Missing => Ok ([], [])
  | Unreadable => Ok ([], [])
  | Content payload =>
      users ← py_get payload "users" (JList []);
      users ← py_iter users;
      users_map ← for_each users [] load_user;
      requests ← py_get payload "requests" (JList []);
      requests ← py_iter requests;
      requests_map ← for_each requests [] load_request;
      Ok (users_map, requests_map)
  end.
End LoadState.

(** *** From loaded records to the engine's records *)

(** The engine below works with records whose [str] fields hold strings, as
    the dataclass annotations say.  [typed_users] and [typed_requests] give
    the loaded dicts at that type, and are undefined when the file put
    another JSON value in such a field. *)
Definition as_str (x : json) : option string :=
  match x with
  | JStr s => Some s
  | _ => None
  end.

Definition typed_user (u : User json) : option (User string) :=
  i ← as_str (user_id u); n ← as_str (user_name u); r ← as_str (user_role u);
  Some (mkUser i n r).

Definition typed_request (r : FundingRequest json)
    : option (FundingRequest string) :=
  i ← as_str (req_id r); s ← as_str (student_id r); st ← as_str (status r);
  Some (mkReq i s (amount r) (urgency r) st).

Definition typed_dict {A B} (f : A → option B) (d : list (json * A))
    : option (list (string * B)) :=
  mapM (λ kv, k ← as_str kv.1; v ← f kv.2; Some (k, v)) d.

Definition typed_users := typed_dict typed_user.
Definition typed_requests := typed_dict typed_request.




(** ** The engine state shared by main.py and app.py *)

(** Both front ends keep the same variables: [users_set], [users_map],
    [requests_map], [bst], [heap], [approved_q] and [req_counter].  [objs]
    is the store of the [FundingRequest] objects and [disk] the data file. *)
Record State := mkState {
  objs : list (FundingRequest string);
  users_set : gset string;
  users_map : list (string * User string);
  requests_map : list (string * ref);
  bst : RequestBST;
  heap : list entry;
  approved_q : list ref;
  req_counter : nat;
  disk : File
}.

(** The state before anything is loaded. *)
Definition empty_state (d : File) : State :=
  mkState [] ∅ [] [] (mkBST NoNode) [] make_queue 1 d.

(** [requests_map] with each address replaced by the object it points to. *)
Definition deref_map (objs : list (FundingRequest string))
    (m : list (string * ref)) : list (string * FundingRequest string) :=
  (λ kv, (kv.1, objs !!! kv.2)) <$> m.

(** [save_state(users_map, requests_map)] *)
Definition persist (s : State) : State :=
  mkState (objs s) (users_set s) (users_map s) (requests_map s) (bst s)
          (heap s) (approved_q s) (req_counter s)
          (save_state (users_map s) (deref_map (objs s) (requests_map s))).

(** [uid in users_map and users_map[uid].role == role] *)
Definition has_role (s : State) (uid role : string) : bool :=
  match dict_get String.eqb (users_map s) uid with
  | Some u => String.eqb (user_role u) role
  | None => false
  end.

(** [req.status = st] on the object at address [a]. *)
Definition set_status (objs : list (FundingRequest string)) (a : ref)
    (st : string) : list (FundingRequest string) :=
  alter (λ r, with_status r st) a objs.

(** [[x for x in approved_q if x.id != rid]] *)
Definition without_id (objs : list (FundingRequest string)) (rid : string)
    (q : list ref) : list ref :=
  filter (λ x, req_id (objs !!! x) ≠ rid) q.

(** *** Start-up: rebuilding the structures from the loaded file *)

(** The body of [for r in requests_map.values()]. *)
Definition reindex (objs : list (FundingRequest string))
    (acc : RequestBST * list entry * list ref) (r : ref)
    : RequestBST * list entry * list ref :=
  let '(bst, heap, approved_q) := acc in
  let bst := insert objs bst r in
  if String.eqb (status (objs !!! r)) "submitted"
  then (bst, push_heap objs heap r, approved_q)
  else if String.eqb (status (objs !!! r)) "approved"
  then (bst, heap, enqueue approved_q r)
  else (bst, heap, approved_q).

Section StartUp.
Context {builtins : Builtins}.

(** The body of [for rid in requests_map.keys()]: the running maximum of the
    numbers [n] of the keys of the form [R<n>].  [int] raises [ValueError]
    on a string that it cannot read, also when [isdigit] holds of it. *)
Definition max_suffix (maxn : Z) (rid : string) : result Z :=
  match rid with
  | String "R" rest =>
      if str_isdigit rest then
        match int_of_str rest with
        | Some n => Ok (if (maxn <? n)%Z then n else maxn)
        | None => Raise ValueError
        end
      else Ok maxn
  | _ => Ok maxn
  end.

(** [req_counter] after the loop: [maxn + 1], which is positive since [maxn]
    starts at 0 and is only ever replaced by a larger number. *)
Definition next_counter (keys : list string) : result nat :=
  match keys with
  | [] => Ok 1
  | _ => maxn ← for_each keys 0%Z max_suffix; Ok (Z.to_nat (maxn + 1))
  end.

(** The start-up code of [main] (and of the module [app]) once [load_state]
    has returned the two dicts. *)
Definition boot (loaded_users : list (string * User string))
    (loaded_requests : list (string * FundingRequest string)) (d : File)
    : result State :=
  let users_map := dict_update String.eqb [] loaded_users in
  let users_set := list_to_set (dict_keys loaded_users) in
  let objs := dict_values loaded_requests in
  let requests_map :=
    dict_update String.eqb []
      (imap (λ a kv, (kv.1, a)) loaded_requests) in
  let '(bst, heap, approved_q) :=
    fold_left (reindex objs) (dict_values requests_map)
              (mkBST NoNode, [], make_queue) in
  req_counter ← next_counter (dict_keys requests_map);
  Ok (mkState objs users_set users_map requests_map bst heap approved_q
              req_counter d).

End StartUp.

(** How a run of the program starts on a given data file. *)
Inductive Startup :=
| Started (s : State)
| Crashed (e : exn)      (* [load_state] or the start-up code raised *)
| IllTyped.              (* a [str] field of the file holds a non-string *)

Definition startup {builtins : Builtins} (d : File) : Startup :=
  match load_state d with
  | Raise e => Crashed e
  | Ok (us, rs) =>
      match typed_users us, typed_requests rs with
      | Some us, Some rs =>
          match boot us rs d with
          | Ok s => Started s
          | Raise e => Crashed e
          end
      | _, _ => IllTyped
      end
  end.

(** [role in ("student", "admin", "donor")] *)
Definition valid_role (role : string) : bool :=
  String.eqb role "student" || String.eqb role "admin" || String.eqb role "donor".

(** The part of [submit] shared by both front ends: from [rid = f"R{req_counter}"]
    to [push_heap(heap, fr)]. *)
Definition create_request (s : State) (sid : string) (amt : float) (urg : Z)
    : string * State :=
  let rid := "R" +:+ str_of_nat (req_counter s) in
  let fr := length (objs s) in
  let objs := objs s ++ [mkReq rid sid amt urg "submitted"] in
  (rid,
   mkState objs (users_set s) (users_map s)
           (dict_set String.eqb (requests_map s) rid fr)
           (insert objs (bst s) fr)
           (push_heap objs (heap s) fr)
           (approved_q s) (req_counter s + 1) (disk s)).

(** [users_set.add(uid); users_map[uid] = User(id=uid, name=name, role=role)] *)
Definition add_user (s : State) (uid name role : string) : State :=
  mkState (objs s) ({[uid]} ∪ users_set s)
          (dict_set String.eqb (users_map s) uid (mkUser uid name role))
          (requests_map s) (bst s) (heap s) (approved_q s) (req_counter s)
          (disk s).

Definition with_heap (s : State) (h : list entry) : State :=
  mkState (objs s) (users_set s) (users_map s) (requests_map s) (bst s) h
          (approved_q s) (req_counter s) (disk s).

(** [req.status = "approved"; enqueue(approved_q, req)] *)
Definition approve (s : State) (req : ref) : State :=
  mkState (set_status (objs s) req "approved") (users_set s) (users_map s)
          (requests_map s) (bst s) (heap s) (enqueue (approved_q s) req)
          (req_counter s) (disk s).

(** [req.status = "rejected"] *)
Definition reject (s : State) (req : ref) : State :=
  mkState (set_status (objs s) req "rejected") (users_set s) (users_map s)
          (requests_map s) (bst s) (heap s) (approved_q s)
          (req_counter s) (disk s).

(** [req.status = "funded"] and the rebuilding of [approved_q] without [rid]. *)
Definition fund (s : State) (req : ref) (rid : string) : State :=
  let objs := set_status (objs s) req "funded" in
  mkState objs (users_set s) (users_map s) (requests_map s) (bst s) (heap s)
          (without_id objs rid (approved_q s)) (req_counter s) (disk s).

(** ** The builtin [sorted] *)

(** [sorted] is a stable sort that only uses [<]: items that do not compare
    smaller either way keep the order they had.  That fixes its result, and
    it is modelled by insertion: going through the list from the right, each
    item is put before the first item of the sorted rest that is not smaller
    than it.  A comparison can raise (Python refuses to order two objects of
    a class without [__lt__]) and [sorted] lets the exception through; the
    order in which the builtin compares is its own, but a sort by comparison
    cannot place two items relative to each other without comparing two
    items of their group, so it raises exactly when some two items of the
    list cannot be compared, as the insertion does. *)
Section Sorted.
Context {A : Type} (lt : A → A → result bool).

Fixpoint sorted_insert (x : A) (l : list A) : result (list A) :=
  match l with
  | [] => Ok [x]
  | y :: l' =>
      b ← lt y x;
      if b : bool then l'' ← sorted_insert x l'; Ok (y :: l'') else Ok (x :: l)
  end.

Fixpoint py_sorted (l : list A) : result (list A) :=
  match l with
  | [] => Ok []
  | x :: l' => s ← py_sorted l'; sorted_insert x s
  end.
End Sorted.

(** [sorted(l, key=key)] for a key function into the integers. *)
Definition sorted_by_key {A} (key : A → Z) (l : list A) : result (list A) :=
  py_sorted (λ a b, Ok (key a <? key b)%Z) l.

(** [a == b] on two different [FundingRequest] objects: the [__eq__] that
    [@dataclass] generates compares the tuples of the fields.  (Amounts are
    compared as floats, so that two nan amounts differ; Python would take
    one and the same float object as equal to itself, which needs two
    requests built around one float object.) *)
Definition req_eqb (a b : FundingRequest string) : bool :=
  String.eqb (req_id a) (req_id b) && String.eqb (student_id a) (student_id b)
  && float_eqb (amount a) (amount b) && (urgency a =? urgency b)%Z
  && String.eqb (status a) (status b).

(** [a < b] on two tuples [(urgency, id, req)].  Python looks for the first
    component on which the tuples differ and compares there; when there is
    none the tuples are equal and [a < b] is false.  The third components
    are [FundingRequest] objects: the same object, or two objects with equal
    fields, do not differ, and two objects that differ cannot be ordered
    ([TypeError], the dataclass defines no [__lt__]). *)
Definition item_lt (objs : list (FundingRequest string))
    (a b : Z * string * ref) : result bool :=
  if negb (a.1.1 =? b.1.1)%Z then Ok (a.1.1 <? b.1.1)%Z
  else if negb (String.eqb a.1.2 b.1.2) then Ok (String.ltb a.1.2 b.1.2)
  else if (a.2 =? b.2) || req_eqb (objs !!! a.2) (objs !!! b.2) then Ok false
  else Raise TypeError.

(** ** app.py: the Flask handlers *)

Module Web.

(** [request.form] *)
Definition Form := list (string * string).

(** [request.form.get(k, default)] *)
Definition form_get (form : Form) (k default : string) : string :=
  match dict_get String.eqb form k with
  | Some v => v
  | None => default
  end.

(** The messages passed to [flash]. *)
Inductive Flash :=
| InvalidRegistrationData          (* "Invalid registration data" *)
| UserAlreadyRegistered            (* "User already registered" *)
| Registered (role name : string)  (* "Registered {role}: {name}" *)
| StudentNotFound                  (* "Student not found or invalid role" *)
| InvalidAmountOrUrgency           (* "Invalid amount or urgency" *)
| Submitted (rid : string) (amount : float)  (* "Submitted {rid} for {amount}" *)
| AdminNotFound                    (* "Admin not found or invalid role" *)
| NoPendingRequests                (* "No pending requests to review" *)
| RequestNotFound                  (* "Request not found" *)
| RequestApproved (rid : string)   (* "Request {rid} approved" *)
| RequestRejected (rid : string)   (* "Request {rid} rejected" *)
| InvalidDonationAmount            (* "Invalid donation amount" *)
| DonorNotFound                    (* "Donor not found or invalid role" *)
| NotFoundOrNotApproved            (* "Request not found or not approved" *)
| FullyFunded (rid : string)       (* "Request {rid} fully funded. Thank you!" *)
| DonationInsufficient.            (* "Donation insufficient to fully fund the request" *)

(** What a handler returns. *)
Inductive Response :=
| RedirectIndex                    (* [redirect(url_for("index"))] *)
| ReviewPage (req : ref).          (* [render_template("review.html", req=req)] *)

Definition Reply : Type := State * list Flash * Response.

Section Handlers.
Context {builtins : Builtins}.

Definition register (s : State) (form : Form) : Reply :=
  let uid := str_strip (form_get form "user_id" "") in
  let name := str_strip (form_get form "name" "") in
  let role := str_lower (str_strip (form_get form "role" "")) in
  if String.eqb uid "" || String.eqb name "" || negb (valid_role role) then
    (s, [InvalidRegistrationData], RedirectIndex)
  else if bool_decide (uid ∈ users_set s) then
    (s, [UserAlreadyRegistered], RedirectIndex)
  else
    (persist (add_user s uid name role), [Registered role name], RedirectIndex).

Definition submit (s : State) (form : Form) : Reply :=
  let sid := str_strip (form_get form "student_id" "") in
  if negb (has_role s sid "student") then
    (s, [StudentNotFound], RedirectIndex)
  else
    match float_of_str (form_get form "amount" "0") with
    | None => (s, [InvalidAmountOrUrgency], RedirectIndex)
    | Some amount =>
        match int_of_str (form_get form "urgency" "1") with
        | None => (s, [InvalidAmountOrUrgency], RedirectIndex)
        | Some urgency =>
            let '(rid, s) := create_request s sid amount urgency in
            (persist s, [Submitted rid amount], RedirectIndex)
        end
    end.

Definition admin_review (s : State) (form : Form) : Reply :=
  let admin_id := str_strip (form_get form "admin_id" "") in
  if negb (has_role s admin_id "admin") then
    (s, [AdminNotFound], RedirectIndex)
  else
    match pop_heap (heap s) with
    | (None, _) => (s, [NoPendingRequests], RedirectIndex)
    | (Some req, h) =>
        (* keep request in map; show decision form *)
        (with_heap s h, [], ReviewPage req)
    end.

Definition admin_decide (s : State) (form : Form) : Reply :=
  let rid := str_strip (form_get form "request_id" "") in
  let decision := form_get form "decision" "no" in
  match dict_get String.eqb (requests_map s) rid with
  | None => (s, [RequestNotFound], RedirectIndex)
  | Some req =>
      if String.eqb decision "approve" then
        (persist (approve s req), [RequestApproved rid], RedirectIndex)
      else
        (persist (reject s req), [RequestRejected rid], RedirectIndex)
  end.

Definition donate (s : State) (form : Form) : Reply :=
  let donor := str_strip (form_get form "donor_id" "") in
  let rid := str_strip (form_get form "request_id" "") in
  match float_of_str (form_get form "donation" "0") with
  | None => (s, [InvalidDonationAmount], RedirectIndex)
  | Some amt =>
      if negb (has_role s donor "donor") then
        (s, [DonorNotFound], RedirectIndex)
      else
        match dict_get String.eqb (requests_map s) rid with
        | None => (s, [NotFoundOrNotApproved], RedirectIndex)
        | Some req =>
            if negb (String.eqb (status (objs s !!! req)) "approved") then
              (s, [NotFoundOrNotApproved], RedirectIndex)
            else if float_ge amt (amount (objs s !!! req)) then
              (persist (fund s req rid), [FullyFunded rid], RedirectIndex)
            else
              (persist s, [DonationInsufficient], RedirectIndex)
        end
  end.

(** [get_sorted_requests] *)
Definition get_sorted_requests (s : State) : list ref := inorder (bst s).

(** The keyword arguments of [render_template("index.html", ...)]. *)
Record IndexPage := mkIndexPage {
  index_users : list (User string);
  index_students : list (User string);
  index_approved : list ref;
  index_sorted_requests : list ref;
  index_heap_top : option ref
}.

Definition index (s : State) : IndexPage :=
  mkIndexPage
    (dict_values (users_map s))
    (filter (λ u, user_role u = "student") (dict_values (users_map s)))
    (approved_q s)
    (get_sorted_requests s)
    (match heap s with
     | [] => None
     | item :: _ => Some item.2
     end).

(** The keyword arguments of [render_template("donor.html", ...)]. *)
Record DonorPage := mkDonorPage {
  donor_students : list (User string);
  donor_approved : list ref;
  donor_requests : list ref
}.

Definition donor_page (s : State) : DonorPage :=
  let students :=
    filter (λ u, user_role u = "student") (dict_values (users_map s)) in
  mkDonorPage students (approved_q s) (dict_values (requests_map s)).

(** The keyword arguments of [render_template("admin.html", ...)]. *)
Record AdminPage := mkAdminPage {
  admin_users : list (User string);
  admin_pending : list ref
}.

(** [heap_items], the heap entries with the urgency made positive again and
    sorted in reverse, is computed and not used; its comparisons of tuples
    are the one place of the handler that can raise. *)
Definition admin_page (s : State) : result AdminPage :=
  let users := dict_values (users_map s) in
  heap_items ←
    match heap s with
    | [] => Ok []
    | _ =>
        py_sorted (λ a b, item_lt (objs s) b a)
          ((λ item : entry, ((- item.1.1)%Z, item.1.2, item.2)) <$> heap s)
    end;
  let pending :=
    filter (λ r, status (objs s !!! r) = "submitted")
           (dict_values (requests_map s)) in
  pending_sorted ← sorted_by_key (λ x, (- urgency (objs s !!! x))%Z) pending;
  Ok (mkAdminPage users pending_sorted).

End Handlers.
End Web.

(** ** main.py: the command-line loop *)

Module Cli.

(** The lines written by [print] (the banner, the menu and the prompts of
    [input] carry no information and are not recorded). *)
Inductive Output :=
| UserAlreadyRegistered            (* "User already registered." *)
| InvalidRole                      (* "Invalid role. Use student/admin/donor." *)
| Registered (role name uid : string)
| StudentNotFound                  (* "Student not found or not a student role." *)
| InvalidAmount                    (* "Invalid amount." *)
| InvalidUrgency                   (* "Invalid urgency." *)
| Submitted (rid : string) (amount : float) (urgency : Z)
| AdminNotFound                    (* "Admin not found or not an admin." *)
| NoPendingRequests                (* "No pending requests to review." *)
| AlreadyHandled                   (* "Request already handled, pulling next if available." *)
| Reviewing (req : FundingRequest string)
| Approved (rid : string)          (* "Request {rid} approved and queued for funding." *)
| Rejected (rid : string)          (* "Request {rid} rejected." *)
| DonorNotFound                    (* "Donor not found or not a donor." *)
| NoApprovedRequests               (* "No approved requests awaiting funding." *)
| AwaitingFunding (reqs : list (FundingRequest string))
| NotFoundOrNotApproved            (* "Request not found or not approved." *)
| InvalidDonationAmount            (* "Invalid donation amount." *)
| FullyFunded (rid name : string)  (* "Request {rid} fully funded. Thank you, {name}!" *)
| DonationInsufficient             (* "Donation insufficient to fully fund the request. ..." *)
| AllSorted (reqs : list (FundingRequest string))
| NoRequestsYet                    (* "No requests submitted yet." *)
| Exiting                          (* "Exiting. Goodbye." *)
| UnknownOption.                   (* "Unknown option. Enter 1-6." *)

(** The variables of [main], the lines still to be read from the terminal
    and the lines printed so far. *)
Record World := mkWorld {
  engine : State;
  stdin : list string;
  stdout : list Output
}.

Inductive Outcome (A : Type) :=
| Return (a : A) (w : World)
| EOFError (w : World)       (* [input] found the terminal closed *)
| SystemExit (w : World).    (* [sys.exit(0)] *)
Arguments Return {A} a w.
Arguments EOFError {A} w.
Arguments SystemExit {A} w.

Definition M (A : Type) : Type := World → Outcome A.

Definition ret {A} (a : A) : M A := λ w, Return a w.

Definition bind {A B} (m : M A) (k : A → M B) : M B :=
  λ w, match m w with
       | Return a w' => k a w'
       | EOFError w' => EOFError w'
       | SystemExit w' => SystemExit w'
       end.

Global Instance M_bind : MBind M := λ A B k m, bind m k.

Definition get : M State := λ w, Return (engine w) w.

Definition put (s : State) : M unit :=
  λ w, Return tt (mkWorld s (stdin w) (stdout w)).

Definition print (p : Output) : M unit :=
  λ w, Return tt (mkWorld (engine w) (stdin w) (stdout w ++ [p])).

Definition sys_exit {A} : M A := λ w, SystemExit w.

(** [continue]: the rest of the loop body is skipped. *)
Definition continue : M unit := ret tt.

Section Main.
Context {builtins : Builtins}.

(** The lines left after [input_nonempty] has returned, with its value. *)
Fixpoint read_nonempty (lines : list string) : option (string * list string) :=
  match lines with
  | [] => None
  | l :: rest =>
      let v := str_strip l in
      if String.eqb v "" then read_nonempty rest else Some (v, rest)
  end.

Definition input_nonempty : M string :=
  λ w, match read_nonempty (stdin w) with
       | Some (v, rest) => Return v (mkWorld (engine w) rest (stdout w))
       | None => EOFError (mkWorld (engine w) [] (stdout w))
       end.

(** [choice == "1"]: register a user. *)
Definition choice_1 : M unit :=
  uid ← input_nonempty;
  s ← get;
  if bool_decide (uid ∈ users_set s) then
    print UserAlreadyRegistered;; continue
  else
    name ← input_nonempty;
    role ← input_nonempty;
    let role := str_lower role in
    if negb (valid_role role) then
      print InvalidRole;; continue
    else
      put (add_user s uid name role);;
      print (Registered role name uid);;
      s ← get;
      put (persist s).

(** [choice == "2"]: submit a funding request. *)
Definition choice_2 : M unit :=
  sid ← input_nonempty;
  s ← get;
  if negb (has_role s sid "student") then
    print StudentNotFound;; continue
  else
    a ← input_nonempty;
    match float_of_str a with
    | None => print InvalidAmount;; continue
    | Some amount =>
        u ← input_nonempty;
        match int_of_str u with
        | None => print InvalidUrgency;; continue
        | Some urgency =>
            let '(rid, s) := create_request s sid amount urgency in
            put s;;
            print (Submitted rid amount urgency);;
            put (persist s)
        end
    end.

(** [choice == "3"]: the admin reviews the highest-priority request. *)
Definition choice_3 : M unit :=
  aid ← input_nonempty;
  s ← get;
  if negb (has_role s aid "admin") then
    print AdminNotFound;; continue
  else
    match pop_heap (heap s) with
    | (None, _) => print NoPendingRequests;; continue
    | (Some req, h) =>
        let s := with_heap s h in
        put s;;
        (* If the request was already processed elsewhere, skip *)
        let current :=
          dict_get String.eqb (requests_map s) (req_id (objs s !!! req)) in
        match current with
        | None => print AlreadyHandled;; continue
        | Some cur =>
            if negb (String.eqb (status (objs s !!! cur)) "submitted") then
              print AlreadyHandled;; continue
            else
              print (Reviewing (objs s !!! req));;
              dec ← input_nonempty;
              let dec := str_lower dec in
              if String.eqb dec "y" then
                let s := approve s req in
                put s;;
                print (Approved (req_id (objs s !!! req)));;
                put (persist s)
              else
                let s := reject s req in
                put s;;
                print (Rejected (req_id (objs s !!! req)));;
                put (persist s)
        end
    end.

(** [choice == "4"]: a donor funds an approved request. *)
Definition choice_4 : M unit :=
  donor ← input_nonempty;
  s ← get;
  if negb (has_role s donor "donor") then
    print DonorNotFound;; continue
  else
    match approved_q s with
    | [] => print NoApprovedRequests;; continue
    | _ =>
        print (AwaitingFunding ((λ r, objs s !!! r) <$> approved_q s));;
        rid ← input_nonempty;
        match dict_get String.eqb (requests_map s) rid with
        | None => print NotFoundOrNotApproved;; continue
        | Some req =>
            if negb (String.eqb (status (objs s !!! req)) "approved") then
              print NotFoundOrNotApproved;; continue
            else
              a ← input_nonempty;
              match float_of_str a with
              | None => print InvalidDonationAmount;; continue
              | Some amt =>
                  if float_ge amt (amount (objs s !!! req)) then
                    let s := fund s req rid in
                    put s;;
                    let name :=
                      match dict_get String.eqb (users_map s) donor with
                      | Some u => user_name u
                      | None => ""
                      end in
                    print (FullyFunded rid name);;
                    put (persist s)
                  else
                    print DonationInsufficient
              end
        end
    end.

(** [choice == "5"]: all requests sorted by amount. *)
Definition choice_5 : M unit :=
  s ← get;
  let all_sorted := inorder (bst s) in
  match all_sorted with
  | [] => print NoRequestsYet
  | _ => print (AllSorted ((λ r, objs s !!! r) <$> all_sorted))
  end.

(** One turn of the [while True] loop. *)
Definition menu : M unit :=
  choice ← input_nonempty;
  if String.eqb choice "1" then choice_1
  else if String.eqb choice "2" then choice_2
  else if String.eqb choice "3" then choice_3
  else if String.eqb choice "4" then choice_4
  else if String.eqb choice "5" then choice_5
  else if String.eqb choice "6" then print Exiting;; sys_exit
  else print UnknownOption.

(** [n] turns of the loop.  Every turn reads at least one line, so the loop
    has ended (by [EOFError] or [SystemExit]) after one turn more than there
    are lines on the terminal. *)
Fixpoint turns (n : nat) : M unit :=
  match n with
  | 0 => ret tt
  | S n' => menu;; turns n'
  end.

(** How [main()] ends. *)
Inductive Ending :=
| Raised (e : exn)            (* by an exception of the start-up code *)
| Ended (o : Outcome unit)    (* in the loop *)
| NotCovered.                 (* the data file is not covered, see [IllTyped] *)

(** [main()] on a data file and the lines typed at the terminal. *)
Definition main (d : File) (lines : list string) : Ending :=
  match startup d with
  | Started s => Ended (turns (S (length lines)) (mkWorld s lines []))
  | Crashed e => Raised e
  | IllTyped => NotCovered
  end.

End Main.
End Cli.

(** ** Functions on ASCII text, for an instance of the builtins *)

(** ASCII white space, as [str.isspace] has it. *)
Definition is_space (c : ascii) : bool :=
  let n := nat_of_ascii c in
  (9 <=? n) && (n <=? 13) || (28 <=? n) && (n <=? 32).

Fixpoint lstrip (s : string) : string :=
  match s with
  | String c r => if is_space c then lstrip r else s
  | EmptyString => EmptyString
  end.

Definition ascii_strip (s : string) : string :=
  String.rev (lstrip (String.rev (lstrip s))).

Definition lower_char (c : ascii) : ascii :=
  let n := nat_of_ascii c in
  if (65 <=? n) && (n <=? 90) then ascii_of_nat (n + 32) else c.

Fixpoint ascii_lower (s : string) : string :=
  match s with
  | String c r => String (lower_char c) (ascii_lower r)
  | EmptyString => EmptyString
  end.

(** A decimal integer literal with an optional sign. *)
Definition int_literal (s : string) : option Z :=
  match s with
  | String "-" r => (λ n, (- Z.of_nat n)%Z) <$> digits_value r
  | String "+" r => Z.of_nat <$> digits_value r
  | _ => Z.of_nat <$> digits_value s
  end.

(** A float literal: "nan", "inf", "-inf" or a decimal integer literal,
    which [float] rounds as it rounds the int (to [inf] or [-inf] when it
    is too large). *)
Definition float_literal (s : string) : option float :=
  if String.eqb s "nan" then Some NaN
  else if String.eqb s "inf" then Some PosInf
  else if String.eqb s "-inf" then Some NegInf
  else
    match int_literal s with
    | Some z =>
        match float_of_int z with
        | Ok x => Some x
        | Raise _ => Some (if (z <? 0)%Z then NegInf else PosInf)
        end
    | None => None
    end.

(** A non-empty string of the digits 0 to 9. *)
Definition is_digit (c : ascii) : bool :=
  let n := nat_of_ascii c in (48 <=? n) && (n <=? 57).

Definition ascii_isdigit (s : string) : bool :=
  negb (String.eqb s "") && forallb is_digit (list_ascii_of_string s).

(** * Properties *)

(** ** heapq keeps the heap order *)

(** The parent of position [i], as [_siftdown] computes it. *)
Definition parent (i : nat) : nat := Nat.shiftr (i - 1) 1.

(** The heap invariant of [heapq]: no item is smaller than its parent. *)
Definition heap_ordered {T} `{!Inhabited T} (lt : T → T → bool)
    (h : list T) : Prop :=
  ∀ i, 0 < i < length h → lt (h !!! i) (h !!! parent i) = false.

Arguments parent : simpl never.

Lemma _siftdown_loop_S {T} `{!Inhabited T} (lt : T → T → bool) n h s pos x :
  _siftdown_loop lt (S n) h s pos x =
  if bool_decide (s < pos) then
    if lt x (h !!! parent pos)
    then _siftdown_loop lt n (<[pos:=h !!! parent pos]> h) s (parent pos) x
    else <[pos:=x]> h
  else <[pos:=x]> h.
Proof. reflexivity. Qed.

Lemma parent_div i : parent i = (i - 1) / 2.
Proof. unfold parent. rewrite Nat.shiftr_div_pow2. reflexivity. Qed.

Lemma parent_cases i : 0 < i → i = 2 * parent i + 1 ∨ i = 2 * parent i + 2.
Proof.
  intros. rewrite parent_div.
  pose proof (Nat.div_mod_eq (i - 1) 2).
  pose proof (Nat.mod_upper_bound (i - 1) 2). lia.
Qed.

Lemma parent_lt i : 0 < i → parent i < i.
Proof. intros H. pose proof (parent_cases i H). lia. Qed.

Lemma parent_le i : parent i ≤ i.
Proof.
  destruct (decide (i = 0)) as [->|]; [done|].
  pose proof (parent_lt i). lia.
Qed.

Lemma parent_child p c : c = 2 * p + 1 ∨ c = 2 * p + 2 → parent c = p.
Proof.
  intros H. rewrite parent_div. symmetry.
  apply (Nat.div_unique (c - 1) 2 p (c - 1 - 2 * p)); lia.
Qed.

Lemma insert_replace_perm {T} `{!Inhabited T} (l : list T) i x :
  i < length l → x :: l ≡ₚ (l !!! i) :: <[i:=x]> l.
Proof.
  revert i. induction l as [|y l IH]; intros [|i] Hi; simpl in *; try lia.
  - apply perm_swap.
  - rewrite (perm_swap y x l), (IH i) by lia.
    change ((y :: l) !!! S i) with (l !!! i). apply perm_swap.
Qed.

Lemma insert_swap_perm {T} `{!Inhabited T} (h : list T) i j x :
  i ≠ j → i < length h → j < length h →
  <[j:=x]> (<[i:=h !!! j]> h) ≡ₚ <[i:=x]> h.
Proof.
  intros Hne Hi Hj.
  pose proof (insert_replace_perm h i (h !!! j) Hi) as H1.
  pose proof (insert_replace_perm (<[i:=h !!! j]> h) j x) as H2.
  rewrite length_insert in H2. specialize (H2 Hj).
  rewrite list_lookup_total_insert_ne in H2 by done.
  pose proof (insert_replace_perm h i x Hi) as H3.
  apply (Permutation_cons_inv (a := h !!! j)).
  apply (Permutation_cons_inv (a := h !!! i)).
  transitivity (x :: h !!! j :: h).
  - rewrite <- H2, (perm_swap x (h !!! i)), <- H1. done.
  - rewrite (perm_swap (h !!! j) (h !!! i)), <- H3. apply perm_swap.
Qed.

Section HeapqFacts.
Context {T : Type} `{!Inhabited T} (lt : T → T → bool).
Hypothesis lt_irrefl : ∀ a, lt a a = false.
Hypothesis lt_asym : ∀ a b, lt a b = true → lt b a = false.
Hypothesis le_trans :
  ∀ a b c, lt b a = false → lt c b = false → lt c a = false.

(** The root of an ordered heap is a least item. *)
Lemma root_minimal (h : list T) i :
  heap_ordered lt h → i < length h → lt (h !!! i) (h !!! 0) = false.
Proof.
  intros Hh. induction (lt_wf i) as [i _ IH]. intros Hi.
  destruct (decide (i = 0)) as [->|Hi0]; [apply lt_irrefl|].
  assert (parent i < i) as Hp by (apply parent_lt; lia).
  eapply le_trans; [apply (IH (parent i)); lia|]. apply Hh. lia.
Qed.

(** A prefix of an ordered heap is ordered. *)
Lemma heap_ordered_take (h : list T) n :
  heap_ordered lt h → heap_ordered lt (take n h).
Proof.
  intros Hh i Hi. rewrite length_take in Hi.
  assert (parent i < i) as Hp by (apply parent_lt; lia).
  rewrite !lookup_total_take_lt by lia. apply Hh. lia.
Qed.

(** *** _siftdown *)

(** The state of the loop of [_siftdown]: [newitem] is to be placed at
    [pos] or above; apart from the link into [pos] the heap is ordered, and
    the children of [pos] are above both [newitem] and the parent of [pos]. *)
Definition sifting_down (h : list T) (pos : nat) (newitem : T) : Prop :=
  (∀ i, 0 < i < length h → i ≠ pos → lt (h !!! i) (h !!! parent i) = false)
  ∧ (∀ c, 0 < c < length h → parent c = pos →
       lt (h !!! c) newitem = false
       ∧ (0 < pos → lt (h !!! c) (h !!! parent pos) = false)).

Lemma _siftdown_loop_ordered n (h : list T) pos x :
  pos ≤ n → pos < length h → sifting_down h pos x →
  heap_ordered lt (_siftdown_loop lt n h 0 pos x).
Proof.
  revert h pos. induction n as [|n IH]; intros h pos Hn Hlen [Ha Hb].
  - assert (pos = 0) as -> by lia. simpl. intros i Hi.
    rewrite length_insert in Hi.
    rewrite list_lookup_total_insert_ne by lia.
    destruct (decide (parent i = 0)) as [Hp|Hp].
    + rewrite Hp, list_lookup_total_insert_eq by lia. apply Hb; [lia|done].
    + rewrite list_lookup_total_insert_ne by lia. apply Ha; lia.
  - rewrite _siftdown_loop_S. case_bool_decide as Hpos.
    + assert (parent pos < pos) as Hp by (apply parent_lt; lia).
      destruct (lt x (h !!! parent pos)) eqn:Hlt.
      * apply IH; [lia|rewrite length_insert; lia|]. split.
        -- intros i Hi Hne. rewrite length_insert in Hi.
           destruct (decide (i = pos)) as [->|Hip].
           ++ rewrite list_lookup_total_insert_eq by lia.
              rewrite list_lookup_total_insert_ne by lia. apply lt_irrefl.
           ++ rewrite (list_lookup_total_insert_ne _ pos i) by lia.
              destruct (decide (parent i = pos)) as [Hpi|Hpi].
              ** rewrite Hpi, list_lookup_total_insert_eq by lia.
                 apply Hb; [lia|done|lia].
              ** rewrite list_lookup_total_insert_ne by lia. apply Ha; lia.
        -- intros c Hc Hpc. rewrite length_insert in Hc.
           pose proof (parent_le (parent pos)) as Hpp.
           destruct (decide (c = pos)) as [->|Hcp].
           ++ rewrite list_lookup_total_insert_eq by lia. split.
              ** by apply lt_asym.
              ** intros ?. rewrite list_lookup_total_insert_ne by lia.
                 apply Ha; lia.
           ++ rewrite (list_lookup_total_insert_ne _ pos c) by lia. split.
              ** eapply le_trans; [apply lt_asym, Hlt|].
                 rewrite <- Hpc. apply Ha; lia.
              ** intros ?. rewrite list_lookup_total_insert_ne by lia.
                 eapply le_trans; [apply (Ha (parent pos)); lia|].
                 rewrite <- Hpc. apply Ha; lia.
      * intros i Hi. rewrite length_insert in Hi.
        destruct (decide (i = pos)) as [->|Hip].
        -- rewrite list_lookup_total_insert_eq by lia.
           rewrite list_lookup_total_insert_ne by lia. done.
        -- rewrite (list_lookup_total_insert_ne _ pos i) by lia.
           destruct (decide (parent i = pos)) as [Hpi|Hpi].
           ++ rewrite Hpi, list_lookup_total_insert_eq by lia.
              apply Hb; [lia|done].
           ++ rewrite list_lookup_total_insert_ne by lia. apply Ha; lia.
    + assert (pos = 0) as -> by lia. intros i Hi.
      rewrite length_insert in Hi.
      rewrite list_lookup_total_insert_ne by lia.
      destruct (decide (parent i = 0)) as [Hp|Hp].
      * rewrite Hp, list_lookup_total_insert_eq by lia. apply Hb; [lia|done].
      * rewrite list_lookup_total_insert_ne by lia. apply Ha; lia.
Qed.

Lemma _siftdown_loop_perm n (h : list T) pos x :
  pos ≤ n → pos < length h →
  _siftdown_loop lt n h 0 pos x ≡ₚ <[pos:=x]> h.
Proof.
  revert h pos. induction n as [|n IH]; intros h pos Hn Hlen; [done|].
  rewrite _siftdown_loop_S. case_bool_decide as Hpos; [|done].
  assert (parent pos < pos) as Hp by (apply parent_lt; lia).
  destruct (lt x (h !!! parent pos)); [|done].
  rewrite IH; [|lia|rewrite length_insert; lia].
  apply insert_swap_perm; lia.
Qed.

End HeapqFacts.

Lemma _siftup_loop_S {T} `{!Inhabited T} (lt : T → T → bool) n h e pos :
  _siftup_loop lt (S n) h e pos =
  if bool_decide (2 * pos + 1 < e) then
    let c :=
      if bool_decide (2 * pos + 1 + 1 < e)
         && negb (lt (h !!! (2 * pos + 1)) (h !!! (2 * pos + 1 + 1)))
      then 2 * pos + 1 + 1 else 2 * pos + 1 in
    _siftup_loop lt n (<[pos:=h !!! c]> h) e c
  else (h, pos).
Proof. reflexivity. Qed.

Section HeapqSiftup.
Context {T : Type} `{!Inhabited T} (lt : T → T → bool).
Hypothesis lt_irrefl : ∀ a, lt a a = false.
Hypothesis lt_asym : ∀ a b, lt a b = true → lt b a = false.
Hypothesis le_trans :
  ∀ a b c, lt b a = false → lt c b = false → lt c a = false.

(** The state of the first loop of [_siftup]: the item at [pos] has been
    copied to its parent; apart from the links out of [pos] the heap is
    ordered, and the children of [pos] are above the parent of [pos]. *)
Definition sifting_up (h : list T) (pos : nat) : Prop :=
  (∀ i, 0 < i < length h → parent i ≠ pos →
     lt (h !!! i) (h !!! parent i) = false)
  ∧ (∀ c, 0 < c < length h → parent c = pos → 0 < pos →
       lt (h !!! c) (h !!! parent pos) = false).

Lemma _siftup_loop_spec n (h : list T) pos :
  length h - pos ≤ n → pos < length h → sifting_up h pos →
  ∃ h' pos',
    _siftup_loop lt n h (length h) pos = (h', pos')
    ∧ length h' = length h
    ∧ pos' < length h ∧ length h ≤ 2 * pos' + 1
    ∧ sifting_up h' pos'
    ∧ ∀ x, <[pos':=x]> h' ≡ₚ <[pos:=x]> h.
Proof.
  revert h pos. induction n as [|n IH]; intros h pos Hn Hlen [Ha Hb];
    [lia|].
  rewrite _siftup_loop_S. case_bool_decide as Hchild; cbv zeta.
  2:{ exists h, pos. split_and!; try done; lia. }
  set (c := if _ && _ then _ else _).
  assert (c = 2 * pos + 1 ∨ c = 2 * pos + 2) as Hc
    by (subst c; destruct (_ && _); lia).
  assert (c < length h) as Hclen.
  { subst c. destruct (bool_decide _ && _) eqn:E; [|lia].
    apply andb_prop in E as [E _]. apply bool_decide_eq_true in E. lia. }
  assert (parent c = pos) as Hpc by (by apply parent_child).
  assert (∀ i, 0 < i < length h → parent i = pos →
            lt (h !!! i) (h !!! c) = false) as Hsmall.
  { intros i Hi Hpi.
    destruct (parent_cases i) as [Hi1|Hi2]; [lia|..]; rewrite Hpi in *.
    - subst c. destruct (bool_decide _ && _) eqn:E.
      + apply andb_prop in E as [_ E]. apply negb_true_iff in E.
        replace i with (2 * pos + 1) by lia. done.
      + replace i with (2 * pos + 1) by lia. apply lt_irrefl.
    - subst c. destruct (bool_decide _ && _) eqn:E.
      + replace i with (2 * pos + 1 + 1) by lia. apply lt_irrefl.
      + apply andb_false_iff in E as [E|E].
        * apply bool_decide_eq_false in E. lia.
        * apply negb_false_iff in E. replace i with (2 * pos + 1 + 1) by lia.
          by apply lt_asym. }
  assert (length (<[pos:=h !!! c]> h) - c ≤ n) as G1
    by (rewrite length_insert; lia).
  assert (c < length (<[pos:=h !!! c]> h)) as G2
    by (rewrite length_insert; lia).
  assert (sifting_up (<[pos:=h !!! c]> h) c) as G3.
  { rewrite length_insert in G2. unfold sifting_up. rewrite length_insert. split.
    + intros i Hi Hne. destruct (decide (i = pos)) as [->|Hip].
      * rewrite list_lookup_total_insert_eq by lia.
        pose proof (parent_lt pos).
        rewrite list_lookup_total_insert_ne by lia. apply Hb; [lia|done|lia].
      * rewrite (list_lookup_total_insert_ne _ pos i) by lia.
        destruct (decide (parent i = pos)) as [Hpi|Hpi].
        -- rewrite Hpi, list_lookup_total_insert_eq by lia. by apply Hsmall.
        -- rewrite list_lookup_total_insert_ne by lia. by apply Ha.
    + intros d Hd Hpd _. rewrite Hpc.
      rewrite list_lookup_total_insert_eq by lia.
      pose proof (parent_lt d).
      rewrite list_lookup_total_insert_ne by lia.
      rewrite <- Hpd. apply Ha; lia. }
  destruct (IH _ _ G1 G2 G3) as (h' & pos' & Hrun & Hl & Hp1 & Hp2 & Hs & Hperm).
  rewrite length_insert in *. exists h', pos'. split_and!; try done.
  intros x. rewrite Hperm. apply insert_swap_perm; lia.
Qed.

Lemma _siftup_spec (h : list T) :
  h ≠ [] → sifting_up h 0 →
  heap_ordered lt (_siftup lt h 0) ∧ _siftup lt h 0 ≡ₚ h.
Proof.
  intros Hne Hs. assert (0 < length h) as Hlen by (destruct h; simpl; [done|lia]).
  unfold _siftup.
  destruct (_siftup_loop_spec (length h - 0) h 0) as
    (h' & p & Hrun & Hl & Hp1 & Hp2 & [Ha Hb] & Hperm); [lia|lia|done|].
  rewrite Hrun. unfold _siftdown.
  rewrite list_lookup_total_insert_eq by lia. split.
  - apply _siftdown_loop_ordered; try done; [rewrite length_insert; lia|].
    rewrite <- Hl in *. split.
    + intros i Hi Hne'. rewrite length_insert in Hi.
      assert (parent i ≠ p) as Hpi.
      { intros Hpi. destruct (parent_cases i); lia. }
      rewrite !list_lookup_total_insert_ne by lia. by apply Ha.
    + intros c Hc Hpc. rewrite length_insert in Hc.
      destruct (parent_cases c); lia.
  - rewrite _siftdown_loop_perm; [|lia|rewrite length_insert; lia].
    rewrite list_insert_insert_eq, Hperm.
    rewrite list_insert_id; [done|]. by apply list_lookup_lookup_total_lt.
Qed.

(** *** heappush and heappop *)

Lemma heappush_spec (h : list T) x :
  heap_ordered lt h →
  heap_ordered lt (heappush lt h x) ∧ heappush lt h x ≡ₚ x :: h.
Proof.
  intros Hh. unfold heappush, _siftdown.
  rewrite length_app. simpl. replace (length h + 1 - 1) with (length h) by lia.
  rewrite list_lookup_total_middle by done. split.
  - apply _siftdown_loop_ordered; try done.
    + rewrite length_app. simpl. lia.
    + split.
      * intros i Hi Hne. rewrite length_app in Hi. simpl in Hi.
        pose proof (parent_lt i).
        rewrite !lookup_total_app_l by lia. apply Hh. lia.
      * intros c Hc Hpc. rewrite length_app in Hc. simpl in Hc.
        pose proof (parent_lt c). lia.
  - rewrite _siftdown_loop_perm; [|lia|rewrite length_app; simpl; lia].
    rewrite list_insert_id.
    + by rewrite Permutation_app_comm.
    + by apply list_lookup_middle.
Qed.

Lemma heappop_spec (h : list T) :
  heap_ordered lt h → h ≠ [] →
  ∃ h', heappop lt h = Some (h !!! 0, h')
        ∧ heap_ordered lt h' ∧ h ≡ₚ h !!! 0 :: h'.
Proof.
  intros Hh Hne. unfold heappop.
  destruct (last h) as [lastelt|] eqn:Hlast.
  2:{ apply last_is_Some in Hne. rewrite Hlast in Hne. by destruct Hne. }
  apply last_Some in Hlast as [h1 ->].
  pose proof (heap_ordered_take lt _ (length h1) Hh) as Hh1.
  rewrite length_app. simpl. replace (length h1 + 1 - 1) with (length h1) by lia.
  rewrite take_app_length in *.
  destruct h1 as [|r t].
  - exists []. split_and!; [done| |done]. intros i Hi. simpl in Hi. lia.
  - exists (_siftup lt (<[0:=lastelt]> (r :: t)) 0).
    destruct (_siftup_spec (<[0:=lastelt]> (r :: t))) as [Ho Hp]; [done|..].
    + split; [|lia]. intros i Hi Hpi. rewrite length_insert in Hi.
      rewrite !list_lookup_total_insert_ne by lia. by apply Hh1.
    + split_and!; [done|done|]. rewrite Hp. simpl.
      change (r :: t ++ [lastelt]) with (r :: (t ++ [lastelt])).
      by rewrite <- Permutation_cons_append.
Qed.

(** The item returned by [heappop] is a least item of the heap. *)
Lemma heappop_least (h h' : list T) x y :
  heap_ordered lt h → heappop lt h = Some (x, h') → y ∈ h → lt y x = false.
Proof.
  intros Hh Hpop Hy.
  assert (h ≠ []) as Hne by (intros ->; by apply elem_of_nil in Hy).
  destruct (heappop_spec h Hh Hne) as (h'' & Hpop' & _).
  rewrite Hpop' in Hpop. injection Hpop as <- <-.
  apply list_elem_of_lookup_total in Hy as (i & Hi & <-).
  by apply root_minimal.
Qed.

End HeapqSiftup.

(** ** The tree lists the requests by amount *)

(** The in-order sequence of a tree. *)
Fixpoint flatten (t : BSTNode) : list ref :=
  match t with
  | NoNode => []
  | Node q l rt => flatten l ++ q :: flatten rt
  end.

Lemma _in_flatten t out : _in t out = out ++ flatten t.
Proof.
  revert out. induction t as [|q l IHl rt IHr]; intros out; simpl.
  - by rewrite app_nil_r.
  - rewrite IHr, IHl. by rewrite <- !app_assoc.
Qed.

Lemma inorder_flatten b : inorder b = flatten (root b).
Proof. unfold inorder. by rewrite _in_flatten. Qed.

(** [math.isnan] *)
Definition is_nan (x : float) : bool :=
  match x with
  | NaN => true
  | _ => false
  end.


Lemma float_lt_nan_r a : float_lt a NaN = false.
Proof. by destruct a. Qed.

Lemma float_lt_nan_l a : float_lt NaN a = false.
Proof. done. Qed.

Lemma float_ge_not_nan a b :
  float_ge a b = true → is_nan a = false ∧ is_nan b = false.
Proof. by destruct a, b. Qed.






Section BSTFacts.
Context (objs : list (FundingRequest string)).

Definition amount_of (a : ref) : float := amount (objs !!! a).


(** The requests of a list whose amount is a number. *)
Definition numbers (l : list ref) : list ref :=
  filter (λ a, is_nan (amount_of a) = false) l.

(** What [_insert] maintains: a request is to the left of a node when its
    amount is smaller ([<] holds), and otherwise to the right, where it was
    created later than the node. *)
Fixpoint bst_ok (t : BSTNode) : Prop :=
  match t with
  | NoNode => True
  | Node q l rt =>
      bst_ok l ∧ bst_ok rt
      ∧ Forall (λ x, float_lt (amount_of x) (amount_of q) = true) (flatten l)
      ∧ Forall (λ x, float_lt (amount_of x) (amount_of q) = false ∧ q < x)
               (flatten rt)
  end.

Lemma flatten_insert t r : flatten (_insert objs t r) ≡ₚ r :: flatten t.
Proof.
  induction t as [|q l IHl rt IHr]; simpl; [done|].
  destruct (float_lt _ _); simpl.
  - by rewrite IHl.
  - rewrite IHr. rewrite (Permutation_middle (flatten l) (q :: flatten rt) r).
    apply Permutation_app_head, perm_swap.
Qed.

Lemma bst_ok_insert t r :
  bst_ok t → Forall (λ x, x < r) (flatten t) → bst_ok (_insert objs t r).
Proof.
  induction t as [|q l IHl rt IHr]; simpl.
  - intros _ _. repeat split; constructor.
  - intros (Hl & Hr & Fl & Fr) Hlt.
    apply Forall_app in Hlt as [Hlt1 Hlt2].
    apply Forall_cons in Hlt2 as [Hq Hlt2].
    fold (amount_of r). fold (amount_of q).
    destruct (float_lt _ _) eqn:E; simpl.
    + split_and!; try done; [by apply IHl|].
      rewrite flatten_insert. by constructor.
    + split_and!; try done; [by apply IHr|].
      rewrite flatten_insert. by constructor.
Qed.


Lemma numbers_all l :
  Forall (λ a, is_nan (amount_of a) = false) l → numbers l = l.
Proof.
  unfold numbers. induction 1 as [|x l Hx _ IH]; [done|].
  by rewrite filter_cons_True, IH.
Qed.

End BSTFacts.

(** The invariant only reads the amounts. *)
Lemma bst_ok_ext objs objs' t :
  (∀ a, a ∈ flatten t → amount (objs' !!! a) = amount (objs !!! a)) →
  bst_ok objs t → bst_ok objs' t.
Proof.
  induction t as [|q l IHl rt IHr]; simpl; [done|].
  intros Heq (Hl & Hr & Fl & Fr).
  assert (∀ a, a ∈ flatten l → amount (objs' !!! a) = amount (objs !!! a))
    as Hel by (intros; apply Heq; set_solver).
  assert (∀ a, a ∈ flatten rt → amount (objs' !!! a) = amount (objs !!! a))
    as Her by (intros; apply Heq; set_solver).
  assert (amount (objs' !!! q) = amount (objs !!! q)) as Heq'
    by (apply Heq; set_solver).
  split_and!; [by apply IHl|by apply IHr|..].
  - rewrite Forall_forall in Fl. apply Forall_forall. intros x Hx.
    unfold amount_of. rewrite Heq', Hel by done. by apply Fl.
  - rewrite Forall_forall in Fr. apply Forall_forall. intros x Hx.
    unfold amount_of. rewrite Heq', Her by done. by apply Fr.
Qed.

Lemma _insert_ext objs objs' t r :
  (∀ a, a ∈ r :: flatten t → amount (objs' !!! a) = amount (objs !!! a)) →
  _insert objs' t r = _insert objs t r.
Proof.
  induction t as [|q l IHl rt IHr]; simpl; [done|]. intros Heq.
  rewrite !Heq by (rewrite !elem_of_cons, elem_of_app, elem_of_cons; tauto).
  rewrite IHl, IHr; [done|intros a Ha; apply Heq..];
    revert Ha; rewrite !elem_of_cons, elem_of_app, elem_of_cons; tauto.
Qed.

(** ** The order of the heap entries *)

Lemma string_ltb_lts a b : String.ltb a b = true ↔ OrderedTypeEx.String_as_OT.lt a b.
Proof.
  unfold String.ltb. rewrite <- OrderedTypeEx.String_as_OT.cmp_lt.
  unfold OrderedTypeEx.String_as_OT.cmp.
  destruct (String.compare a b); split; done.
Qed.

Lemma string_ltb_irrefl a : String.ltb a a = false.
Proof.
  destruct (String.ltb a a) eqn:E; [|done].
  apply string_ltb_lts in E.
  by apply OrderedTypeEx.String_as_OT.lt_not_eq in E.
Qed.

Lemma string_ltb_trans a b c :
  String.ltb a b = true → String.ltb b c = true → String.ltb a c = true.
Proof.
  rewrite !string_ltb_lts. apply OrderedTypeEx.String_as_OT.lt_trans.
Qed.

Lemma string_ltb_asym a b : String.ltb a b = true → String.ltb b a = false.
Proof.
  intros H. destruct (String.ltb b a) eqn:E; [|done].
  pose proof (string_ltb_trans _ _ _ H E) as Hc.
  by rewrite string_ltb_irrefl in Hc.
Qed.

Lemma string_ltb_total a b :
  String.ltb a b = false → String.ltb b a = false → a = b.
Proof.
  unfold String.ltb. rewrite (String.compare_antisym a b).
  destruct (String.compare b a) eqn:E; simpl; try done.
  intros _ _. symmetry. by apply String.compare_eq_iff.
Qed.

(** [a <= b] on strings, by code points. *)
Definition string_le (a b : string) : Prop := String.ltb b a = false.

Lemma string_le_trans a b c : string_le a b → string_le b c → string_le a c.
Proof.
  unfold string_le. intros Hab Hbc.
  destruct (String.ltb c a) eqn:Hca; [|done].
  destruct (String.ltb a b) eqn:E.
  - pose proof (string_ltb_trans _ _ _ Hca E) as Hcb. congruence.
  - rewrite (string_ltb_total a b E Hab) in Hca. congruence.
Qed.

Lemma entry_lt_spec (a b : entry) :
  entry_lt a b = true ↔
  (a.1.1 < b.1.1)%Z ∨ (a.1.1 = b.1.1 ∧ String.ltb a.1.2 b.1.2 = true).
Proof.
  unfold entry_lt. rewrite orb_true_iff, andb_true_iff, Z.ltb_lt, Z.eqb_eq.
  done.
Qed.

Lemma entry_lt_false (a b : entry) :
  entry_lt a b = false ↔
  (b.1.1 < a.1.1)%Z ∨ (a.1.1 = b.1.1 ∧ string_le b.1.2 a.1.2).
Proof.
  unfold string_le. destruct (entry_lt a b) eqn:E.
  - apply entry_lt_spec in E. split; [done|]. intros [?|[? Hs]]; [lia|].
    destruct E as [?|[_ E]]; [lia|]. congruence.
  - split; [intros _|done].
    destruct (Z.lt_trichotomy a.1.1 b.1.1) as [H|[H|H]].
    + assert (entry_lt a b = true) by (apply entry_lt_spec; by left).
      congruence.
    + right. split; [done|]. destruct (String.ltb a.1.2 b.1.2) eqn:Hs.
      * assert (entry_lt a b = true) by (apply entry_lt_spec; by right).
        congruence.
      * done.
    + by left.
Qed.

Lemma entry_lt_irrefl (a : entry) : entry_lt a a = false.
Proof.
  apply entry_lt_false. right. split; [done|]. apply string_ltb_irrefl.
Qed.

Lemma entry_lt_asym (a b : entry) : entry_lt a b = true → entry_lt b a = false.
Proof.
  rewrite entry_lt_spec, entry_lt_false. intros [H|[H1 H2]]; [by left|].
  right. split; [done|]. by apply string_ltb_asym.
Qed.

Lemma entry_le_trans (a b c : entry) :
  entry_lt b a = false → entry_lt c b = false → entry_lt c a = false.
Proof.
  rewrite !entry_lt_false. intros [H|[H1 H2]] [H'|[H1' H2']];
    try (left; lia).
  right. split; [congruence|]. by eapply string_le_trans.
Qed.

(** ** Identifiers *)

Lemma digits_value_str_of_nat n : digits_value (str_of_nat n) = Some n.
Proof.
  unfold digits_value, str_of_nat.
  rewrite NilZero.usu.
  - simpl. by rewrite Unsigned.of_to.
  - intros H. pose proof (f_equal Nat.of_uint H) as H'.
    rewrite Unsigned.of_to in H'. simpl in H'. subst n. discriminate H.
Qed.

Lemma str_of_nat_inj n m : str_of_nat n = str_of_nat m → n = m.
Proof.
  intros H. apply (f_equal digits_value) in H.
  rewrite !digits_value_str_of_nat in H. by injection H.
Qed.

Lemma string_of_uint_digits d :
  forallb is_digit (list_ascii_of_string (NilEmpty.string_of_uint d)) = true.
Proof. induction d; simpl; done. Qed.

Lemma ascii_isdigit_str_of_nat n : ascii_isdigit (str_of_nat n) = true.
Proof.
  unfold ascii_isdigit, str_of_nat, NilZero.string_of_uint.
  destruct (Nat.to_uint n) as [|d|d|d|d|d|d|d|d|d|d]; [done|..];
    cbn [NilEmpty.string_of_uint list_ascii_of_string forallb String.eqb
         Ascii.eqb negb andb]; apply string_of_uint_digits.
Qed.

Lemma int_literal_str_of_nat n : int_literal (str_of_nat n) = Some (Z.of_nat n).
Proof.
  pose proof (digits_value_str_of_nat n) as H. revert H.
  unfold str_of_nat, NilZero.string_of_uint.
  destruct (Nat.to_uint n) as [|d|d|d|d|d|d|d|d|d|d];
    cbn [NilEmpty.string_of_uint]; unfold int_literal; by intros ->.
Qed.

(** ** An instance of the builtins *)

(** On ASCII text [ascii_strip], [ascii_lower] and [ascii_isdigit] are
    [str.strip], [str.lower] and [str.isdigit].  [int] is given on the
    signed decimal integer literals and [float] on those and on "nan", "inf"
    and "-inf", which they read as Python does; Python accepts further
    spellings (a fraction, an exponent, surrounding blanks, upper case) that
    this instance rejects, and none of them is used below. *)
Definition sample_builtins : Builtins := {|
  str_strip := ascii_strip;
  str_lower := ascii_lower;
  str_isdigit := ascii_isdigit;
  float_of_str := float_literal;
  int_of_str := int_literal;
  isdigit_str_of_nat := ascii_isdigit_str_of_nat;
  int_of_str_of_nat := int_literal_str_of_nat
|}.

(** ** Dictionaries keyed by strings *)

Lemma string_eqb_true a b : String.eqb a b = true ↔ a = b.
Proof. apply String.eqb_eq. Qed.

Lemma dict_get_None {V} (d : list (string * V)) k :
  dict_get String.eqb d k = None ↔ k ∉ d.*1.
Proof.
  induction d as [|[k' v] d IH]; simpl.
  - split; [intros _|done]. apply not_elem_of_nil.
  - rewrite not_elem_of_cons. destruct (String.eqb k' k) eqn:E.
    + apply String.eqb_eq in E. split; [done|]. intros [H _]. congruence.
    + apply String.eqb_neq in E. rewrite IH. split; [|tauto].
      intros H. split; [congruence|done].
Qed.

Lemma dict_get_Some_elem {V} (d : list (string * V)) k v :
  dict_get String.eqb d k = Some v → (k, v) ∈ d.
Proof.
  induction d as [|[k' v'] d IH]; simpl; [done|].
  destruct (String.eqb k' k) eqn:E.
  - apply String.eqb_eq in E. intros [= ->]. subst. by left.
  - intros H. right. by apply IH.
Qed.

Lemma dict_get_elem {V} (d : list (string * V)) k v :
  NoDup d.*1 → (k, v) ∈ d → dict_get String.eqb d k = Some v.
Proof.
  induction d as [|[k' v'] d IH]; simpl.
  - intros _ H. by apply elem_of_nil in H.
  - rewrite NoDup_cons. intros [Hk Hd] H.
    apply elem_of_cons in H as [[= <- <-]|H].
    + by rewrite String.eqb_refl.
    + destruct (String.eqb k' k) eqn:E; [|by apply IH].
      apply String.eqb_eq in E. subst. exfalso. apply Hk.
      apply list_elem_of_fmap. by exists (k, v).
Qed.

Lemma dict_set_fresh {V} (d : list (string * V)) k v :
  k ∉ d.*1 → dict_set String.eqb d k v = d ++ [(k, v)].
Proof.
  induction d as [|[k' v'] d IH]; simpl; [done|].
  rewrite not_elem_of_cons. intros [Hne Hk].
  destruct (String.eqb k' k) eqn:E.
  - apply String.eqb_eq in E. congruence.
  - by rewrite IH.
Qed.

Lemma dict_update_fresh {V} (d o : list (string * V)) :
  NoDup (d ++ o).*1 → dict_update String.eqb d o = d ++ o.
Proof.
  revert d. induction o as [|[k v] o IH]; intros d Hd.
  - by rewrite app_nil_r.
  - unfold dict_update in *. simpl. rewrite dict_set_fresh.
    + rewrite IH; by rewrite <- app_assoc.
    + rewrite fmap_app in Hd. apply NoDup_app in Hd as (_ & Hd & _).
      intros Hk. apply (Hd k Hk). rewrite fmap_cons. by left.
Qed.

(** ** The invariant of the engine *)

(** A dict that holds each record under the record's own id. *)
Definition dict_wf {V} (ident : V → string) (d : list (string * V)) : Prop :=
  NoDup d.*1 ∧ Forall (λ kv, ident kv.2 = kv.1) d.

(** A heap entry [(-urgency, id, req)] agrees with the object it points to. *)
Definition entry_ok (objs : list (FundingRequest string)) (e : entry) : Prop :=
  e.2 < length objs
  ∧ e.1.1 = (- urgency (objs !!! e.2))%Z
  ∧ e.1.2 = req_id (objs !!! e.2).

Record Inv (s : State) : Prop := mkInv {
  (** [requests_map] lists every object under its own id, in creation order *)
  inv_map :
    requests_map s = zip (req_id <$> objs s) (seq 0 (length (objs s)));
  (** the ids are unique *)
  inv_ids : NoDup (req_id <$> objs s);
  (** the ids from the counter on are unused *)
  inv_fresh :
    ∀ n, req_counter s ≤ n → "R" +:+ str_of_nat n ∉ req_id <$> objs s;
  inv_heap_ordered : heap_ordered entry_lt (heap s);
  inv_heap_entries : Forall (entry_ok (objs s)) (heap s);
  inv_bst : bst_ok (objs s) (root (bst s));
  (** the tree holds every object once *)
  inv_bst_all : flatten (root (bst s)) ≡ₚ seq 0 (length (objs s));
  inv_queue : Forall (λ a, a < length (objs s)) (approved_q s);
  (** [users_map] has one entry per id of [users_set], under that id *)
  inv_users : dict_wf user_id (users_map s);
  inv_users_set : users_set s = list_to_set (users_map s).*1
}.

Lemma requests_map_lookup s k a :
  Inv s → dict_get String.eqb (requests_map s) k = Some a →
  a < length (objs s) ∧ req_id (objs s !!! a) = k.
Proof.
  intros HI Hget. apply dict_get_Some_elem in Hget.
  rewrite (inv_map s HI) in Hget.
  apply list_elem_of_lookup in Hget as [i Hi].
  apply lookup_zip_with_Some in Hi as (k' & a' & [= <- <-] & Hk & Ha).
  apply lookup_seq in Ha as [-> Hlt]. simpl. split; [done|].
  rewrite list_lookup_fmap in Hk.
  destruct (objs s !! i) as [r|] eqn:E; [|done]. injection Hk as <-.
  by rewrite (list_lookup_total_correct _ _ _ E).
Qed.

Lemma requests_map_keys s :
  Inv s → (requests_map s).*1 = req_id <$> objs s.
Proof.
  intros HI. rewrite (inv_map s HI). apply fst_zip.
  rewrite length_fmap, length_seq. done.
Qed.

Lemma set_status_length objs a st : length (set_status objs a st) = length objs.
Proof. apply length_alter. Qed.

Lemma set_status_lookup objs a st b :
  set_status objs a st !!! b =
  if decide (a = b ∧ a < length objs)
  then with_status (objs !!! a) st else objs !!! b.
Proof. unfold set_status. by rewrite list_lookup_total_alter. Qed.

Lemma set_status_req_id objs a st b :
  req_id (set_status objs a st !!! b) = req_id (objs !!! b).
Proof. rewrite set_status_lookup. by case_decide as H; [destruct H as [-> _]|]. Qed.

Lemma set_status_amount objs a st b :
  amount (set_status objs a st !!! b) = amount (objs !!! b).
Proof. rewrite set_status_lookup. by case_decide as H; [destruct H as [-> _]|]. Qed.

Lemma set_status_urgency objs a st b :
  urgency (set_status objs a st !!! b) = urgency (objs !!! b).
Proof. rewrite set_status_lookup. by case_decide as H; [destruct H as [-> _]|]. Qed.

Lemma set_status_ids objs a st :
  req_id <$> set_status objs a st = req_id <$> objs.
Proof.
  unfold set_status. rewrite (list_fmap_alter req_id _ id).
  - apply list_eq. intros i. rewrite list_lookup_alter.
    case_decide; [subst|done]. by destruct (_ !! _).
  - by apply Forall_forall.
Qed.

Lemma entry_ok_set_status objs a st e :
  entry_ok objs e → entry_ok (set_status objs a st) e.
Proof.
  unfold entry_ok.
  by rewrite set_status_length, set_status_urgency, set_status_req_id.
Qed.

Lemma entry_ok_app objs r e : entry_ok objs e → entry_ok (objs ++ [r]) e.
Proof.
  unfold entry_ok. intros (Hlt & Hu & Hi).
  rewrite length_app, lookup_total_app_l by done. simpl.
  split_and!; [lia|done|done].
Qed.

(** The invariant reads neither the users nor the file. *)
Lemma Inv_same s s' :
  objs s' = objs s → requests_map s' = requests_map s → bst s' = bst s →
  heap s' = heap s → approved_q s' = approved_q s →
  req_counter s' = req_counter s →
  (dict_wf user_id (users_map s) → dict_wf user_id (users_map s')) →
  (users_set s = list_to_set (users_map s).*1 →
   users_set s' = list_to_set (users_map s').*1) →
  Inv s → Inv s'.
Proof.
  intros Ho Hm Hb Hh Hq Hc Hu Hus [].
  constructor; rewrite ?Ho, ?Hm, ?Hb, ?Hh, ?Hq, ?Hc; auto.
Qed.

Lemma Inv_persist s : Inv s → Inv (persist s).
Proof. by apply (Inv_same s). Qed.

Lemma Inv_add_user s uid name role :
  uid ∉ users_set s → Inv s → Inv (add_user s uid name role).
Proof.
  intros Hnew HI. pose proof (inv_users_set s HI) as Hset.
  assert (uid ∉ (users_map s).*1) as Hk.
  { rewrite Hset in Hnew. by rewrite elem_of_list_to_set in Hnew. }
  apply (Inv_same s); simpl; try done.
  - rewrite dict_set_fresh by done. intros [Hnd Hid]. split.
    + rewrite fmap_app. apply NoDup_app. split_and!; [done| |].
      * intros x Hx Hx'. apply list_elem_of_singleton in Hx'. by subst.
      * apply NoDup_singleton.
    + apply Forall_app. split; [done|]. by constructor.
  - rewrite dict_set_fresh by done.
    intros ->. rewrite fmap_app, list_to_set_app_L. simpl.
    rewrite union_empty_r_L. apply union_comm_L.
Qed.

Lemma Inv_empty d : Inv (empty_state d).
Proof.
  constructor; simpl; try done; try by constructor.
  - intros n _. apply not_elem_of_nil.
  - split; constructor.
Qed.

Lemma Inv_set_status s s' a st :
  objs s' = set_status (objs s) a st →
  requests_map s' = requests_map s → bst s' = bst s → heap s' = heap s →
  Forall (λ a, a < length (objs s)) (approved_q s') →
  req_counter s' = req_counter s →
  users_map s' = users_map s → users_set s' = users_set s →
  Inv s → Inv s'.
Proof.
  intros Ho Hm Hb Hh Hq Hc Hu Hus [].
  constructor; rewrite ?Ho, ?Hm, ?Hb, ?Hh, ?Hc, ?Hu, ?Hus, ?set_status_ids,
    ?set_status_length; try done.
  - eapply Forall_impl; [done|]. intros e. apply entry_ok_set_status.
  - eapply bst_ok_ext; [|done]. intros b _. apply set_status_amount.
Qed.

Lemma Inv_approve s a : a < length (objs s) → Inv s → Inv (approve s a).
Proof.
  intros Ha HI. eapply Inv_set_status; try done. simpl.
  apply Forall_app. split; [by destruct HI|by constructor].
Qed.

Lemma Inv_reject s a : Inv s → Inv (reject s a).
Proof. intros HI. eapply Inv_set_status; try done. by destruct HI. Qed.

Lemma Inv_fund s a rid : Inv s → Inv (fund s a rid).
Proof.
  intros HI. eapply Inv_set_status; try done. simpl.
  unfold without_id. apply Forall_forall. intros x Hx.
  apply list_elem_of_filter in Hx as [_ Hx].
  destruct HI as [_ _ _ _ _ _ _ Hq]. rewrite Forall_forall in Hq. by apply Hq.
Qed.

Lemma push_heap_ok objs h a :
  a < length objs → heap_ordered entry_lt h → Forall (entry_ok objs) h →
  heap_ordered entry_lt (push_heap objs h a)
  ∧ Forall (entry_ok objs) (push_heap objs h a)
  ∧ (push_heap objs h a).*2 ≡ₚ a :: h.*2.
Proof.
  intros Ha Hh Hf. unfold push_heap.
  destruct (heappush_spec entry_lt entry_lt_irrefl entry_lt_asym
              entry_le_trans h
              ((- urgency (objs !!! a))%Z, req_id (objs !!! a), a) Hh)
    as [Ho Hp].
  split_and!; [done|..].
  - rewrite Hp. by constructor.
  - by rewrite Hp.
Qed.

Lemma pop_heap_spec h :
  heap_ordered entry_lt h →
  match pop_heap h with
  | (None, h') => h = [] ∧ h' = []
  | (Some a, h') =>
      ∃ e, e.2 = a ∧ h ≡ₚ e :: h' ∧ heap_ordered entry_lt h'
           ∧ ∀ e', e' ∈ h → entry_lt e' e = false
  end.
Proof.
  intros Hh. unfold pop_heap. destruct h as [|[[nu i] a] h0]; [done|].
  destruct (heappop_spec entry_lt entry_lt_irrefl entry_lt_asym
              entry_le_trans _ Hh) as (h' & Hpop & Ho & Hp); [done|].
  rewrite Hpop. change (((nu, i, a) :: h0) !!! 0) with (nu, i, a) in *.
  exists (nu, i, a). split_and!; try done. intros e' He'.
  exact (heappop_least entry_lt entry_lt_irrefl entry_lt_asym entry_le_trans
           _ _ _ _ Hh Hpop He').
Qed.

Lemma insert_ok objs b a :
  bst_ok objs (root b) → flatten (root b) ≡ₚ seq 0 a →
  bst_ok objs (root (insert objs b a))
  ∧ flatten (root (insert objs b a)) ≡ₚ seq 0 (S a).
Proof.
  intros Hb Hp. unfold insert. cbn [root]. split.
  - apply bst_ok_insert; [done|]. rewrite Hp. apply Forall_forall.
    intros x Hx. apply elem_of_seq in Hx. lia.
  - rewrite flatten_insert, Hp, seq_S. cbn [Nat.add].
    by rewrite <- Permutation_cons_append.
Qed.

Lemma Inv_pop s o h :
  Inv s → pop_heap (heap s) = (o, h) →
  Inv (with_heap s h) ∧ ∀ a, o = Some a → a < length (objs s).
Proof.
  intros HI Hpop. pose proof (pop_heap_spec (heap s) (inv_heap_ordered s HI)) as Hs.
  rewrite Hpop in Hs. destruct o as [a|].
  - destruct Hs as (e & He & Hp & Ho & _).
    pose proof (inv_heap_entries s HI) as Hf. rewrite Hp in Hf.
    apply Forall_cons in Hf as [[Hlt _] Hf]. split.
    + destruct HI. by constructor.
    + intros ? [= <-]. by rewrite <- He.
  - destruct Hs as [_ ->]. split; [|done].
    destruct HI. constructor; simpl; done.
Qed.

Lemma Inv_create_request s sid amt urg :
  Inv s → Inv (create_request s sid amt urg).2.
Proof.
  intros HI. unfold create_request. simpl.
  set (rid := String "R" (str_of_nat (req_counter s))).
  set (new := mkReq rid sid amt urg "submitted").
  assert (rid ∉ req_id <$> objs s) as Hfresh
    by (by apply (inv_fresh s HI)).
  assert (length (objs s) < length (objs s ++ [new])) as Hlen
    by (rewrite length_app; simpl; lia).
  destruct (push_heap_ok (objs s ++ [new]) (heap s) (length (objs s)))
    as (Ho & He & _); [done|by apply (inv_heap_ordered s HI)|..].
  { eapply Forall_impl; [apply (inv_heap_entries s HI)|].
    intros e. apply entry_ok_app. }
  destruct (insert_ok (objs s ++ [new]) (bst s) (length (objs s)))
    as [Hb Hbp]; [|by apply (inv_bst_all s HI)|].
  { eapply bst_ok_ext; [|apply (inv_bst s HI)]. intros a Ha.
    rewrite (inv_bst_all s HI) in Ha. apply elem_of_seq in Ha.
    by rewrite lookup_total_app_l by lia. }
  constructor; simpl; try done; try apply HI.
  - rewrite dict_set_fresh by (by rewrite requests_map_keys).
    rewrite (inv_map s HI), fmap_app, length_app, Nat.add_1_r, seq_S.
    rewrite zip_with_app by (by rewrite length_fmap, length_seq). done.
  - rewrite fmap_app. apply NoDup_app. split_and!.
    + by apply (inv_ids s HI).
    + intros x Hx Hx'. apply list_elem_of_singleton in Hx'. by subst.
    + apply NoDup_singleton.
  - intros n Hn. rewrite fmap_app, elem_of_app. intros [Hin|Hin].
    + apply (inv_fresh s HI n); [lia|done].
    + apply list_elem_of_singleton in Hin. injection Hin as Hin.
      apply str_of_nat_inj in Hin. lia.
  - by rewrite length_app, Nat.add_1_r.
  - eapply Forall_impl; [apply (inv_queue s HI)|]. simpl.
    intros x Hx. rewrite length_app. lia.
Qed.

(** *** Every handler of app.py keeps the invariant *)

Section WebInv.
Context {builtins : Builtins}.

Lemma Inv_web_register s form : Inv s → Inv (Web.register s form).1.1.
Proof.
  intros HI. unfold Web.register.
  destruct (_ || _); [done|]. case_bool_decide; [done|].
  by apply Inv_persist, Inv_add_user.
Qed.

Lemma Inv_web_submit s form : Inv s → Inv (Web.submit s form).1.1.
Proof.
  intros HI. unfold Web.submit.
  destruct (negb _); [done|].
  destruct (float_of_str _) as [amt|]; [|done].
  destruct (int_of_str _) as [urg|]; [|done].
  pose proof (Inv_create_request s
                (str_strip (Web.form_get form "student_id" "")) amt urg HI).
  destruct (create_request _ _ _ _) as [rid s']. by apply Inv_persist.
Qed.

Lemma Inv_web_admin_review s form : Inv s → Inv (Web.admin_review s form).1.1.
Proof.
  intros HI. unfold Web.admin_review.
  destruct (negb _); [done|].
  destruct (pop_heap (heap s)) as [[req|] h] eqn:Hpop; [|done].
  by destruct (Inv_pop s _ _ HI Hpop).
Qed.

Lemma Inv_web_admin_decide s form : Inv s → Inv (Web.admin_decide s form).1.1.
Proof.
  intros HI. unfold Web.admin_decide.
  destruct (dict_get _ _ _) as [req|] eqn:Hget; [|done].
  destruct (requests_map_lookup s _ _ HI Hget) as [Hlt _].
  destruct (String.eqb _ "approve"); simpl.
  - by apply Inv_persist, Inv_approve.
  - by apply Inv_persist, Inv_reject.
Qed.

Lemma Inv_web_donate s form : Inv s → Inv (Web.donate s form).1.1.
Proof.
  intros HI. unfold Web.donate.
  destruct (float_of_str _) as [amt|]; [|done].
  destruct (negb _); [done|].
  destruct (dict_get _ _ _) as [req|]; [|done].
  destruct (negb _); [done|].
  destruct (float_ge _ _); simpl.
  - by apply Inv_persist, Inv_fund.
  - by apply Inv_persist.
Qed.

End WebInv.

(** *** Every turn of the loop of main.py keeps the invariant *)

Definition world_of {A} (o : Cli.Outcome A) : Cli.World :=
  match o with
  | Cli.Return _ w => w
  | Cli.EOFError w => w
  | Cli.SystemExit w => w
  end.

(** What a computation of the command-line monad guarantees about the
    engine, whichever way it ends. *)
Definition keeps {A} (P : State → Prop) (m : Cli.M A) : Prop :=
  ∀ w, P (Cli.engine w) → P (Cli.engine (world_of (m w))).

Section CliInv.
Context {builtins : Builtins}.

Lemma keeps_bind {A B} P (m : Cli.M A) (k : A → Cli.M B) :
  keeps P m → (∀ a, keeps P (k a)) → keeps P (m ≫= k).
Proof.
  intros Hm Hk w Hw. unfold mbind, Cli.M_bind, Cli.bind.
  specialize (Hm w Hw). destruct (m w) as [a w'| |]; simpl in *; try done.
  by apply Hk.
Qed.

Lemma keeps_input P : keeps P Cli.input_nonempty.
Proof.
  intros w Hw. unfold Cli.input_nonempty.
  by destruct (Cli.read_nonempty _) as [[v rest]|].
Qed.

Lemma keeps_print P p : keeps P (Cli.print p).
Proof. by intros w Hw. Qed.

Lemma keeps_ret {A} P (a : A) : keeps P (Cli.ret a).
Proof. by intros w Hw. Qed.

Lemma keeps_put (P : State → Prop) s : P s → keeps P (Cli.put s).
Proof. by intros Hs w Hw. Qed.

(** After [get] the continuation may use that its argument satisfies [P]. *)
Lemma keeps_get {B} (P : State → Prop) (k : State → Cli.M B) :
  (∀ s, P s → keeps P (k s)) → keeps P (Cli.get ≫= k).
Proof.
  intros Hk w Hw. unfold mbind, Cli.M_bind, Cli.bind, Cli.get.
  by apply Hk.
Qed.

End CliInv.

Ltac keeps_step :=
  lazymatch goal with
  | |- keeps _ (Cli.get ≫= _) => apply keeps_get; intros ? ?
  | |- keeps _ (_ ≫= _) => apply keeps_bind; [|intros ?]
  | |- keeps _ Cli.input_nonempty => apply keeps_input
  | |- keeps _ (Cli.print _) => apply keeps_print
  | |- keeps _ Cli.continue => apply keeps_ret
  | |- keeps _ (Cli.ret _) => apply keeps_ret
  | |- keeps _ (Cli.put _) => apply keeps_put
  | |- keeps _ (if ?b then _ else _) => destruct b eqn:?
  | |- keeps _ (match ?x with _ => _ end) => destruct x eqn:?
  | |- keeps _ (let _ := _ in _) => cbv zeta
  end.

(** The facts about the states met on the way, then the atomic steps. *)
Ltac inv_facts :=
  repeat match goal with
  | H : pop_heap (heap ?s) = (Some ?r, ?h), HI : Inv ?s |- _ =>
      let H1 := fresh in let H2 := fresh in
      destruct (Inv_pop s _ _ HI H) as [H1 H2];
      specialize (H2 r eq_refl); clear H
  | H : create_request ?s ?a ?b ?c = (_, _), HI : Inv ?s |- _ =>
      let X := fresh in
      pose proof (Inv_create_request s a b c HI) as X;
      rewrite H in X; simpl in X; clear H
  end.

Ltac inv_solve :=
  inv_facts;
  repeat first [ assumption | apply Inv_persist
               | apply Inv_add_user;
                 [eapply bool_decide_eq_false_1; eassumption|]
               | apply Inv_reject | apply Inv_fund
               | apply Inv_approve; [simpl; assumption|] ].

Section CliChoices.
Context {builtins : Builtins}.

Lemma Inv_choice_1 : keeps Inv Cli.choice_1.
Proof. unfold Cli.choice_1. repeat keeps_step; inv_solve. Qed.

Lemma Inv_choice_2 : keeps Inv Cli.choice_2.
Proof. unfold Cli.choice_2. repeat keeps_step; inv_solve. Qed.

Lemma Inv_choice_3 : keeps Inv Cli.choice_3.
Proof. unfold Cli.choice_3. repeat keeps_step; inv_solve. Qed.

Lemma Inv_choice_4 : keeps Inv Cli.choice_4.
Proof. unfold Cli.choice_4. repeat keeps_step; inv_solve. Qed.

Lemma Inv_choice_5 : keeps Inv Cli.choice_5.
Proof. unfold Cli.choice_5. repeat keeps_step; inv_solve. Qed.

Lemma Inv_menu : keeps Inv Cli.menu.
Proof.
  unfold Cli.menu.
  repeat first [ apply Inv_choice_1 | apply Inv_choice_2 | apply Inv_choice_3
               | apply Inv_choice_4 | apply Inv_choice_5 | keeps_step ].
  by intros w Hw.
Qed.

End CliChoices.

(** *** Start-up establishes the invariant *)

(** [load_state] builds dicts with unique keys, each record stored under
    its own id. *)
Abbreviation users_wf := (dict_wf (V := User string) user_id).
Abbreviation requests_wf := (dict_wf (V := FundingRequest string) req_id).

Definition is_submitted (objs : list (FundingRequest string)) (a : ref) : Prop :=
  status (objs !!! a) = "submitted".

Definition is_approved (objs : list (FundingRequest string)) (a : ref) : Prop :=
  status (objs !!! a) = "approved".

Global Instance is_submitted_dec objs a : Decision (is_submitted objs a).
Proof. unfold is_submitted. apply _. Defined.

Global Instance is_approved_dec objs a : Decision (is_approved objs a).
Proof. unfold is_approved. apply _. Defined.


Section Counter.
Context {builtins : Builtins}.

Lemma max_suffix_ge m rid m' : max_suffix m rid = Ok m' → (m ≤ m')%Z.
Proof.
  unfold max_suffix. destruct rid as [|c rest]; [intros [= <-]; lia|].
  destruct c as [[] [] [] [] [] [] [] []]; try (intros [= <-]; lia).
  destruct (str_isdigit rest); [|intros [= <-]; lia].
  destruct (int_of_str rest) as [n|]; [|done].
  intros [= <-]. destruct (Z.ltb_spec m n); lia.
Qed.

Lemma max_suffix_R m n :
  max_suffix m ("R" +:+ str_of_nat n) = Ok (Z.max m (Z.of_nat n)).
Proof.
  change ("R" +:+ str_of_nat n) with (String "R" (str_of_nat n)).
  unfold max_suffix. cbv beta iota.
  rewrite isdigit_str_of_nat, int_of_str_of_nat. f_equal.
  destruct (Z.ltb_spec m (Z.of_nat n)); lia.
Qed.

Lemma fold_max_suffix keys m m' :
  for_each keys m max_suffix = Ok m' →
  (m ≤ m')%Z ∧ ∀ n, "R" +:+ str_of_nat n ∈ keys → (Z.of_nat n ≤ m')%Z.
Proof.
  revert m. induction keys as [|k keys IH]; intros m; simpl.
  - intros [= <-]. split; [lia|]. intros n Hn. by apply elem_of_nil in Hn.
  - unfold mbind, result_bind, rbind.
    destruct (max_suffix m k) as [m1|] eqn:E; [|done]. intros Hm'.
    destruct (IH m1 Hm') as [H1 H2].
    pose proof (max_suffix_ge m k m1 E). split; [lia|].
    intros n Hn. apply elem_of_cons in Hn as [<-|Hn]; [|by apply H2].
    rewrite max_suffix_R in E. injection E as <-. lia.
Qed.

Lemma next_counter_fresh keys c n :
  next_counter keys = Ok c → c ≤ n → "R" +:+ str_of_nat n ∉ keys.
Proof.
  unfold next_counter. destruct keys as [|k keys].
  - intros _ _. apply not_elem_of_nil.
  - unfold mbind, result_bind, rbind.
    destruct (for_each (k :: keys) 0%Z max_suffix) as [m|] eqn:E; [|done].
    intros [= <-] Hn Hin. destruct (fold_max_suffix _ _ _ E) as [_ H].
    specialize (H n Hin). lia.
Qed.


End Counter.

Lemma imap_keys_zip {V} (rs : list (string * V)) :
  imap (λ a kv, (kv.1, a)) rs = zip rs.*1 (seq 0 (length rs)).
Proof.
  apply list_eq. intros i.
  rewrite list_lookup_imap, lookup_zip_with, list_lookup_fmap.
  destruct (rs !! i) as [kv|] eqn:E; simpl; [|done].
  apply lookup_lt_Some in E. by rewrite lookup_seq_lt.
Qed.

(** The state of the loop [for r in requests_map.values()] after the first
    [k] objects. *)
Definition reindexed (objs : list (FundingRequest string)) (k : nat)
    (acc : RequestBST * list entry * list ref) : Prop :=
  bst_ok objs (root acc.1.1)
  ∧ flatten (root acc.1.1) ≡ₚ seq 0 k
  ∧ heap_ordered entry_lt acc.1.2
  ∧ Forall (entry_ok objs) acc.1.2
  ∧ acc.1.2.*2 ≡ₚ filter (is_submitted objs) (seq 0 k)
  ∧ acc.2 = filter (is_approved objs) (seq 0 k).

Lemma reindex_all objs k :
  k ≤ length objs →
  reindexed objs k
    (fold_left (reindex objs) (seq 0 k) (mkBST NoNode, [], make_queue)).
Proof.
  induction k as [|k IH]; intros Hk.
  - simpl. unfold reindexed. simpl. split_and!; done.
  - rewrite seq_S, fold_left_app. cbn [Nat.add fold_left].
    destruct (fold_left _ _ _) as [[b h] q].
    destruct IH as (Hb & Hbp & Ho & He & Hs & Hq); [lia|]. simpl in *.
    destruct (insert_ok objs b k Hb Hbp) as [Hb' Hbp'].
    unfold reindexed, reindex. rewrite (seq_S k 0) in *. cbn [Nat.add] in *.
    rewrite !filter_app, !filter_cons, !filter_nil.
    destruct (String.eqb _ "submitted") eqn:E1.
    + apply String.eqb_eq in E1.
      destruct (push_heap_ok objs h k) as (Ho' & He' & Hp'); [lia|done..|].
      rewrite decide_True by done. simpl. split_and!; try done.
      * rewrite Hp', Hs. apply Permutation_cons_append.
      * rewrite decide_False; [by rewrite app_nil_r|].
        unfold is_approved. by rewrite E1.
    + apply String.eqb_neq in E1. rewrite decide_False by done.
      rewrite app_nil_r.
      destruct (String.eqb _ "approved") eqn:E2.
      * apply String.eqb_eq in E2. rewrite decide_True by done.
        simpl. split_and!; try done. unfold enqueue. by rewrite Hq.
      * apply String.eqb_neq in E2. rewrite decide_False by done.
        simpl. split_and!; try done. by rewrite app_nil_r.
Qed.

Section Boot.
Context {builtins : Builtins}.

Lemma boot_fields us rs d s :
  users_wf us → requests_wf rs → boot us rs d = Ok s →
  objs s = rs.*2
  ∧ requests_map s = zip rs.*1 (seq 0 (length rs))
  ∧ next_counter rs.*1 = Ok (req_counter s)
  ∧ reindexed rs.*2 (length rs) (bst s, heap s, approved_q s)
  ∧ users_map s = us
  ∧ users_set s = list_to_set us.*1
  ∧ disk s = d.
Proof.
  intros [Hund Huid] [Hnd Hid]. unfold boot.
  assert (dict_update String.eqb [] (imap (λ a kv, (kv.1, a)) rs)
          = zip rs.*1 (seq 0 (length rs))) as Hm.
  { rewrite dict_update_fresh; simpl; rewrite imap_keys_zip; [done|].
    rewrite fst_zip; [done|]. by rewrite length_fmap, length_seq. }
  rewrite Hm. unfold dict_values, dict_keys.
  rewrite snd_zip by (by rewrite length_fmap, length_seq).
  rewrite fst_zip by (by rewrite length_fmap, length_seq).
  rewrite dict_update_fresh by done.
  pose proof (reindex_all rs.*2 (length rs)) as Hre.
  rewrite length_fmap in Hre. specialize (Hre (le_n _)).
  destruct (fold_left _ _ _) as [[b h] q].
  unfold mbind, result_bind, rbind.
  destruct (next_counter rs.*1) as [c|]; [|done]. by intros [= <-].
Qed.


End Boot.

Lemma dict_wf_ids {V} (ident : V → string) (d : list (string * V)) :
  dict_wf ident d → ident <$> d.*2 = d.*1.
Proof.
  intros [_ Hid]. induction Hid as [|[k r] rs Hkr _ IH]; [done|].
  rewrite !fmap_cons, IH. cbn [fst snd] in *. by rewrite Hkr.
Qed.

Lemma Inv_boot {builtins : Builtins} us rs d s :
  users_wf us → requests_wf rs → boot us rs d = Ok s → Inv s.
Proof.
  intros Hu Hwf Hboot.
  destruct (boot_fields us rs d s Hu Hwf Hboot)
    as (Ho & Hm & Hc & Hre & Hum & Hus & _).
  pose proof (dict_wf_ids _ _ Hwf) as Hids. destruct Hwf as [Hnd Hid].
  destruct Hre as (Hb & Hbp & Hho & He & Hs & Hq). simpl in *.
  constructor;
    rewrite ?Ho, ?Hm, ?Hum, ?Hus, ?length_fmap, ?Hids; try done.
  - intros n. by apply next_counter_fresh.
  - rewrite Hq. apply Forall_forall. intros a Ha.
    apply list_elem_of_filter in Ha as [_ Ha]. apply elem_of_seq in Ha. lia.
Qed.

(** *** What load_state returns *)

Lemma for_each_inv {A St} (P : St → Prop) (body : St → A → result St) l acc r :
  (∀ acc x acc', P acc → body acc x = Ok acc' → P acc') →
  P acc → for_each l acc body = Ok r → P r.
Proof.
  intros Hbody. revert acc. induction l as [|x l IH]; intros acc Hacc; simpl.
  - by intros [= <-].
  - unfold mbind, result_bind, rbind.
    destruct (body acc x) as [acc'|e] eqn:E; [|done].
    apply IH. by eapply Hbody.
Qed.

(** The string keys of a loaded dict. *)
Definition str_keys {V} (d : list (json * V)) : list string :=
  omap as_str d.*1.

(** The entries of a loaded dict that sit under string keys: the keys are
    pairwise different and each record carries its key as id. *)
Definition loaded_wf {V} (ident : V → json) (d : list (json * V)) : Prop :=
  NoDup (str_keys d) ∧ (∀ k v, (JStr k, v) ∈ d → ident v = JStr k).

Lemma key_eqb_str_l k x : key_eqb (JStr k) x = true → x = JStr k.
Proof.
  destruct x; simpl; try done. intros H. apply String.eqb_eq in H. by subst.
Qed.

Lemma dict_set_keys {V} (d : list (json * V)) k v :
  (dict_set key_eqb d k v).*1 = d.*1
  ∨ ((dict_set key_eqb d k v).*1 = d.*1 ++ [k]
     ∧ ∀ k', k' ∈ d.*1 → key_eqb k' k = false).
Proof.
  induction d as [|[k' v'] d IH]; simpl.
  - right. split; [done|]. intros k' Hk'. by apply elem_of_nil in Hk'.
  - destruct (key_eqb k' k) eqn:E; rewrite !fmap_cons; cbn [fst]; [by left|].
    destruct IH as [IH|[IH Hno]]; rewrite IH; [by left|right]. split; [done|].
    intros k0 Hk0. apply elem_of_cons in Hk0 as [->|Hk0]; [done|by apply Hno].
Qed.

Lemma dict_set_entries {V} (d : list (json * V)) k v k0 v0 :
  (k0, v0) ∈ dict_set key_eqb d k v →
  (k0, v0) ∈ d ∨ (v0 = v ∧ (k0 = k ∨ key_eqb k0 k = true)).
Proof.
  induction d as [|[k' v'] d IH]; simpl.
  - intros H. apply list_elem_of_singleton in H as [= -> ->]. right. by auto.
  - destruct (key_eqb k' k) eqn:E; rewrite !elem_of_cons.
    + intros [[= -> ->]|H]; [right; by auto|left; by right].
    + intros [[= -> ->]|H]; [left; by left|].
      destruct (IH H) as [?|?]; [left; by right|by right].
Qed.

Lemma dict_set_loaded_wf {V} (ident : V → json) (d : list (json * V)) k v :
  ident v = k → loaded_wf ident d → loaded_wf ident (dict_set key_eqb d k v).
Proof.
  intros Hid [Hnd Hi]. split.
  - unfold str_keys in *. destruct (dict_set_keys d k v) as [->|[-> Hno]];
      [done|].
    rewrite omap_app. apply NoDup_app. split_and!; [done| |].
    + intros x Hx Hx'. destruct k; simpl in Hx'; try by apply elem_of_nil in Hx'.
      apply list_elem_of_singleton in Hx'. subst x.
      apply list_elem_of_omap in Hx as (k' & Hk' & Hs).
      destruct k'; try done. injection Hs as ->.
      specialize (Hno _ Hk'). simpl in Hno. by rewrite String.eqb_refl in Hno.
    + destruct k; simpl; try apply NoDup_nil_2. apply NoDup_singleton.
  - intros k0 v0 H. apply dict_set_entries in H as [H|[-> [H|H]]].
    + by apply Hi.
    + congruence.
    + apply key_eqb_str_l in H. congruence.
Qed.

Section LoadFacts.
Context {builtins : Builtins}.

Lemma load_request_wf d r d' :
  loaded_wf req_id d → load_request d r = Ok d' → loaded_wf req_id d'.
Proof.
  intros Hwf. unfold load_request, mbind, result_bind, rbind, py_setitem.
  destruct (py_getitem r "id") as [rid|]; [|done].
  destruct (py_get r "student_id" _) as [sid|]; [|done].
  destruct (py_get r "status" _) as [st|]; [|done].
  destruct (hashable rid); [|done]. intros [= <-].
  by apply dict_set_loaded_wf.
Qed.

Lemma load_user_wf d u d' :
  loaded_wf user_id d → load_user d u = Ok d' → loaded_wf user_id d'.
Proof.
  intros Hwf. unfold load_user, mbind, result_bind, rbind, py_setitem.
  destruct (py_getitem u "id") as [uid|]; [|done].
  destruct (py_get u "name" _) as [name|]; [|done].
  destruct (py_get u "role" _) as [role|]; [|done].
  destruct (hashable uid); [|done]. intros [= <-].
  by apply dict_set_loaded_wf.
Qed.

Lemma loaded_wf_nil {V} (ident : V → json) : loaded_wf ident [].
Proof.
  split; [apply NoDup_nil_2|]. intros k v Hin. by apply elem_of_nil in Hin.
Qed.

Lemma load_state_wf d us rs :
  load_state d = Ok (us, rs) → loaded_wf user_id us ∧ loaded_wf req_id rs.
Proof.
  unfold load_state. destruct d as [| |payload];
    try (intros [= <- <-]; split; apply loaded_wf_nil).
  unfold mbind, result_bind, rbind.
  destruct (py_get payload "users" _) as [u|]; [|done].
  destruct (py_iter u) as [ul|]; [|done].
  destruct (for_each ul _ _) as [um|] eqn:Eu; [|done].
  destruct (py_get payload "requests" _) as [r|]; [|done].
  destruct (py_iter r) as [rl|]; [|done].
  destruct (for_each rl _ _) as [rm|] eqn:E; [|done]. intros [= <- <-].
  split.
  - eapply (for_each_inv (loaded_wf user_id)); [|apply loaded_wf_nil|exact Eu].
    intros acc x acc' Hacc. by apply load_user_wf.
  - eapply (for_each_inv (loaded_wf req_id)); [|apply loaded_wf_nil|exact E].
    intros acc x acc' Hacc. by apply load_request_wf.
Qed.

End LoadFacts.

Lemma typed_dict_wf {A B} (f : A → option B) (identA : A → json)
    (identB : B → string) (d : list (json * A)) d' :
  (∀ a b k, f a = Some b → identA a = JStr k → identB b = k) →
  loaded_wf identA d → typed_dict f d = Some d' → dict_wf identB d'.
Proof.
  intros Hf [Hnd Hi] Ht. unfold typed_dict in Ht. apply mapM_Some in Ht.
  assert (d'.*1 = str_keys d ∧
          Forall (λ kv, ∃ v, (JStr kv.1, v) ∈ d ∧ f v = Some kv.2) d')
    as [Hk Hall].
  { clear Hnd Hi. unfold str_keys.
    induction Ht as [|[k v] [k' v'] rs rs' Hkv _ IH]; [by split|].
    simpl in Hkv. destruct (as_str k) as [k0|] eqn:Hk0; [|done].
    simpl in Hkv. destruct (f v) as [v0|] eqn:Hv0; [|done].
    injection Hkv as <- <-. destruct IH as [IH1 IH2].
    rewrite !fmap_cons. simpl. rewrite Hk0. split; [by rewrite IH1|].
    destruct k; try done. injection Hk0 as ->. constructor.
    - exists v. split; [by left|done].
    - eapply Forall_impl; [exact IH2|]. intros kv (v1 & H1 & H2).
      exists v1. split; [by right|done]. }
  split; [by rewrite Hk|].
  eapply Forall_impl; [exact Hall|]. intros [k v'] (v & Hin & Hv). simpl in *.
  eapply Hf; [done|]. by apply Hi.
Qed.

Lemma typed_users_wf us us' :
  loaded_wf user_id us → typed_users us = Some us' → users_wf us'.
Proof.
  apply typed_dict_wf. intros a b k Hab Hk. unfold typed_user in Hab.
  rewrite Hk in Hab. simpl in Hab.
  destruct (as_str (user_name a)); [|done]. simpl in Hab.
  destruct (as_str (user_role a)); [|done]. by injection Hab as <-.
Qed.

Lemma typed_requests_wf rs rs' :
  loaded_wf req_id rs → typed_requests rs = Some rs' → requests_wf rs'.
Proof.
  apply typed_dict_wf. intros a b k Hab Hk. unfold typed_request in Hab.
  rewrite Hk in Hab. simpl in Hab.
  destruct (as_str (student_id a)); [|done]. simpl in Hab.
  destruct (as_str (status a)); [|done]. by injection Hab as <-.
Qed.

(** A start that succeeds has run [boot] on two well-formed dicts. *)
Lemma startup_boot {builtins : Builtins} d s :
  startup d = Started s →
  ∃ us rs, users_wf us ∧ requests_wf rs ∧ boot us rs d = Ok s.
Proof.
  unfold startup. destruct (load_state d) as [[us rs]|] eqn:E; [|done].
  destruct (load_state_wf _ _ _ E) as [Hu Hr].
  destruct (typed_users us) as [us'|] eqn:Htu; [|done].
  destruct (typed_requests rs) as [rs'|] eqn:Ht; [|done].
  destruct (boot us' rs' d) as [s'|] eqn:Hboot; [|done]. intros [= <-].
  exists us', rs'.
  split_and!; [by eapply typed_users_wf|by eapply typed_requests_wf|done].
Qed.

Lemma Inv_startup {builtins : Builtins} d s : startup d = Started s → Inv s.
Proof.
  intros (us & rs & Hu & Hr & Hboot)%startup_boot. by eapply Inv_boot.
Qed.

(** ** The states of the engine *)

(** One call of a handler of app.py or one turn of the loop of main.py. *)
Inductive step {builtins : Builtins} : State → State → Prop :=
| step_register s form : step s (Web.register s form).1.1
| step_submit s form : step s (Web.submit s form).1.1
| step_admin_review s form : step s (Web.admin_review s form).1.1
| step_admin_decide s form : step s (Web.admin_decide s form).1.1
| step_donate s form : step s (Web.donate s form).1.1
| step_menu w : step (Cli.engine w) (Cli.engine (world_of (Cli.menu w))).

(** The states a run can be in: the state built at start-up from some data
    file, and the states that follow by calls and turns. *)
Inductive reachable {builtins : Builtins} : State → Prop :=
| reachable_start d s : startup d = Started s → reachable s
| reachable_step s s' : reachable s → step s s' → reachable s'.

Lemma step_Inv {builtins : Builtins} s s' : step s s' → Inv s → Inv s'.
Proof.
  intros [] HI.
  - by apply Inv_web_register.
  - by apply Inv_web_submit.
  - by apply Inv_web_admin_review.
  - by apply Inv_web_admin_decide.
  - by apply Inv_web_donate.
  - by apply Inv_menu.
Qed.

Lemma reachable_Inv {builtins : Builtins} s : reachable s → Inv s.
Proof.
  induction 1 as [d s Hs|s s' _ IH Hstep].
  - by eapply Inv_startup.
  - by eapply step_Inv.
Qed.

(** ** Scripts: sequences of calls and turns *)

Inductive Call :=
| WebRegister (form : Web.Form)
| WebSubmit (form : Web.Form)
| WebReview (form : Web.Form)
| WebDecide (form : Web.Form)
| WebDonate (form : Web.Form)
| CliTurn (lines : list string).   (* one turn of the loop of main.py *)

Section Scripts.
Context {builtins : Builtins}.

Definition call (s : State) (c : Call) : State :=
  match c with
  | WebRegister form => (Web.register s form).1.1
  | WebSubmit form => (Web.submit s form).1.1
  | WebReview form => (Web.admin_review s form).1.1
  | WebDecide form => (Web.admin_decide s form).1.1
  | WebDonate form => (Web.donate s form).1.1
  | CliTurn lines => Cli.engine (world_of (Cli.menu (Cli.mkWorld s lines [])))
  end.

Definition run (cs : list Call) (s : State) : State := fold_left call cs s.

Lemma step_call s c : step s (call s c).
Proof.
  destruct c; simpl; try constructor.
  apply (step_menu (Cli.mkWorld s lines [])).
Qed.

Lemma reachable_run cs s : reachable s → reachable (run cs s).
Proof.
  revert s. induction cs as [|c cs IH]; intros s Hs; [done|].
  simpl. apply IH. eapply reachable_step; [done|]. apply step_call.
Qed.

(** A run that starts without a data file. *)
Lemma reachable_fresh cs : reachable (run cs (empty_state Missing)).
Proof.
  apply reachable_run. apply (reachable_start Missing). reflexivity.
Qed.

End Scripts.

(** * The claims *)

(** ** C1: the order in which ReviewNext hands out requests *)

(** The number [n] of an id of the form [R<n>]. *)
Definition id_number (rid : string) : option nat :=
  match rid with
  | String "R" rest => digits_value rest
  | _ => None
  end.

(** The claim in the words of the specification: the request popped has the
    highest urgency of the queue and, among the requests of that urgency,
    the smallest id number. *)
Definition pops_first_created (s : State) : Prop :=
  ∀ r h, pop_heap (heap s) = (Some r, h) →
    ∀ a, a ∈ (heap s).*2 →
      (urgency (objs s !!! a) <= urgency (objs s !!! r))%Z
      ∧ (urgency (objs s !!! a) = urgency (objs s !!! r) →
         ∀ n m, id_number (req_id (objs s !!! r)) = Some n →
                id_number (req_id (objs s !!! a)) = Some m → n ≤ m).

(** What the code does: among the requests of the highest urgency the one
    whose id is least as a string is popped. *)
Definition pops_least_id (s : State) : Prop :=
  ∀ r h, pop_heap (heap s) = (Some r, h) →
    (heap s).*2 ≡ₚ r :: h.*2
    ∧ ∀ a, a ∈ (heap s).*2 →
        (urgency (objs s !!! a) <= urgency (objs s !!! r))%Z
        ∧ (urgency (objs s !!! a) = urgency (objs s !!! r) →
           string_le (req_id (objs s !!! r)) (req_id (objs s !!! a))).

Lemma admin_review_pops {builtins : Builtins} s form r h :
  has_role s (str_strip (Web.form_get form "admin_id" "")) "admin" = true →
  pop_heap (heap s) = (Some r, h) →
  Web.admin_review s form = (with_heap s h, [], Web.ReviewPage r).
Proof. intros Hrole Hpop. unfold Web.admin_review. by rewrite Hrole, Hpop. Qed.

(** C1 (amended).  In every state of the engine, the request that
    [pop_heap] returns to ReviewNext is one of the queued requests, it has
    the numerically highest urgency among them, and among the queued
    requests of that urgency its id is the least in string order (so R10
    comes before R2). *)
Theorem review_next_order {builtins : Builtins} (s : State) (r : ref)
    (h : list entry) :
  reachable s → pop_heap (heap s) = (Some r, h) →
  (heap s).*2 ≡ₚ r :: h.*2
  ∧ ∀ a, a ∈ (heap s).*2 →
      (urgency (objs s !!! a) <= urgency (objs s !!! r))%Z
      ∧ (urgency (objs s !!! a) = urgency (objs s !!! r) →
         string_le (req_id (objs s !!! r)) (req_id (objs s !!! a))).
Proof.
  intros Hs Hpop. apply reachable_Inv in Hs.
  pose proof (pop_heap_spec (heap s) (inv_heap_ordered s Hs)) as Hspec.
  rewrite Hpop in Hspec. destruct Hspec as (e & He & Hp & _ & Hleast).
  pose proof (inv_heap_entries s Hs) as Hok. rewrite Forall_forall in Hok.
  assert (e ∈ heap s) as Hin by (rewrite Hp; by left).
  destruct (Hok e Hin) as (_ & Heu & Hei). rewrite He in Heu, Hei.
  split; [by rewrite Hp, fmap_cons, He|].
  intros a Ha. apply list_elem_of_fmap in Ha as (e' & -> & He').
  destruct (Hok e' He') as (_ & Heu' & Hei').
  specialize (Hleast e' He'). apply entry_lt_false in Hleast.
  rewrite Heu, Heu', Hei, Hei' in Hleast.
  destruct Hleast as [Hlt|[Heq Hle]]; split; try lia; done.
Qed.

(** Forms and terminal lines for the worked examples. *)
Definition registration (uid name role : string) : Web.Form :=
  [("user_id", uid); ("name", name); ("role", role)].

Definition submission (sid amount urgency : string) : Web.Form :=
  [("student_id", sid); ("amount", amount); ("urgency", urgency)].

Definition review_by (admin_id : string) : Web.Form := [("admin_id", admin_id)].

Definition decision (rid verdict : string) : Web.Form :=
  [("request_id", rid); ("decision", verdict)].

Definition donation (donor rid amount : string) : Web.Form :=
  [("donor_id", donor); ("request_id", rid); ("donation", amount)].

(** One student, R1 of urgency 1, then R2 to R10, all of urgency 5. *)
Definition ten_requests : list Call :=
  [WebRegister (registration "s1" "Ana" "student");
   WebSubmit (submission "s1" "100" "1")]
  ++ replicate 9 (WebSubmit (submission "s1" "100" "5")).

(** C1, counterexample to the claim as stated.  After [ten_requests] the
    queue holds R1 (urgency 1) and R2 ... R10 (urgency 5).  [pop_heap]
    returns R10, although R2 is queued with the same urgency, was created
    before R10 and has the smaller number. *)
Lemma review_next_order_counterexample :
  let s := run (builtins := sample_builtins) ten_requests (empty_state Missing) in
  reachable (builtins := sample_builtins) s
  ∧ (pop_heap (heap s)).1 = Some 9
  ∧ req_id (objs s !!! 9) = "R10"
  ∧ 1 ∈ (heap s).*2
  ∧ req_id (objs s !!! 1) = "R2"
  ∧ urgency (objs s !!! 1) = urgency (objs s !!! 9)
  ∧ ¬ pops_first_created s.
Proof.
  intros s.
  assert (pop_heap (heap s) = (Some 9, (pop_heap (heap s)).2)) as Hpop
    by (vm_compute; reflexivity).
  assert (1 ∈ (heap s).*2) as Hin
    by (apply (bool_decide_unpack _); vm_compute; exact I).
  split; [apply reachable_fresh|].
  split; [vm_compute; reflexivity|]. split; [vm_compute; reflexivity|].
  split; [exact Hin|].
  split; [vm_compute; reflexivity|]. split; [vm_compute; reflexivity|].
  intros Hclaim. destruct (Hclaim 9 _ Hpop 1 Hin) as [_ Hnum].
  assert (10 ≤ 2) as Habs; [|lia].
  apply Hnum; vm_compute; reflexivity.
Qed.

Lemma review_next_order_witness :
  let s := run (builtins := sample_builtins) ten_requests (empty_state Missing) in
  let h := (pop_heap (heap s)).2 in
  reachable (builtins := sample_builtins) s
  ∧ pop_heap (heap s) = (Some 9, h)
  ∧ (heap s).*2 ≡ₚ 9 :: h.*2
  ∧ ∀ a, a ∈ (heap s).*2 →
      (urgency (objs s !!! a) <= urgency (objs s !!! 9%nat))%Z
      ∧ (urgency (objs s !!! a) = urgency (objs s !!! 9) →
         string_le (req_id (objs s !!! 9)) (req_id (objs s !!! a))).
Proof.
  intros s h.
  assert (pop_heap (heap s) = (Some 9, h)) as Hpop
    by (vm_compute; reflexivity).
  split; [apply reachable_fresh|]. split; [exact Hpop|].
  apply (review_next_order (builtins := sample_builtins) s 9 h);
    [apply reachable_fresh|exact Hpop].
Defined.

(** ** C6: the view of the requests ordered by amount *)

Lemma StronglySorted_lookup {A} (R : A → A → Prop) (l : list A) i j a b :
  StronglySorted R l → i < j → l !! i = Some a → l !! j = Some b → R a b.
Proof.
  intros Hs. revert i j. induction Hs as [|x l Hs IH Hx]; intros i j Hij Hi Hj.
  - done.
  - destruct j as [|j]; [lia|]. destruct i as [|i]; simpl in *.
    + injection Hi as <-. rewrite Forall_forall in Hx. apply Hx.
      by eapply list_elem_of_lookup_2.
    + apply (IH i j); [lia|done..].
Qed.










Ltac cli_unfold :=
  unfold Cli.menu, Cli.choice_1, Cli.choice_2, Cli.choice_3, Cli.choice_4,
    Cli.choice_5, mbind, Cli.M_bind, Cli.bind, Cli.input_nonempty, Cli.get,
    Cli.put, Cli.print, Cli.continue, Cli.ret, Cli.sys_exit.

(** One case distinction of the symbolic run of a turn. *)
Ltac cli_case :=
  match goal with
  | |- context [match Cli.read_nonempty ?l with _ => _ end] =>
      destruct (Cli.read_nonempty l) as [[? ?]|] eqn:?
  | |- context [if ?b then _ else _] => destruct b eqn:?
  | |- context [match ?x with _ => _ end] => destruct x eqn:?
  end.

Ltac cli_run :=
  cli_unfold; cbn [Cli.engine Cli.stdin Cli.stdout world_of];
  repeat (cli_case; cbn [Cli.engine Cli.stdin Cli.stdout world_of]).

Section Log.
Context {builtins : Builtins}.





End Log.


(** The scenario of the specification, through the web handlers and through
    the terminal. *)
Definition scenario_web : list Call :=
  [WebRegister (registration "s1" "Ana" "student");
   WebRegister (registration "a1" "Bo" "admin");
   WebRegister (registration "d1" "Cy" "donor");
   WebSubmit (submission "s1" "100" "5");
   WebSubmit (submission "s1" "50" "9");
   WebReview (review_by "a1");
   WebDecide (decision "R2" "approve");
   WebDonate (donation "d1" "R2" "50");
   WebReview (review_by "a1");
   WebDecide (decision "R1" "reject")].

Definition scenario_cli : list Call :=
  [CliTurn ["1"; "s1"; "Ana"; "student"];
   CliTurn ["1"; "a1"; "Bo"; "admin"];
   CliTurn ["1"; "d1"; "Cy"; "donor"];
   CliTurn ["2"; "s1"; "100"; "5"];
   CliTurn ["2"; "s1"; "50"; "9"];
   CliTurn ["3"; "a1"; "y"];
   CliTurn ["4"; "d1"; "R2"; "50"];
   CliTurn ["3"; "a1"; "n"]].

Example scenario_web_view :
  let s := run (builtins := sample_builtins) scenario_web (empty_state Missing) in
  (λ a, objs s !!! a) <$> inorder (bst s)
  = [mkReq "R2" "s1" (Finite 50) 9%Z "funded";
     mkReq "R1" "s1" (Finite 100) 5%Z "rejected"]
  ∧ approved_q s = [] ∧ heap s = [].
Proof. vm_compute. done. Qed.

Example scenario_cli_view :
  let s := run (builtins := sample_builtins) scenario_cli (empty_state Missing) in
  (λ a, objs s !!! a) <$> inorder (bst s)
  = [mkReq "R2" "s1" (Finite 50) 9%Z "funded";
     mkReq "R1" "s1" (Finite 100) 5%Z "rejected"]
  ∧ approved_q s = [] ∧ heap s = [].
Proof. vm_compute. done. Qed.




(** ** The counter of request ids *)

Section CounterSteps.
Context {builtins : Builtins}.




End CounterSteps.

(** ** C8: saving and loading again *)



Section RoundTrip.
Context {builtins : Builtins}.









End RoundTrip.




(** The scenario after R2 was approved: saved, then loaded again. *)
Example reload_after_approval :
  let s := run (builtins := sample_builtins) (take 7 scenario_web)
               (empty_state Missing) in
  ∃ s', startup (builtins := sample_builtins) (disk s) = Started s'
        ∧ objs s' = [mkReq "R1" "s1" (Finite 100) 5%Z "submitted";
                     mkReq "R2" "s1" (Finite 50) 9%Z "approved"]
        ∧ inorder (bst s') = [1; 0]
        ∧ heap s' = [((-5)%Z, "R1", 0)]
        ∧ approved_q s' = [1]
        ∧ req_counter s' = 3.
Proof. eexists. split; [vm_compute; reflexivity|]. vm_compute. done. Qed.

(** ** C10: what load_state tolerates *)

(** A record (a JSON object) without the key "id". *)
Definition lacks_id (x : json) : Prop :=
  ∃ fields, x = JDict fields ∧ dict_get String.eqb fields "id" = None.

(** The payload is an object whose "users" or "requests" list holds a record
    without "id". *)
Definition has_record_without_id (payload : json) : Prop :=
  ∃ d, payload = JDict d
       ∧ ((∃ us u, dict_get String.eqb d "users" = Some (JList us)
                   ∧ u ∈ us ∧ lacks_id u)
          ∨ (∃ rs r, dict_get String.eqb d "requests" = Some (JList rs)
                     ∧ r ∈ rs ∧ lacks_id r)).

Lemma for_each_raises {A St} (body : St → A → result St) l x :
  x ∈ l → (∀ acc, ∃ e, body acc x = Raise e) →
  ∀ acc, ∃ e, for_each l acc body = Raise e.
Proof.
  intros Hx Hraise. induction l as [|y l IH]; intros acc.
  - by apply elem_of_nil in Hx.
  - simpl. unfold mbind, result_bind, rbind.
    apply elem_of_cons in Hx as [<-|Hx].
    + destruct (Hraise acc) as [e ->]. by exists e.
    + destruct (body acc y) as [acc'|e]; [by apply IH|by exists e].
Qed.

Section Tolerance.
Context {builtins : Builtins}.

Lemma load_user_lacks_id acc u : lacks_id u → load_user acc u = Raise KeyError.
Proof.
  intros (fields & -> & Hid). unfold load_user, py_getitem. by rewrite Hid.
Qed.

Lemma load_request_lacks_id acc r :
  lacks_id r → load_request acc r = Raise KeyError.
Proof.
  intros (fields & -> & Hid). unfold load_request, py_getitem. by rewrite Hid.
Qed.

Lemma load_user_defaults acc fields uid :
  dict_get String.eqb fields "id" = Some uid → hashable uid = true →
  load_user acc (JDict fields)
  = Ok (dict_set key_eqb acc uid
          (mkUser uid
             (default (JStr "") (dict_get String.eqb fields "name"))
             (default (JStr "student") (dict_get String.eqb fields "role")))).
Proof.
  intros Hid Hh. unfold load_user, py_getitem, py_get, py_setitem.
  rewrite Hid. unfold mbind, result_bind, rbind.
  destruct (dict_get _ fields "name"), (dict_get _ fields "role");
    simpl; by rewrite Hh.
Qed.

Lemma load_request_defaults acc fields rid :
  dict_get String.eqb fields "id" = Some rid → hashable rid = true →
  load_request acc (JDict fields)
  = Ok (dict_set key_eqb acc rid
          (mkReq rid
             (default (JStr "") (dict_get String.eqb fields "student_id"))
             (try_except
                (py_float (default (JInt 0) (dict_get String.eqb fields "amount")))
                (Finite 0))
             (try_except
                (py_int (default (JInt 1) (dict_get String.eqb fields "urgency")))
                1%Z)
             (default (JStr "submitted")
                (dict_get String.eqb fields "status")))).
Proof.
  intros Hid Hh. unfold load_request, py_getitem, py_get, py_setitem.
  rewrite Hid. unfold mbind, result_bind, rbind.
  destruct (dict_get _ fields "student_id"), (dict_get _ fields "status"),
    (dict_get _ fields "amount"), (dict_get _ fields "urgency");
    simpl; by rewrite Hh.
Qed.

(** The claim in its own words.  A record that can be loaded is an object
    with an "id" that can be a dict key. *)
Definition loadable (x : json) : Prop :=
  ∃ fields k, x = JDict fields ∧ dict_get String.eqb fields "id" = Some k
              ∧ hashable k = true.

Definition record_fields (x : json) : list (string * json) :=
  match x with
  | JDict fields => fields
  | _ => []
  end.

(** The user of a record, with the defaults for the fields that it lacks. *)
Definition user_with_defaults (fields : list (string * json)) : User json :=
  mkUser (default JNull (dict_get String.eqb fields "id"))
    (default (JStr "") (dict_get String.eqb fields "name"))
    (default (JStr "student") (dict_get String.eqb fields "role")).

(** The request of a record, with the defaults for the fields that it
    lacks, and for an amount or an urgency that is no number. *)
Definition request_with_defaults (fields : list (string * json))
    : FundingRequest json :=
  mkReq (default JNull (dict_get String.eqb fields "id"))
    (default (JStr "") (dict_get String.eqb fields "student_id"))
    (match dict_get String.eqb fields "amount" with
     | None => Finite 0
     | Some v => match py_float v with Ok x => x | Raise _ => Finite 0 end
     end)
    (match dict_get String.eqb fields "urgency" with
     | None => 1%Z
     | Some v => match py_int v with Ok n => n | Raise _ => 1%Z end
     end)
    (default (JStr "submitted") (dict_get String.eqb fields "status")).

(** The registry of a list of records: each record under its id, in the
    order of the list, a later record replacing an earlier one of the same
    id. *)
Definition registry {V} (build : list (string * json) → V)
    (records : list json) : list (json * V) :=
  fold_left (λ acc x,
               dict_set key_eqb acc
                 (default JNull (dict_get String.eqb (record_fields x) "id"))
                 (build (record_fields x)))
            records [].

Lemma for_each_registry {V} (build : list (string * json) → V)
    (body : list (json * V) → json → result (list (json * V))) records acc :
  (∀ acc fields k,
     dict_get String.eqb fields "id" = Some k → hashable k = true →
     body acc (JDict fields) = Ok (dict_set key_eqb acc k (build fields))) →
  Forall loadable records →
  for_each records acc body
  = Ok (fold_left (λ acc x,
                     dict_set key_eqb acc
                       (default JNull
                          (dict_get String.eqb (record_fields x) "id"))
                       (build (record_fields x)))
                  records acc).
Proof.
  intros Hbody Hall. revert acc.
  induction Hall as [|x l (fields & k & -> & Hk & Hh) _ IH]; intros acc;
    [done|].
  cbn [for_each fold_left record_fields].
  rewrite (Hbody acc fields k Hk Hh). unfold mbind, result_bind, rbind.
  rewrite IH. by rewrite Hk.
Qed.

Lemma load_user_with_defaults acc fields k :
  dict_get String.eqb fields "id" = Some k → hashable k = true →
  load_user acc (JDict fields)
  = Ok (dict_set key_eqb acc k (user_with_defaults fields)).
Proof.
  intros Hk Hh. rewrite (load_user_defaults acc fields k Hk Hh).
  unfold user_with_defaults. by rewrite Hk.
Qed.

Lemma load_request_with_defaults acc fields k :
  dict_get String.eqb fields "id" = Some k → hashable k = true →
  load_request acc (JDict fields)
  = Ok (dict_set key_eqb acc k (request_with_defaults fields)).
Proof.
  intros Hk Hh. rewrite (load_request_defaults acc fields k Hk Hh).
  unfold request_with_defaults. rewrite Hk. do 2 f_equal.
  destruct (dict_get String.eqb fields "amount") as [v|],
    (dict_get String.eqb fields "urgency") as [w|]; simpl; try done.
Qed.

(** C10.  [load_state] returns empty registries for a missing or an
    unreadable file.  On a payload whose records all have an id (any
    hashable JSON value) it returns the registries of the records with the
    defaults filled in: a missing name becomes "", a missing role
    "student", a missing student_id "", a missing or unusable amount 0.0, a
    missing or unusable urgency 1, a missing status "submitted"; a missing
    "users" or "requests" list counts as empty.  So does each step of its
    two loops, whatever the registry built so far.  But whenever the
    "users" or the "requests" list of the payload holds a record without
    "id", [load_state] raises. *)
Theorem load_state_tolerance :
  load_state Missing = Ok ([], [])
  ∧ load_state Unreadable = Ok ([], [])
  ∧ (∀ d us rs,
       default (JList []) (dict_get String.eqb d "users") = JList us →
       default (JList []) (dict_get String.eqb d "requests") = JList rs →
       Forall loadable us → Forall loadable rs →
       load_state (Content (JDict d))
       = Ok (registry user_with_defaults us,
             registry request_with_defaults rs))
  ∧ (∀ acc fields uid,
       dict_get String.eqb fields "id" = Some uid → hashable uid = true →
       load_user acc (JDict fields)
       = Ok (dict_set key_eqb acc uid
               (mkUser uid
                  (default (JStr "") (dict_get String.eqb fields "name"))
                  (default (JStr "student")
                     (dict_get String.eqb fields "role")))))
  ∧ (∀ acc fields rid,
       dict_get String.eqb fields "id" = Some rid → hashable rid = true →
       ∃ amt urg,
         load_request acc (JDict fields)
         = Ok (dict_set key_eqb acc rid
                 (mkReq rid
                    (default (JStr "")
                       (dict_get String.eqb fields "student_id"))
                    amt urg
                    (default (JStr "submitted")
                       (dict_get String.eqb fields "status"))))
         ∧ (dict_get String.eqb fields "amount" = None → amt = Finite 0)
         ∧ (dict_get String.eqb fields "urgency" = None → urg = 1%Z)
         ∧ (∀ v e, dict_get String.eqb fields "amount" = Some v →
                   py_float v = Raise e → amt = Finite 0)
         ∧ (∀ v e, dict_get String.eqb fields "urgency" = Some v →
                   py_int v = Raise e → urg = 1%Z))
  ∧ (∀ payload, has_record_without_id payload →
       ∃ e, load_state (Content payload) = Raise e).
Proof.
  split_and!; [done|done| |apply load_user_defaults| |].
  - intros d us rs Hus Hrs Hu Hr. unfold load_state, py_get.
    unfold mbind, result_bind, rbind.
    assert (match dict_get String.eqb d "users" with
            | Some v => Ok v
            | None => Ok (JList [])
            end = Ok (JList us)) as ->
      by (rewrite <- Hus; by destruct (dict_get _ d "users")).
    assert (match dict_get String.eqb d "requests" with
            | Some v => Ok v
            | None => Ok (JList [])
            end = Ok (JList rs)) as ->
      by (rewrite <- Hrs; by destruct (dict_get _ d "requests")).
    cbn [py_iter].
    rewrite (for_each_registry user_with_defaults load_user us []
               load_user_with_defaults Hu).
    by rewrite (for_each_registry request_with_defaults load_request rs []
                  load_request_with_defaults Hr).
  - intros acc fields rid Hid Hh. eexists _, _.
    split; [by apply load_request_defaults|].
    split_and!; [by intros ->|by intros ->|intros v e -> Hv|intros v e -> Hv];
      simpl; by rewrite Hv.
  - intros payload (d & -> & Hbad). unfold load_state, py_get.
    unfold mbind, result_bind, rbind.
    destruct Hbad as [(us & u & Hus & Hin & Hu)|(rs & r & Hrs & Hin & Hr)].
    + rewrite Hus. cbn [py_iter].
      destruct (for_each_raises load_user us u Hin
                  (λ acc, ex_intro _ KeyError (load_user_lacks_id acc u Hu)) [])
        as [e ->]. by exists e.
    + destruct (dict_get _ d "users") as [uv|];
        (destruct (py_iter _) as [ul|e]; [|by exists e]);
        (destruct (for_each ul _ _) as [um|e]; [|by exists e]);
        rewrite Hrs; cbn [py_iter];
        destruct (for_each_raises load_request rs r Hin
                    (λ acc, ex_intro _ KeyError
                              (load_request_lacks_id acc r Hr)) [])
          as [e ->]; by exists e.
Qed.

End Tolerance.

(** A payload with one user without "id": the load raises [KeyError].  A
    file with two users, one of them with nothing but an id, and two
    requests, one with nothing but an id and one whose amount and urgency
    are no numbers: the load fills in the defaults. *)
Lemma load_state_tolerance_witness :
  let bad := JDict [("users", JList [JDict [("name", JStr "Ana")]])] in
  let users := [JDict [("id", JStr "u1")];
                JDict [("id", JStr "u2"); ("name", JStr "Bo");
                       ("role", JStr "admin")]] in
  let requests := [JDict [("id", JStr "R1")];
                   JDict [("id", JStr "R2"); ("student_id", JStr "u1");
                          ("amount", JStr "n/a"); ("urgency", JNull);
                          ("status", JStr "approved")]] in
  let good := [("users", JList users); ("requests", JList requests)] in
  has_record_without_id bad
  ∧ (∃ e, load_state (builtins := sample_builtins) (Content bad) = Raise e)
  ∧ Forall loadable users ∧ Forall loadable requests
  ∧ load_state (builtins := sample_builtins) (Content (JDict good))
    = Ok ([(JStr "u1", mkUser (JStr "u1") (JStr "") (JStr "student"));
           (JStr "u2", mkUser (JStr "u2") (JStr "Bo") (JStr "admin"))],
          [(JStr "R1",
            mkReq (JStr "R1") (JStr "") (Finite 0) 1%Z (JStr "submitted"));
           (JStr "R2",
            mkReq (JStr "R2") (JStr "u1") (Finite 0) 1%Z (JStr "approved"))]).
Proof.
  intros bad users requests good.
  assert (has_record_without_id bad) as Hbad.
  { exists [("users", JList [JDict [("name", JStr "Ana")]])].
    split; [reflexivity|]. left.
    exists [JDict [("name", JStr "Ana")]], (JDict [("name", JStr "Ana")]).
    split; [reflexivity|]. split; [by left|].
    exists [("name", JStr "Ana")]. split; reflexivity. }
  assert (Forall loadable users) as Hu.
  { repeat constructor; eexists _, _; split_and!; reflexivity. }
  assert (Forall loadable requests) as Hr.
  { repeat constructor; eexists _, _; split_and!; reflexivity. }
  pose proof (load_state_tolerance (builtins := sample_builtins))
    as (_ & _ & Hload & _ & _ & Hraise).
  split; [exact Hbad|]. split; [exact (Hraise bad Hbad)|].
  split; [exact Hu|]. split; [exact Hr|].
  exact (Hload good users requests eq_refl eq_refl Hu Hr).
Defined.

Example load_state_missing_id :
  load_state (builtins := sample_builtins)
    (Content (JDict [("users", JList [JDict [("name", JStr "Ana")]])]))
  = Raise KeyError.
Proof. reflexivity. Qed.

Example load_state_defaults :
  load_state (builtins := sample_builtins)
    (Content (JDict [("users", JList [JDict [("id", JStr "u")]]);
                     ("requests", JList [JDict [("id", JStr "R7");
                                                ("amount", JStr "n/a")]])]))
  = Ok ([(JStr "u", mkUser (JStr "u") (JStr "") (JStr "student"))],
        [(JStr "R7",
          mkReq (JStr "R7") (JStr "") (Finite 0) 1%Z (JStr "submitted"))]).
Proof. reflexivity. Qed.

(** ** Approved requests are queued *)

(** Every request whose status is "approved" is in the approved queue.
    (The converse holds on the command line but not on the web, see C3.) *)
Definition approved_queued (s : State) : Prop :=
  ∀ a, a < length (objs s) → status (objs s !!! a) = "approved" →
       a ∈ approved_q s.

Definition Good (s : State) : Prop := Inv s ∧ approved_queued s.

Lemma set_status_status objs0 a st b :
  a < length objs0 →
  status (set_status objs0 a st !!! b)
  = if decide (a = b) then st else status (objs0 !!! b).
Proof.
  intros Ha. rewrite set_status_lookup.
  destruct (decide (a = b)) as [->|Hne].
  - by rewrite decide_True.
  - rewrite decide_False; [done|]. by intros [? _].
Qed.

Lemma Good_same s s' :
  objs s' = objs s → requests_map s' = requests_map s → bst s' = bst s →
  heap s' = heap s → approved_q s' = approved_q s →
  req_counter s' = req_counter s →
  users_map s' = users_map s → users_set s' = users_set s →
  Good s → Good s'.
Proof.
  intros Ho Hm Hb Hh Hq Hc Hu Hus [HI HQ]. split.
  - apply (Inv_same s); try done; by rewrite ?Hu, ?Hus.
  - intros a. rewrite Ho, Hq. apply HQ.
Qed.

Lemma Good_persist s : Good s → Good (persist s).
Proof. by apply Good_same. Qed.

Lemma Good_add_user s uid name role :
  uid ∉ users_set s → Good s → Good (add_user s uid name role).
Proof. intros Hnew [HI HQ]. split; [by apply Inv_add_user|done]. Qed.

Lemma Good_pop s r h :
  Good s → pop_heap (heap s) = (Some r, h) →
  Good (with_heap s h) ∧ r < length (objs s).
Proof.
  intros [HI HQ] Hpop. destruct (Inv_pop s _ _ HI Hpop) as [HI' Hr].
  split; [by split|by apply Hr].
Qed.

Lemma Good_create_request s sid amt urg :
  Good s → Good (create_request s sid amt urg).2.
Proof.
  intros [HI HQ]. split; [by apply Inv_create_request|].
  intros a. unfold create_request. simpl. rewrite length_app. simpl.
  intros Ha. destruct (decide (a = length (objs s))) as [->|Hne].
  - by rewrite list_lookup_total_middle.
  - rewrite lookup_total_app_l by lia. apply HQ. lia.
Qed.

Lemma Good_approve s a : a < length (objs s) → Good s → Good (approve s a).
Proof.
  intros Ha [HI HQ]. split; [by apply Inv_approve|].
  intros b. simpl. rewrite set_status_length, set_status_status by done.
  intros Hb. unfold enqueue. rewrite elem_of_app, list_elem_of_singleton.
  destruct (decide (a = b)) as [->|Hne]; [by right|]. left. by apply HQ.
Qed.

Lemma Good_reject s a : a < length (objs s) → Good s → Good (reject s a).
Proof.
  intros Ha [HI HQ]. split; [by apply Inv_reject|].
  intros b. simpl. rewrite set_status_length, set_status_status by done.
  intros Hb. destruct (decide (a = b)) as [->|Hne]; [done|]. by apply HQ.
Qed.

Lemma Good_fund s a rid :
  a < length (objs s) → req_id (objs s !!! a) = rid →
  Good s → Good (fund s a rid).
Proof.
  intros Ha Hid [HI HQ]. split; [by apply Inv_fund|].
  intros b. simpl. rewrite set_status_length, set_status_status by done.
  intros Hb. destruct (decide (a = b)) as [->|Hne]; [done|]. intros Hst.
  unfold without_id. apply list_elem_of_filter. split; [|by apply HQ].
  rewrite set_status_req_id. intros Heq. apply Hne.
  pose proof (inv_ids s HI) as Hnd.
  eapply (NoDup_lookup _ a b _ Hnd); rewrite list_lookup_fmap.
  - by rewrite (list_lookup_lookup_total_lt _ _ Ha).
  - rewrite (list_lookup_lookup_total_lt _ _ Hb). simpl. congruence.
Qed.

Lemma Good_lookup s k a :
  Good s → dict_get String.eqb (requests_map s) k = Some a →
  a < length (objs s) ∧ req_id (objs s !!! a) = k.
Proof. intros [HI _]. by apply requests_map_lookup. Qed.

Lemma Good_boot {builtins : Builtins} us rs d s :
  users_wf us → requests_wf rs → boot us rs d = Ok s → Good s.
Proof.
  intros Hu Hr Hboot. split; [by eapply Inv_boot|].
  destruct (boot_fields us rs d s Hu Hr Hboot) as (Ho & _ & _ & Hre & _).
  destruct Hre as (_ & _ & _ & _ & _ & Hq). simpl in Hq.
  intros a. rewrite Ho, Hq. intros Ha Hst.
  apply list_elem_of_filter. split; [done|].
  apply elem_of_seq. rewrite length_fmap in Ha. lia.
Qed.

Lemma Good_startup {builtins : Builtins} d s : startup d = Started s → Good s.
Proof.
  intros (us & rs & Hu & Hr & Hboot)%startup_boot. by eapply Good_boot.
Qed.

(** The facts about the states met on the way, then the atomic steps. *)
Ltac good_facts :=
  repeat match goal with
  | H : pop_heap (heap ?s) = (Some ?r, ?h), HG : Good ?s |- _ =>
      let H1 := fresh in let H2 := fresh in
      destruct (Good_pop s r h HG H) as [H1 H2]; clear H
  | H : create_request ?s ?a ?b ?c = (_, _), HG : Good ?s |- _ =>
      let X := fresh in
      pose proof (Good_create_request s a b c HG) as X;
      rewrite H in X; simpl in X; clear H
  | H : dict_get String.eqb (requests_map ?s) ?k = Some ?a, HG : Good ?s |- _ =>
      let H1 := fresh in let H2 := fresh in
      destruct (Good_lookup s k a HG H) as [H1 H2]; clear H
  end.

Ltac good_solve :=
  good_facts;
  repeat first [ assumption | apply Good_persist
               | apply Good_add_user;
                 [eapply bool_decide_eq_false_1; eassumption|]
               | apply Good_reject; [simpl; assumption|]
               | apply Good_fund; [simpl; assumption|simpl; assumption|]
               | apply Good_approve; [simpl; assumption|] ].

Section GoodSteps.
Context {builtins : Builtins}.

Lemma Good_menu : keeps Good Cli.menu.
Proof.
  unfold Cli.menu, Cli.choice_1, Cli.choice_2, Cli.choice_3, Cli.choice_4,
    Cli.choice_5.
  repeat keeps_step; try good_solve. by intros w Hw.
Qed.

Lemma Good_call s c : Good s → Good (call s c).
Proof.
  intros HG. destruct c as [form|form|form|form|form|lines]; simpl.
  - unfold Web.register. destruct (_ || _); [done|].
    case_bool_decide; [done|]. by apply Good_persist, Good_add_user.
  - unfold Web.submit. destruct (negb _); [done|].
    destruct (float_of_str _) as [amt|]; [|done].
    destruct (int_of_str _) as [urg|]; [|done].
    destruct (create_request _ _ _ _) as [rid s'] eqn:E. simpl. good_solve.
  - unfold Web.admin_review. destruct (negb _); [done|].
    destruct (pop_heap _) as [[r|] h] eqn:E; [|done]. simpl. good_solve.
  - unfold Web.admin_decide.
    destruct (dict_get _ _ _) as [req|] eqn:E; [|done].
    destruct (String.eqb _ _); simpl; good_solve.
  - unfold Web.donate. destruct (float_of_str _); [|done].
    destruct (negb _); [done|].
    destruct (dict_get _ _ _) as [req|] eqn:E; [|done].
    destruct (negb _); [done|]. destruct (float_ge _ _); simpl; good_solve.
  - apply (Good_menu (Cli.mkWorld s lines []) HG).
Qed.

Lemma reachable_Good s : reachable s → Good s.
Proof.
  induction 1 as [d s Hs|s s' _ IH Hstep]; [by eapply Good_startup|].
  destruct Hstep as [s form|s form|s form|s form|s form|w].
  - apply (Good_call s (WebRegister form) IH).
  - apply (Good_call s (WebSubmit form) IH).
  - apply (Good_call s (WebReview form) IH).
  - apply (Good_call s (WebDecide form) IH).
  - apply (Good_call s (WebDonate form) IH).
  - by apply Good_menu.
Qed.

End GoodSteps.

(** ** C5: donations are all or nothing *)

Section Reads.
Context {builtins : Builtins}.

(** Successive calls of [input_nonempty] on [lines] return the values [vs]
    and leave [rest] on the terminal. *)
Fixpoint reads (lines : list string) (vs : list string) (rest : list string)
    : Prop :=
  match vs with
  | [] => lines = rest
  | v :: vs' =>
      ∃ lines', Cli.read_nonempty lines = Some (v, lines') ∧ reads lines' vs' rest
  end.

End Reads.

Ltac read_next :=
  cbn [negb Cli.engine Cli.stdin Cli.stdout];
  match goal with
  | H : reads _ (_ :: _) _ |- _ =>
      let l := fresh "l" in let Hr := fresh "Hr" in
      destruct H as (l & Hr & H); rewrite Hr;
      cbn [Cli.engine Cli.stdin Cli.stdout]
  | H : reads _ nil _ |- _ => simpl in H; subst
  end.

(** [a >= b] is false exactly when [a < b] or one of the two is nan. *)
Lemma float_ge_false_iff a b :
  float_ge a b = false
  ↔ float_lt a b = true ∨ is_nan a = true ∨ is_nan b = true.
Proof.
  destruct a as [x| | |], b as [y| | |]; simpl;
    try (split; [done|by intros [?|[?|?]]]); try (split; [tauto|done]).
  unfold float_ge, float_lt; simpl.
  destruct (x ?= y)%Q; split; try done; try tauto; by intros [?|[?|?]].
Qed.

(** C5.  Let the request [rid] be approved and [donor] be a donor, in any
    state of the engine.  A donation of at least the amount of the request
    sets its status to "funded" and removes it from the approved queue.  A
    donation below the amount is reported as insufficient and changes
    nothing in memory (the web handler rewrites the file from the unchanged
    state): the status stays "approved" and the queue is as before.  Both
    front ends behave so.  The code tests [amt >= req.amount]; by
    [float_ge_false_iff] the test fails when the donation is below the
    amount, and also when one of the two is nan. *)
Theorem donate_all_or_nothing {builtins : Builtins} (s : State)
    (donor rid a : string) (req : ref) (amt : float) (form : Web.Form)
    (lines rest : list string) (out : list Cli.Output) :
  reachable s →
  has_role s donor "donor" = true →
  dict_get String.eqb (requests_map s) rid = Some req →
  status (objs s !!! req) = "approved" →
  str_strip (Web.form_get form "donor_id" "") = donor →
  str_strip (Web.form_get form "request_id" "") = rid →
  float_of_str (Web.form_get form "donation" "0") = Some amt →
  reads lines [donor; rid; a] rest →
  float_of_str a = Some amt →
  let listing := Cli.AwaitingFunding ((λ r, objs s !!! r) <$> approved_q s) in
  (float_ge amt (amount (objs s !!! req)) = true →
     let s' := fund s req rid in
     Web.donate s form = (persist s', [Web.FullyFunded rid], Web.RedirectIndex)
     ∧ (∃ name,
          Cli.choice_4 (Cli.mkWorld s lines out)
          = Cli.Return tt (Cli.mkWorld (persist s') rest
                             (out ++ [listing; Cli.FullyFunded rid name])))
     ∧ status (objs s' !!! req) = "funded"
     ∧ (req ∉ approved_q s')
     ∧ (∀ x, x ∈ approved_q s' → x ∈ approved_q s))
  ∧ (float_ge amt (amount (objs s !!! req)) = false →
     Web.donate s form
     = (persist s, [Web.DonationInsufficient], Web.RedirectIndex)
     ∧ Cli.choice_4 (Cli.mkWorld s lines out)
       = Cli.Return tt (Cli.mkWorld s rest
                          (out ++ [listing; Cli.DonationInsufficient]))
     ∧ objs (persist s) = objs s
     ∧ approved_q (persist s) = approved_q s
     ∧ status (objs (persist s) !!! req) = "approved").
Proof.
  intros Hs Hrole Hget Hst Hd Hr Hf Hreads Ha listing.
  apply reachable_Good in Hs as [HI HQ].
  destruct (requests_map_lookup s rid req HI Hget) as [Hlt Hid].
  assert (req ∈ approved_q s) as Hin by (by apply HQ).
  assert (Cli.choice_4 (Cli.mkWorld s lines out)
          = if float_ge amt (amount (objs s !!! req))
            then Cli.Return tt
                   (Cli.mkWorld (persist (fund s req rid)) rest
                      (out ++ [listing;
                               Cli.FullyFunded rid
                                 match dict_get String.eqb (users_map s) donor with
                                 | Some u => user_name u
                                 | None => ""
                                 end]))
            else Cli.Return tt
                   (Cli.mkWorld s rest
                      (out ++ [listing; Cli.DonationInsufficient]))) as Hcli.
  { cli_unfold. cbn [Cli.engine Cli.stdin Cli.stdout].
    read_next. rewrite Hrole. cbn [negb].
    destruct (approved_q s) as [|q0 qs] eqn:Hq; [by apply elem_of_nil in Hin|].
    cbn [Cli.engine Cli.stdin Cli.stdout].
    read_next. rewrite Hget, Hst, String.eqb_refl.
    cbn [negb Cli.engine Cli.stdin Cli.stdout].
    read_next. rewrite Ha. read_next.
    destruct (float_ge _ _); cbn [Cli.engine Cli.stdin Cli.stdout];
      by rewrite <- app_assoc. }
  assert (Web.donate s form
          = if float_ge amt (amount (objs s !!! req))
            then (persist (fund s req rid), [Web.FullyFunded rid],
                  Web.RedirectIndex)
            else (persist s, [Web.DonationInsufficient], Web.RedirectIndex))
    as Hweb.
  { unfold Web.donate. rewrite Hf, Hd, Hr, Hrole, Hget, Hst.
    by rewrite String.eqb_refl. }
  rewrite Hcli, Hweb. split.
  - intros Hle. rewrite Hle.
    split_and!; [done|by eexists| | |].
    + simpl. rewrite set_status_status by done. by rewrite decide_True.
    + simpl. unfold without_id. rewrite list_elem_of_filter.
      intros [Hne _]. apply Hne. by rewrite set_status_req_id.
    + simpl. unfold without_id. intros x Hx.
      by apply list_elem_of_filter in Hx as [_ Hx].
  - by intros ->.
Qed.

(** The scenario once R2 is approved: a donation of 50 funds R2, a donation
    of 49 does not. *)
Lemma donate_all_or_nothing_witness :
  let s := run (builtins := sample_builtins) (take 7 scenario_web)
               (empty_state Missing) in
  let listing := Cli.AwaitingFunding ((λ r, objs s !!! r) <$> approved_q s) in
  amount (objs s !!! 1) = Finite 50
  ∧ status (objs s !!! 1) = "approved"
  ∧ (let s' := fund s 1 "R2" in
     Web.donate (builtins := sample_builtins) s (donation "d1" "R2" "50")
     = (persist s', [Web.FullyFunded "R2"], Web.RedirectIndex)
     ∧ status (objs s' !!! 1) = "funded"
     ∧ 1 ∉ approved_q s')
  ∧ Web.donate (builtins := sample_builtins) s (donation "d1" "R2" "49")
    = (persist s, [Web.DonationInsufficient], Web.RedirectIndex)
  ∧ Cli.choice_4 (builtins := sample_builtins)
      (Cli.mkWorld s ["d1"; "R2"; "49"] [])
    = Cli.Return tt (Cli.mkWorld s [] [listing; Cli.DonationInsufficient]).
Proof.
  intros s listing.
  assert (reachable (builtins := sample_builtins) s) as Hs
    by apply reachable_fresh.
  assert (has_role s "d1" "donor" = true) as Hrole by (vm_compute; reflexivity).
  assert (dict_get String.eqb (requests_map s) "R2" = Some 1) as Hget
    by (vm_compute; reflexivity).
  assert (status (objs s !!! 1) = "approved") as Hst by (vm_compute; reflexivity).
  destruct (donate_all_or_nothing (builtins := sample_builtins) s
              "d1" "R2" "50" 1 (Finite 50) (donation "d1" "R2" "50")
              ["d1"; "R2"; "50"] [] [] Hs Hrole Hget Hst)
    as [Hfull _]; try reflexivity.
  { repeat (eexists; split; [reflexivity|]). reflexivity. }
  destruct (donate_all_or_nothing (builtins := sample_builtins) s
              "d1" "R2" "49" 1 (Finite 49) (donation "d1" "R2" "49")
              ["d1"; "R2"; "49"] [] [] Hs Hrole Hget Hst)
    as [_ Hpart]; try reflexivity.
  { repeat (eexists; split; [reflexivity|]). reflexivity. }
  destruct Hfull as (Hweb & _ & Hfunded & Hgone & _).
  { vm_compute. reflexivity. }
  destruct Hpart as (Hweb' & Hcli' & _).
  { vm_compute. reflexivity. }
  split; [vm_compute; reflexivity|]. split; [exact Hst|].
  split; [by split_and!|]. split; [exact Hweb'|exact Hcli'].
Defined.

(** No credit is kept between attempts: two donations of 30 towards the 50
    of R2 leave it approved and queued. *)
Example no_partial_credit :
  let s := run (builtins := sample_builtins)
             (take 7 scenario_web
              ++ [WebDonate (donation "d1" "R2" "30");
                  WebDonate (donation "d1" "R2" "30")])
             (empty_state Missing) in
  status (objs s !!! 1) = "approved" ∧ approved_q s = [1].
Proof. vm_compute. done. Qed.

(** ** C9: registering an id twice *)

(** C9 (amended).  When the id [uid] is already registered, a further
    register call with that id changes nothing, neither the record under
    [uid] nor anything else.  On the command line it is always reported as
    "User already registered."; on the web it is reported as "User already
    registered" when the id and the name sent are non-empty and the role is
    valid, and as "Invalid registration data" otherwise, because the handler
    validates the form before it looks the id up. *)
Theorem register_duplicate {builtins : Builtins} (s : State) (uid : string)
    (form : Web.Form) (lines rest : list string) (out : list Cli.Output) :
  uid ∈ users_set s →
  str_strip (Web.form_get form "user_id" "") = uid →
  reads lines [uid] rest →
  let name := str_strip (Web.form_get form "name" "") in
  let role := str_lower (str_strip (Web.form_get form "role" "")) in
  (∃ msg,
     Web.register s form = (s, [msg], Web.RedirectIndex)
     ∧ (msg = Web.UserAlreadyRegistered ∨ msg = Web.InvalidRegistrationData)
     ∧ (uid ≠ "" → name ≠ "" → valid_role role = true →
        msg = Web.UserAlreadyRegistered))
  ∧ Cli.choice_1 (Cli.mkWorld s lines out)
    = Cli.Return tt (Cli.mkWorld s rest (out ++ [Cli.UserAlreadyRegistered])).
Proof.
  intros Hin Huid Hreads name role. split.
  - unfold Web.register. rewrite Huid. fold name role.
    destruct (String.eqb uid "" || String.eqb name "" || negb (valid_role role))
      eqn:E.
    + eexists. split_and!; [done|by right|]. intros H1 H2 H3.
      apply String.eqb_neq in H1, H2. by rewrite H1, H2, H3 in E.
    + rewrite bool_decide_eq_true_2 by done.
      eexists. split_and!; [done|by left|done].
  - cli_unfold. cbn [Cli.engine Cli.stdin Cli.stdout]. read_next.
    rewrite bool_decide_eq_true_2 by done. by read_next.
Qed.

(** C9, counterexample to the claim as stated: with "s1" registered, the web
    handler answers a second registration of "s1" that has an empty name,
    or a role outside student/admin/donor, with "Invalid registration data"
    and not with "User already registered". *)
Lemma register_duplicate_counterexample :
  let s := run (builtins := sample_builtins)
             [WebRegister (registration "s1" "Ana" "student")]
             (empty_state Missing) in
  "s1" ∈ users_set s
  ∧ Web.register (builtins := sample_builtins) s (registration "s1" "" "student")
    = (s, [Web.InvalidRegistrationData], Web.RedirectIndex)
  ∧ Web.register (builtins := sample_builtins) s
      (registration "s1" "Ana" "teacher")
    = (s, [Web.InvalidRegistrationData], Web.RedirectIndex)
  ∧ Web.InvalidRegistrationData ≠ Web.UserAlreadyRegistered.
Proof.
  intros s. split_and!.
  - apply (bool_decide_unpack _). vm_compute. exact I.
  - vm_compute. reflexivity.
  - vm_compute. reflexivity.
  - discriminate.
Qed.

Lemma register_duplicate_witness :
  let s := run (builtins := sample_builtins)
             [WebRegister (registration "s1" "Ana" "student")]
             (empty_state Missing) in
  let form := registration " s1 " "Mallory" "ADMIN" in
  "s1" ∈ users_set s
  ∧ (∃ msg,
       Web.register (builtins := sample_builtins) s form
       = (s, [msg], Web.RedirectIndex)
       ∧ (msg = Web.UserAlreadyRegistered ∨ msg = Web.InvalidRegistrationData)
       ∧ ("s1" ≠ "" → "Mallory" ≠ "" → valid_role "admin" = true →
          msg = Web.UserAlreadyRegistered))
  ∧ Cli.choice_1 (builtins := sample_builtins)
      (Cli.mkWorld s ["s1"; "Mallory"; "admin"] [])
    = Cli.Return tt
        (Cli.mkWorld s ["Mallory"; "admin"] [Cli.UserAlreadyRegistered]).
Proof.
  intros s form.
  assert ("s1" ∈ users_set s) as Hin
    by (apply (bool_decide_unpack _); vm_compute; exact I).
  split; [exact Hin|].
  apply (register_duplicate (builtins := sample_builtins) s "s1" form
           ["s1"; "Mallory"; "admin"] ["Mallory"; "admin"] [] Hin).
  - reflexivity.
  - eexists. split; reflexivity.
Defined.

(** ** C4: submitting a request *)

Lemma dict_get_set {V} (d : list (string * V)) k v :
  dict_get String.eqb (dict_set String.eqb d k v) k = Some v.
Proof.
  induction d as [|[k' v'] d IH]; simpl.
  - by rewrite String.eqb_refl.
  - destruct (String.eqb k' k) eqn:E; simpl; by rewrite E.
Qed.

Lemma push_heap_perm objs0 h a : (push_heap objs0 h a).*2 ≡ₚ a :: h.*2.
Proof.
  unfold push_heap, heappush, _siftdown.
  rewrite length_app. simpl. replace (length h + 1 - 1) with (length h) by lia.
  rewrite list_lookup_total_middle by done.
  rewrite _siftdown_loop_perm; [|lia|rewrite length_app; simpl; lia].
  rewrite list_insert_id by (by apply list_lookup_middle).
  rewrite fmap_app. simpl. by rewrite <- Permutation_cons_append.
Qed.

(** What [create_request] does to the state. *)
Lemma create_request_spec s sid amt urg :
  let rid := "R" +:+ str_of_nat (req_counter s) in
  let addr := length (objs s) in
  let s' := (create_request s sid amt urg).2 in
  (create_request s sid amt urg).1 = rid
  ∧ objs s' = objs s ++ [mkReq rid sid amt urg "submitted"]
  ∧ dict_get String.eqb (requests_map s') rid = Some addr
  ∧ inorder (bst s') ≡ₚ addr :: inorder (bst s)
  ∧ (heap s').*2 ≡ₚ addr :: (heap s).*2
  ∧ req_counter s' = req_counter s + 1
  ∧ approved_q s' = approved_q s
  ∧ users_map s' = users_map s.
Proof.
  intros rid addr s'. split_and!; try done.
  - apply dict_get_set.
  - rewrite !inorder_flatten. apply flatten_insert.
  - apply push_heap_perm.
Qed.




(** ** C2, C3, C7: the web handlers decide without looking at the status *)

(** The state of the web application after R1 was submitted, reviewed and
    approved. *)
Definition approved_once : list Call :=
  [WebRegister (registration "s1" "Ana" "student");
   WebRegister (registration "a1" "Bo" "admin");
   WebSubmit (submission "s1" "100" "5");
   WebReview (review_by "a1");
   WebDecide (decision "R1" "approve")].

(** C2 at the failing input: R1 is approved already, and [admin_decide]
    approves it again and enqueues it a second time. *)
Lemma decide_approve_twice :
  let s := run (builtins := sample_builtins) approved_once (empty_state Missing) in
  status (objs s !!! 0) = "approved"
  ∧ approved_q s = [0]
  ∧ ∃ s',
      Web.admin_decide (builtins := sample_builtins) s (decision "R1" "approve")
      = (s', [Web.RequestApproved "R1"], Web.RedirectIndex)
      ∧ status (objs s' !!! 0) = "approved"
      ∧ approved_q s' = [0; 0].
Proof.
  intros s. split; [vm_compute; reflexivity|]. split; [vm_compute; reflexivity|].
  eexists. split; [vm_compute; reflexivity|]. split; vm_compute; reflexivity.
Qed.

(** C2 again: a funded request is approved anew. *)
Lemma decide_approve_funded :
  let s := run (builtins := sample_builtins)
             (approved_once
              ++ [WebRegister (registration "d1" "Cy" "donor");
                  WebDonate (donation "d1" "R1" "100")])
             (empty_state Missing) in
  status (objs s !!! 0) = "funded"
  ∧ ∃ s',
      Web.admin_decide (builtins := sample_builtins) s (decision "R1" "approve")
      = (s', [Web.RequestApproved "R1"], Web.RedirectIndex)
      ∧ status (objs s' !!! 0) = "approved".
Proof.
  intros s. split; [vm_compute; reflexivity|].
  eexists. split; [vm_compute; reflexivity|]. vm_compute. reflexivity.
Qed.

(** C3 at the failing input: R1 is approved and queued; [admin_decide] with
    any decision other than "approve" sets it to "rejected" and leaves it in
    the approved queue. *)
Lemma decide_reject_approved :
  let s := run (builtins := sample_builtins) approved_once (empty_state Missing) in
  status (objs s !!! 0) = "approved"
  ∧ approved_q s = [0]
  ∧ ∃ s',
      Web.admin_decide (builtins := sample_builtins) s (decision "R1" "reject")
      = (s', [Web.RequestRejected "R1"], Web.RedirectIndex)
      ∧ status (objs s' !!! 0) = "rejected"
      ∧ 0 ∈ approved_q s'.
Proof.
  intros s. split; [vm_compute; reflexivity|]. split; [vm_compute; reflexivity|].
  eexists. split; [vm_compute; reflexivity|]. split; [vm_compute; reflexivity|].
  apply (bool_decide_unpack _). vm_compute. exact I.
Qed.

(** C7 at the failing input: R1 was decided through [admin_decide] while it
    was still in the heap; [admin_review] then pops it and shows the
    decision form for it, without any "already handled" message. *)
Lemma review_returns_stale :
  let s := run (builtins := sample_builtins)
             [WebRegister (registration "s1" "Ana" "student");
              WebRegister (registration "a1" "Bo" "admin");
              WebSubmit (submission "s1" "100" "5");
              WebDecide (decision "R1" "approve")]
             (empty_state Missing) in
  status (objs s !!! 0) = "approved"
  ∧ (heap s).*2 = [0]
  ∧ ∃ s',
      Web.admin_review (builtins := sample_builtins) s (review_by "a1")
      = (s', [], Web.ReviewPage 0)
      ∧ heap s' = [].
Proof.
  intros s. split; [vm_compute; reflexivity|]. split; [vm_compute; reflexivity|].
  eexists. split; [vm_compute; reflexivity|]. vm_compute. reflexivity.
Qed.

(** *** The sibling path: what main.py does in the same situations *)

(** C7 on the command line: a popped request that is no longer "submitted"
    is reported as already handled, the decision is not asked for, the
    entry stays popped and nothing else changes. *)
Lemma cli_review_stale {builtins : Builtins} (s : State) (aid : string)
    (req : ref) (h : list entry) (lines rest : list string)
    (out : list Cli.Output) :
  has_role s aid "admin" = true →
  pop_heap (heap s) = (Some req, h) →
  match dict_get String.eqb (requests_map s) (req_id (objs s !!! req)) with
  | Some cur => status (objs s !!! cur) ≠ "submitted"
  | None => True
  end →
  reads lines [aid] rest →
  Cli.choice_3 (Cli.mkWorld s lines out)
  = Cli.Return tt (Cli.mkWorld (with_heap s h) rest (out ++ [Cli.AlreadyHandled])).
Proof.
  intros Hrole Hpop Hstale Hreads. cli_unfold. read_next.
  rewrite Hrole, Hpop. read_next. cbn [with_heap requests_map objs].
  destruct (dict_get _ _ _) as [cur|]; [|reflexivity].
  apply String.eqb_neq in Hstale. rewrite Hstale. reflexivity.
Qed.

(** The command line on a state where R1 was approved while still queued. *)
Example cli_review_stale_example :
  let s := run (builtins := sample_builtins)
             [WebRegister (registration "s1" "Ana" "student");
              WebRegister (registration "a1" "Bo" "admin");
              WebSubmit (submission "s1" "100" "5");
              WebDecide (decision "R1" "approve")]
             (empty_state Missing) in
  Cli.choice_3 (builtins := sample_builtins) (Cli.mkWorld s ["a1"; "y"] [])
  = Cli.Return tt (Cli.mkWorld (with_heap s []) ["y"] [Cli.AlreadyHandled]).
Proof. vm_compute. reflexivity. Qed.

(** The requests in the approved queue are exactly those with status
    "approved". *)
Definition queue_matches (s : State) : Prop :=
  ∀ a, a < length (objs s) →
       (a ∈ approved_q s ↔ status (objs s !!! a) = "approved").

Definition Sound (s : State) : Prop := Inv s ∧ queue_matches s.

Lemma Sound_same s s' :
  objs s' = objs s → requests_map s' = requests_map s → bst s' = bst s →
  heap s' = heap s → approved_q s' = approved_q s →
  req_counter s' = req_counter s →
  users_map s' = users_map s → users_set s' = users_set s →
  Sound s → Sound s'.
Proof.
  intros Ho Hm Hb Hh Hq Hc Hu Hus [HI HQ]. split.
  - apply (Inv_same s); try done; by rewrite ?Hu, ?Hus.
  - intros a. rewrite Ho, Hq. apply HQ.
Qed.

Lemma Sound_persist s : Sound s → Sound (persist s).
Proof. by apply Sound_same. Qed.

Lemma Sound_add_user s uid name role :
  uid ∉ users_set s → Sound s → Sound (add_user s uid name role).
Proof. intros Hnew [HI HQ]. split; [by apply Inv_add_user|done]. Qed.

Lemma Sound_pop s r h :
  Sound s → pop_heap (heap s) = (Some r, h) →
  Sound (with_heap s h) ∧ r < length (objs s).
Proof.
  intros [HI HQ] Hpop. destruct (Inv_pop s _ _ HI Hpop) as [HI' Hr].
  split; [by split|by apply Hr].
Qed.

Lemma Sound_create_request s sid amt urg :
  Sound s → Sound (create_request s sid amt urg).2.
Proof.
  intros [HI HQ]. split; [by apply Inv_create_request|].
  intros a. unfold create_request. simpl. rewrite length_app. simpl.
  intros Ha. destruct (decide (a = length (objs s))) as [->|Hne].
  - rewrite list_lookup_total_middle by done. simpl. split; [|done].
    intros Hin. pose proof (inv_queue s HI) as Hq.
    rewrite Forall_forall in Hq. apply Hq in Hin. lia.
  - rewrite lookup_total_app_l by lia. apply HQ. lia.
Qed.

Lemma Sound_approve s a : a < length (objs s) → Sound s → Sound (approve s a).
Proof.
  intros Ha [HI HQ]. split; [by apply Inv_approve|].
  intros b. simpl. rewrite set_status_length, set_status_status by done.
  intros Hb. unfold enqueue. rewrite elem_of_app, list_elem_of_singleton.
  destruct (decide (a = b)) as [->|Hne]; [by split; [|right]|].
  rewrite <- (HQ b Hb). split; [|by left]. by intros [?|?].
Qed.

(** Rejecting keeps the correspondence when the request was not approved. *)
Lemma Sound_reject s a :
  a < length (objs s) → status (objs s !!! a) ≠ "approved" →
  Sound s → Sound (reject s a).
Proof.
  intros Ha Hst [HI HQ]. split; [by apply Inv_reject|].
  intros b. simpl. rewrite set_status_length, set_status_status by done.
  intros Hb. destruct (decide (a = b)) as [->|Hne]; [|by apply HQ].
  split; [|done]. intros Hin. by apply HQ in Hin.
Qed.

Lemma Sound_fund s a rid :
  a < length (objs s) → req_id (objs s !!! a) = rid →
  Sound s → Sound (fund s a rid).
Proof.
  intros Ha Hid [HI HQ]. split; [by apply Inv_fund|].
  intros b. simpl. rewrite set_status_length, set_status_status by done.
  intros Hb. unfold without_id. rewrite list_elem_of_filter, set_status_req_id.
  destruct (decide (a = b)) as [->|Hne].
  - split; [by intros [? _]|done].
  - rewrite (HQ b Hb). split; [by intros [_ ?]|]. intros Hst.
    split; [|done]. intros Heq. apply Hne.
    pose proof (inv_ids s HI) as Hnd.
    eapply (NoDup_lookup _ a b _ Hnd); rewrite list_lookup_fmap.
    + by rewrite (list_lookup_lookup_total_lt _ _ Ha).
    + rewrite (list_lookup_lookup_total_lt _ _ Hb). simpl. congruence.
Qed.

Lemma Sound_lookup s k a :
  Sound s → dict_get String.eqb (requests_map s) k = Some a →
  a < length (objs s) ∧ req_id (objs s !!! a) = k.
Proof. intros [HI _]. by apply requests_map_lookup. Qed.

(** A key of [requests_map] that is the id of [a] leads back to [a]. *)
Lemma requests_map_own_id s a cur :
  Inv s → a < length (objs s) →
  dict_get String.eqb (requests_map s) (req_id (objs s !!! a)) = Some cur →
  cur = a.
Proof.
  intros HI Ha Hget. destruct (requests_map_lookup s _ _ HI Hget) as [Hc Hid].
  pose proof (inv_ids s HI) as Hnd.
  eapply (NoDup_lookup _ cur a _ Hnd); rewrite list_lookup_fmap.
  - by rewrite (list_lookup_lookup_total_lt _ _ Hc).
  - rewrite (list_lookup_lookup_total_lt _ _ Ha). simpl. congruence.
Qed.

Lemma Sound_boot {builtins : Builtins} us rs d s :
  users_wf us → requests_wf rs → boot us rs d = Ok s → Sound s.
Proof.
  intros Hu Hr Hboot. split; [by eapply Inv_boot|].
  destruct (boot_fields us rs d s Hu Hr Hboot) as (Ho & _ & _ & Hre & _).
  destruct Hre as (_ & _ & _ & _ & _ & Hq). simpl in Hq.
  intros a. rewrite Ho, Hq. intros Ha. rewrite list_elem_of_filter.
  split; [by intros [? _]|]. intros Hst. split; [done|].
  apply elem_of_seq. rewrite length_fmap in Ha. lia.
Qed.

Lemma Sound_startup {builtins : Builtins} d s : startup d = Started s → Sound s.
Proof.
  intros (us & rs & Hu & Hr & Hboot)%startup_boot. by eapply Sound_boot.
Qed.

Ltac sound_facts :=
  repeat match goal with
  | H : pop_heap (heap ?s) = (Some ?r, ?h), HG : Sound ?s |- _ =>
      let H1 := fresh in let H2 := fresh in
      destruct (Sound_pop s r h HG H) as [H1 H2]; clear H
  | H : create_request ?s ?a ?b ?c = (_, _), HG : Sound ?s |- _ =>
      let X := fresh in
      pose proof (Sound_create_request s a b c HG) as X;
      rewrite H in X; simpl in X; clear H
  | H : dict_get String.eqb (requests_map ?s) (req_id (objs ?s !!! ?r)) = Some ?c,
    HG : Sound ?s, Hr : ?r < length (objs _) |- _ =>
      let E := fresh in
      assert (c = r) as E
        by (exact (requests_map_own_id s r c (proj1 HG) Hr H));
      subst c; clear H
  | H : dict_get String.eqb (requests_map ?s) ?k = Some ?a, HG : Sound ?s |- _ =>
      let H1 := fresh in let H2 := fresh in
      destruct (Sound_lookup s k a HG H) as [H1 H2]; clear H
  | H : negb (String.eqb ?x ?y) = false |- _ =>
      apply negb_false_iff, String.eqb_eq in H
  end.

Ltac sound_solve :=
  sound_facts;
  repeat first [ assumption | apply Sound_persist
               | apply Sound_add_user;
                 [eapply bool_decide_eq_false_1; eassumption|]
               | apply Sound_reject;
                 [simpl; assumption|simpl in *; congruence|]
               | apply Sound_fund; [simpl; assumption|simpl; assumption|]
               | apply Sound_approve; [simpl; assumption|] ].

Section SoundSteps.
Context {builtins : Builtins}.

Lemma Sound_menu : keeps Sound Cli.menu.
Proof.
  unfold Cli.menu, Cli.choice_1, Cli.choice_2, Cli.choice_3, Cli.choice_4,
    Cli.choice_5.
  repeat keeps_step; try sound_solve. by intros w Hw.
Qed.

End SoundSteps.

Section SoundCalls.
Context {builtins : Builtins}.

(** A web Decide whose decision is not "approve", that is a rejection. *)
Definition rejects (c : Call) : Prop :=
  match c with
  | WebDecide form => Web.form_get form "decision" "no" ≠ "approve"
  | _ => False
  end.

(** Every call keeps the correspondence between the approved queue and the
    status "approved", except a rejection through the web handler
    [admin_decide], which does not look at the status. *)
Lemma Sound_call s c : ¬ rejects c → Sound s → Sound (call s c).
Proof.
  intros Hc HG. destruct c as [form|form|form|form|form|lines]; simpl.
  - unfold Web.register. destruct (_ || _); [done|].
    case_bool_decide; [done|]. by apply Sound_persist, Sound_add_user.
  - unfold Web.submit. destruct (negb _); [done|].
    destruct (float_of_str _) as [amt|]; [|done].
    destruct (int_of_str _) as [urg|]; [|done].
    destruct (create_request _ _ _ _) as [rid s'] eqn:E. simpl. sound_solve.
  - unfold Web.admin_review. destruct (negb _); [done|].
    destruct (pop_heap _) as [[r|] h] eqn:E; [|done]. simpl. sound_solve.
  - unfold Web.admin_decide.
    destruct (dict_get _ _ _) as [req|] eqn:E; [|done].
    destruct (String.eqb _ _) eqn:Hd; simpl; [sound_solve|].
    apply String.eqb_neq in Hd. by destruct Hc.
  - unfold Web.donate. destruct (float_of_str _); [|done].
    destruct (negb _); [done|].
    destruct (dict_get _ _ _) as [req|] eqn:E; [|done].
    destruct (negb _); [done|]. destruct (float_ge _ _); simpl; sound_solve.
  - apply (Sound_menu (Cli.mkWorld s lines []) HG).
Qed.

(** In particular the correspondence holds all along a run of main.py. *)
Lemma Sound_run d s0 cs :
  startup d = Started s0 → Forall (λ c, ¬ rejects c) cs → Sound (run cs s0).
Proof.
  intros Hstart Hcs. apply Sound_startup in Hstart. revert s0 Hstart.
  induction Hcs as [|c cs Hc _ IH]; intros s0 Hs0; [done|].
  simpl. apply IH. by apply Sound_call.
Qed.

End SoundCalls.

(** C2 on the command line: a turn approves a request only if its status
    was "submitted"; the request is then set to "approved" and enqueued,
    and it was not in the approved queue before. *)
Lemma cli_approval_guarded {builtins : Builtins} (s : State)
    (lines : list string) (rid : string) :
  Sound s →
  let w' := world_of (Cli.menu (Cli.mkWorld s lines [])) in
  Cli.Approved rid ∈ Cli.stdout w' →
  ∃ a, a < length (objs s)
       ∧ req_id (objs s !!! a) = rid
       ∧ status (objs s !!! a) = "submitted"
       ∧ status (objs (Cli.engine w') !!! a) = "approved"
       ∧ (a ∉ approved_q s)
       ∧ approved_q (Cli.engine w') = approved_q s ++ [a].
Proof.
  intros HS w'. subst w'. cli_run; intros Hin;
    repeat match goal with
    | H : _ ∈ _ ++ _ |- _ => apply elem_of_app in H as [H|H]
    | H : _ ∈ _ :: _ |- _ => apply elem_of_cons in H as [H|H]
    | H : _ ∈ [] |- _ => by apply elem_of_nil in H
    end; try discriminate.
  injection Hin as ->.
  match goal with
  | H : pop_heap _ = (Some ?r, ?h) |- _ =>
      destruct (Sound_pop s r h HS H) as [HS' Hr]; exists r
  end.
  sound_facts. destruct HS as [HI HQ]. simpl in *.
  split_and!; try done.
  - by rewrite set_status_req_id.
  - rewrite set_status_status by done. by rewrite decide_True.
  - intros Hq. apply HQ in Hq; [|done]. congruence.
Qed.

(** * Further properties of the code *)

(** ** The urgency queue hands out the requests by priority *)

(** [while heap: out.append(pop_heap(heap))], for at most [n] rounds. *)
Fixpoint pop_all (n : nat) (heap : list entry) : list ref :=
  match n with
  | 0 => []
  | S n' =>
      match pop_heap heap with
      | (Some req, heap') => req :: pop_all n' heap'
      | (None, _) => []
      end
  end.

(** [a] has priority over [b] or ties with it: its urgency is higher, or
    the urgencies are equal and its id is not the larger string. *)
Definition outranks (objs : list (FundingRequest string)) (a b : ref) : Prop :=
  (urgency (objs !!! b) < urgency (objs !!! a))%Z
  ∨ (urgency (objs !!! a) = urgency (objs !!! b)
     ∧ string_le (req_id (objs !!! a)) (req_id (objs !!! b))).

(** The entry that [push_heap] builds for a request. *)
Definition entry_of (objs : list (FundingRequest string)) (a : ref) : entry :=
  ((- urgency (objs !!! a))%Z, req_id (objs !!! a), a).

Lemma push_all_spec objs rs h :
  heap_ordered entry_lt h →
  heap_ordered entry_lt (fold_left (push_heap objs) rs h)
  ∧ fold_left (push_heap objs) rs h ≡ₚ h ++ (entry_of objs <$> rs).
Proof.
  revert h. induction rs as [|r rs IH]; intros h Hh; simpl.
  - by rewrite app_nil_r.
  - destruct (heappush_spec entry_lt entry_lt_irrefl entry_lt_asym
                entry_le_trans h (entry_of objs r) Hh) as [Ho Hp].
    destruct (IH (push_heap objs h r) Ho) as [Ho' Hp'].
    split; [done|]. rewrite Hp'. unfold push_heap. fold (entry_of objs r).
    rewrite Hp. by rewrite <- Permutation_middle.
Qed.

Lemma pop_all_spec objs n h :
  heap_ordered entry_lt h → length h ≤ n →
  Forall (λ e, e = entry_of objs e.2) h →
  pop_all n h ≡ₚ h.*2 ∧ StronglySorted (outranks objs) (pop_all n h).
Proof.
  revert h. induction n as [|n IH]; intros h Hh Hlen Hk.
  - destruct h; [|simpl in Hlen; lia]. split; [done|constructor].
  - pose proof (pop_heap_spec h Hh) as Hpop. simpl.
    destruct (pop_heap h) as [[a|] h'].
    + destruct Hpop as (e & <- & Hp & Ho & Hleast).
      assert (length h' ≤ n) as Hlen'.
      { apply Permutation_length in Hp. simpl in Hp. lia. }
      assert (Forall (λ e, e = entry_of objs e.2) h') as Hk'.
      { rewrite Hp in Hk. by apply Forall_cons in Hk as [_ ?]. }
      destruct (IH h' Ho Hlen' Hk') as [IHp IHs]. split.
      * rewrite IHp, Hp. done.
      * constructor; [done|]. rewrite IHp. apply Forall_forall.
        intros b Hb. apply list_elem_of_fmap in Hb as (e' & -> & He').
        assert (e' ∈ h) as Hin by (rewrite Hp; by right).
        specialize (Hleast e' Hin). apply entry_lt_false in Hleast.
        rewrite Forall_forall in Hk.
        rewrite (Hk e' Hin), (Hk e) in Hleast by (rewrite Hp; by left).
        unfold entry_of in Hleast. simpl in Hleast. unfold outranks.
        destruct Hleast as [H|[H1 H2]]; [left; lia|right]. split; [lia|done].
    + destruct Hpop as [-> _]. split; [done|constructor].
Qed.

(** Different requests have different ids.  Then two entries never tie on
    urgency and id unless they are entries of one request, and [heapq]
    never has to compare two [FundingRequest] objects. *)
Definition distinct_ids (objs : list (FundingRequest string))
    (rs : list ref) : Prop :=
  ∀ a b, a ∈ rs → b ∈ rs →
    req_id (objs !!! a) = req_id (objs !!! b) → a = b.

(** X1.  Push any requests with pairwise different ids, in any order, onto
    an empty heap and pop until the heap is empty: every request pushed
    comes out exactly once, a request of higher urgency before one of lower
    urgency, and of two requests of equal urgency the one whose id is the
    smaller string first.  Rounds beyond the number of requests pop nothing
    more. *)
Theorem heap_drains_by_priority (objs : list (FundingRequest string))
    (rs : list ref) (n : nat) :
  distinct_ids objs rs →
  let heap := fold_left (push_heap objs) rs [] in
  let out := pop_all (length rs + n) heap in
  out ≡ₚ rs ∧ StronglySorted (outranks objs) out.
Proof.
  intros _ heap out.
  destruct (push_all_spec objs rs []) as [Ho Hp].
  { intros i Hi. simpl in Hi. lia. }
  simpl in Hp. fold heap in Ho, Hp.
  destruct (pop_all_spec objs (length rs + n) heap Ho) as [Hq Hs].
  - rewrite Hp, length_fmap. lia.
  - rewrite Hp. apply Forall_forall. intros e He.
    apply list_elem_of_fmap in He as (a & -> & _). done.
  - split; [|done]. fold out in Hq. rewrite Hq, Hp.
    rewrite <- list_fmap_compose. clear. induction rs as [|r rs IH]; [done|].
    simpl. by rewrite IH.
Qed.

(** Four requests pushed in the order R1, R2, R3, R10: the urgent R3 is
    popped first, then R10, R2 (urgency 5, by id as strings), then R1. *)
Lemma heap_drains_by_priority_witness :
  let objs := [mkReq "R1" "s" (Finite 10) 1%Z "submitted";
               mkReq "R2" "s" (Finite 10) 5%Z "submitted";
               mkReq "R3" "s" (Finite 10) 9%Z "submitted";
               mkReq "R10" "s" (Finite 10) 5%Z "submitted"] in
  let rs := [0; 1; 2; 3] in
  let out := pop_all (length rs + 2) (fold_left (push_heap objs) rs []) in
  distinct_ids objs rs
  ∧ out = [2; 3; 1; 0]
  ∧ out ≡ₚ rs ∧ StronglySorted (outranks objs) out.
Proof.
  intros objs rs out.
  assert (distinct_ids objs rs) as Hd.
  { intros a b Ha Hb. unfold rs in Ha, Hb.
    repeat (apply elem_of_cons in Ha as [->|Ha]);
      try (by apply elem_of_nil in Ha);
      repeat (apply elem_of_cons in Hb as [->|Hb]);
      try (by apply elem_of_nil in Hb); vm_compute; congruence. }
  split; [exact Hd|]. split; [reflexivity|].
  exact (heap_drains_by_priority objs rs 2 Hd).
Defined.

(** ** The approved queue is first in, first out *)

(** [dequeue] called [n] times: the requests returned, oldest call first
    (a call on the empty queue returns [None] and contributes nothing), and
    the queue that is left. *)
Fixpoint dequeue_n (n : nat) (q : list ref) : list ref * list ref :=
  match n with
  | 0 => ([], q)
  | S n' =>
      match dequeue q with
      | (Some x, q') => let '(out, q'') := dequeue_n n' q' in (x :: out, q'')
      | (None, q') => dequeue_n n' q'
      end
  end.

Lemma dequeue_n_spec n q : dequeue_n n q = (take n q, drop n q).
Proof.
  revert q. induction n as [|n IH]; intros q; simpl; [by rewrite drop_0|].
  destruct q as [|x q]; simpl; rewrite IH; [|done].
  by rewrite take_nil, drop_nil.
Qed.

(** X2.  Enqueue any requests on a queue and dequeue: the requests come out
    in the order in which they went in, those already in the queue first;
    on the empty queue [dequeue] returns [None] and leaves it empty, however
    often it is called. *)
Theorem queue_is_fifo (q rs : list ref) (n : nat) :
  let q' := fold_left enqueue rs q in
  dequeue_n n q' = (take n (q ++ rs), drop n (q ++ rs))
  ∧ dequeue_n (length q + length rs + n) q' = (q ++ rs, make_queue)
  ∧ dequeue make_queue = (None, make_queue).
Proof.
  intros q'. assert (q' = q ++ rs) as ->.
  { subst q'. revert q. induction rs as [|r rs IH]; intros q; simpl.
    - by rewrite app_nil_r.
    - rewrite IH. unfold enqueue. by rewrite <- app_assoc. }
  rewrite !dequeue_n_spec. split_and!; [done| |done].
  rewrite take_ge, drop_ge by (rewrite length_app; lia). done.
Qed.

(** ** Where the tree puts a new request *)








(** ** When load_state returns *)

(** A record that [load_state] can store: a dict with an "id" whose value
    can be a dict key. *)
Definition record_loads (x : json) : bool :=
  match x with
  | JDict d =>
      match dict_get String.eqb d "id" with
      | Some k => hashable k
      | None => false
      end
  | _ => false
  end.

(** A value that the loop of [load_state] can go through: it can be
    iterated and yields such records only. *)
Definition records_load (x : json) : bool :=
  match py_iter x with
  | Ok l => forallb record_loads l
  | Raise _ => false
  end.

(** A payload on which [load_state] returns: a dict whose "users" and
    "requests", where present, are such values. *)
Definition payload_loads (p : json) : bool :=
  match p with
  | JDict d =>
      records_load (default (JList []) (dict_get String.eqb d "users"))
      && records_load (default (JList []) (dict_get String.eqb d "requests"))
  | _ => false
  end.

Lemma for_each_returns {A St} (body : St → A → result St) (f : A → bool) l acc :
  (∀ acc x, (∃ acc', body acc x = Ok acc') ↔ f x = true) →
  (∃ r, for_each l acc body = Ok r) ↔ forallb f l = true.
Proof.
  intros Hbody. revert acc. induction l as [|x l IH]; intros acc; simpl.
  - split; [done|]. intros _. by eexists.
  - unfold mbind, result_bind, rbind. rewrite andb_true_iff, <- (Hbody acc x).
    destruct (body acc x) as [acc'|e] eqn:E.
    + rewrite IH. split; [intros H; split; [by eexists|done]|by intros [_ ?]].
    + split; [by intros [? ?]|]. by intros [[? ?] _].
Qed.

Section Returns.
Context {builtins : Builtins}.

Lemma load_user_returns acc u :
  (∃ acc', load_user acc u = Ok acc') ↔ record_loads u = true.
Proof.
  unfold load_user, record_loads, mbind, result_bind, rbind, py_setitem.
  destruct u as [| | | | | |d]; simpl; try (split; [by intros [? ?]|done]).
  destruct (dict_get String.eqb d "id") as [k|]; simpl;
    [|split; [by intros [? ?]|done]].
  destruct (dict_get String.eqb d "name"), (dict_get String.eqb d "role");
    simpl; destruct (hashable k);
    (split; [by intros [? ?] || done|try done; intros _; by eexists]).
Qed.

Lemma load_request_returns acc r :
  (∃ acc', load_request acc r = Ok acc') ↔ record_loads r = true.
Proof.
  unfold load_request, record_loads, mbind, result_bind, rbind, py_setitem.
  destruct r as [| | | | | |d]; simpl; try (split; [by intros [? ?]|done]).
  destruct (dict_get String.eqb d "id") as [k|]; simpl;
    [|split; [by intros [? ?]|done]].
  destruct (dict_get String.eqb d "student_id"),
    (dict_get String.eqb d "status");
    simpl; destruct (hashable k);
    (split; [by intros [? ?] || done|try done; intros _; by eexists]).
Qed.

End Returns.

(** X4.  Whether [load_state] returns or raises on a file that holds JSON
    depends on the shape of the payload only: it returns exactly when the
    payload is an object, the values under "users" and "requests" (when
    present) can be iterated, and every item they yield is an object with an
    "id" that can be a dict key.  The other fields, missing, ill-typed or
    unparsable, never make it raise. *)
Theorem load_state_returns_iff {builtins : Builtins} (payload : json) :
  (∃ maps, load_state (Content payload) = Ok maps)
  ↔ payload_loads payload = true.
Proof.
  unfold load_state, payload_loads, records_load, mbind, result_bind, rbind.
  destruct payload as [| | | | | |d]; simpl; try (split; [by intros [? ?]|done]).
  rewrite andb_true_iff.
  destruct (dict_get String.eqb d "users") as [u|]; simpl;
    destruct (dict_get String.eqb d "requests") as [r|]; simpl.
  all: repeat match goal with
       | |- context [py_iter ?x] => destruct (py_iter x) as [?|?] eqn:?
       end; simpl in *; simplify_eq.
  all: try (split; [by intros [? ?]|by intros [? ?]]).
  all: pose proof (λ l, for_each_returns load_user record_loads l []
                          load_user_returns) as Hu.
  all: pose proof (λ l, for_each_returns load_request record_loads l []
                          load_request_returns) as Hr.
  all: repeat match goal with
       | |- context [for_each ?l [] ?body] =>
           destruct (for_each l [] body) as [?|?] eqn:?
       end.
  all: split;
    [ intros [maps Hm]; try discriminate; split; try done;
      first [ apply Hu; eexists; eassumption | apply Hr; eexists; eassumption ]
    | intros [H1 H2]; try done; try (by eexists);
      first [ apply Hu in H1 as [? ?]; congruence
            | apply Hr in H2 as [? ?]; congruence ] ].
Qed.

(** ** Records that share an id *)

(** The record [u] of the file has the string [k] as its id. *)
Definition has_id (k : string) (u : json) : bool :=
  match py_getitem u "id" with
  | Ok i => key_eqb i (JStr k)
  | Raise _ => false
  end.

Lemma key_eqb_str_r x k : key_eqb x (JStr k) = true → x = JStr k.
Proof.
  destruct x; simpl; try done. intros H. apply String.eqb_eq in H. by subst.
Qed.

Lemma dict_get_set_str {V} (d : list (json * V)) kn v k :
  dict_get key_eqb (dict_set key_eqb d kn v) (JStr k)
  = if key_eqb kn (JStr k) then Some v else dict_get key_eqb d (JStr k).
Proof.
  induction d as [|[k' v'] d IH]; simpl; [done|].
  destruct (key_eqb k' kn) eqn:E; simpl.
  - destruct (key_eqb kn (JStr k)) eqn:E1.
    + apply key_eqb_str_r in E1. subst kn. by rewrite E.
    + destruct (key_eqb k' (JStr k)) eqn:E2; [|done].
      apply key_eqb_str_r in E2. subst k'.
      apply key_eqb_str_l in E. subst kn. simpl in E1.
      by rewrite String.eqb_refl in E1.
  - rewrite IH. destruct (key_eqb k' (JStr k)) eqn:E2; [|done].
    destruct (key_eqb kn (JStr k)) eqn:E1; [|done].
    apply key_eqb_str_r in E1, E2. subst. simpl in E.
    by rewrite String.eqb_refl in E.
Qed.

(** The loop of [load_state], for a body that stores under the id of the
    record a value built from the record alone: under a string key the dict
    ends up with the value of the last record that has the key as id. *)
Lemma for_each_last {V} (body : list (json * V) → json → result (list (json * V)))
    (value : json → option V) l acc m k :
  (∀ acc x acc', body acc x = Ok acc' →
     ∃ i v, py_getitem x "id" = Ok i ∧ value x = Some v
            ∧ acc' = dict_set key_eqb acc i v) →
  for_each l acc body = Ok m →
  dict_get key_eqb m (JStr k)
  = match last (filter (λ u, has_id k u = true) l) with
    | Some u => value u
    | None => dict_get key_eqb acc (JStr k)
    end.
Proof.
  intros Hbody. revert acc. induction l as [|x l IH]; intros acc; simpl.
  - by intros [= <-].
  - unfold mbind, result_bind, rbind.
    destruct (body acc x) as [acc'|] eqn:E; [|done]. intros Hm.
    rewrite (IH acc' Hm). clear IH Hm.
    destruct (Hbody acc x acc' E) as (i & v & Hi & Hv & ->).
    assert (has_id k x = key_eqb i (JStr k)) as Hx
      by (unfold has_id; by rewrite Hi).
    rewrite filter_cons, dict_get_set_str, Hx.
    destruct (key_eqb i (JStr k)) eqn:Ek.
    + rewrite decide_True by done. rewrite last_cons.
      by destruct (last (filter _ l)).
    + by rewrite decide_False by done.
Qed.

Section LastWins.
Context {builtins : Builtins}.

(** The [User] that [load_state] builds from a record. *)
Definition user_of_record (u : json) : option (User json) :=
  match load_user [] u with
  | Ok [(_, v)] => Some v
  | _ => None
  end.

(** The [FundingRequest] that [load_state] builds from a record. *)
Definition request_of_record (r : json) : option (FundingRequest json) :=
  match load_request [] r with
  | Ok [(_, v)] => Some v
  | _ => None
  end.

Lemma load_user_stores acc u acc' :
  load_user acc u = Ok acc' →
  ∃ i v, py_getitem u "id" = Ok i ∧ user_of_record u = Some v
         ∧ acc' = dict_set key_eqb acc i v.
Proof.
  unfold user_of_record, load_user, mbind, result_bind, rbind, py_setitem.
  destruct (py_getitem u "id") as [i|]; [|done].
  destruct (py_get u "name" _) as [name|]; [|done].
  destruct (py_get u "role" _) as [role|]; [|done].
  destruct (hashable i); [|done]. intros [= <-]. by eexists _, _.
Qed.

Lemma load_request_stores acc r acc' :
  load_request acc r = Ok acc' →
  ∃ i v, py_getitem r "id" = Ok i ∧ request_of_record r = Some v
         ∧ acc' = dict_set key_eqb acc i v.
Proof.
  unfold request_of_record, load_request, mbind, result_bind, rbind, py_setitem.
  destruct (py_getitem r "id") as [i|]; [|done].
  destruct (py_get r "student_id" _) as [sid|]; [|done].
  destruct (py_get r "status" _) as [st|]; [|done].
  destruct (hashable i); [|done]. intros [= <-]. by eexists _, _.
Qed.

End LastWins.

(** X5.  When the file lists several records with the same (string) id,
    [load_state] keeps one entry for the id, and it holds the last of those
    records: looking an id up in the loaded users (requests) gives the user
    (request) built from the last record of the file with that id, and
    nothing when no record has it.  No string id is a key twice. *)
Theorem load_state_last_record_wins {builtins : Builtins} (payload : json)
    (users requests : list json) us rs (k : string) :
  load_state (Content payload) = Ok (us, rs) →
  py_get payload "users" (JList []) = Ok (JList users) →
  py_get payload "requests" (JList []) = Ok (JList requests) →
  dict_get key_eqb us (JStr k)
  = last (filter (λ u, has_id k u = true) users) ≫= user_of_record
  ∧ dict_get key_eqb rs (JStr k)
    = last (filter (λ r, has_id k r = true) requests) ≫= request_of_record
  ∧ NoDup (str_keys us) ∧ NoDup (str_keys rs).
Proof.
  intros Hload Hu Hr.
  destruct (load_state_wf _ _ _ Hload) as [[Hndu _] [Hndr _]].
  unfold load_state in Hload. rewrite Hu, Hr in Hload.
  unfold mbind, result_bind, rbind in Hload. cbn [py_iter] in Hload.
  destruct (for_each users [] load_user) as [um|] eqn:Eu; [|done].
  destruct (for_each requests [] load_request) as [rm|] eqn:Er; [|done].
  injection Hload as <- <-. split_and!; [| |done|done].
  - rewrite (for_each_last load_user user_of_record users [] um k
               load_user_stores Eu).
    by destruct (last _).
  - rewrite (for_each_last load_request request_of_record requests [] rm k
               load_request_stores Er).
    by destruct (last _).
Qed.

(** A file with two records for the user u1. *)
Lemma load_state_last_record_wins_witness :
  let users := [JDict [("id", JStr "u1"); ("name", JStr "Ana")];
                JDict [("id", JStr "u2"); ("name", JStr "Bo")];
                JDict [("id", JStr "u1"); ("name", JStr "Cy");
                       ("role", JStr "donor")]] in
  let payload := JDict [("users", JList users)] in
  let us := [(JStr "u1", mkUser (JStr "u1") (JStr "Cy") (JStr "donor"));
             (JStr "u2", mkUser (JStr "u2") (JStr "Bo") (JStr "student"))] in
  load_state (builtins := sample_builtins) (Content payload) = Ok (us, [])
  ∧ dict_get key_eqb us (JStr "u1")
    = last (filter (λ u, has_id "u1" u = true) users) ≫= user_of_record
  ∧ dict_get key_eqb [] (JStr "u1")
    = last (filter (λ r, has_id "u1" r = true) [])
      ≫= request_of_record (builtins := sample_builtins)
  ∧ NoDup (str_keys us)
  ∧ NoDup (str_keys ([] : list (json * FundingRequest json))).
Proof.
  intros users payload us. split; [reflexivity|].
  apply (load_state_last_record_wins (builtins := sample_builtins) payload
           users [] us [] "u1"); reflexivity.
Defined.

(** ** Request ids and the user registry *)

(** X6.  In every state of a run the id that the next submission takes,
    R<counter>, is not in use, whatever ids the data file held at start-up:
    the submission adds an entry at the end of the request map and a new
    object to the store, and every request that was there is found under
    its id as before, unchanged. *)
Theorem request_ids_are_fresh {builtins : Builtins} (s : State) (sid : string)
    (amt : float) (urg : Z) :
  reachable s →
  let rid := "R" +:+ str_of_nat (req_counter s) in
  let s' := (create_request s sid amt urg).2 in
  dict_get String.eqb (requests_map s) rid = None
  ∧ requests_map s' = requests_map s ++ [(rid, length (objs s))]
  ∧ objs s' = objs s ++ [mkReq rid sid amt urg "submitted"]
  ∧ ∀ k a, dict_get String.eqb (requests_map s) k = Some a →
      dict_get String.eqb (requests_map s') k = Some a
      ∧ objs s' !!! a = objs s !!! a.
Proof.
  intros Hs rid s'. apply reachable_Inv in Hs.
  assert (rid ∉ (requests_map s).*1) as Hfresh.
  { rewrite requests_map_keys by done. by apply (inv_fresh s Hs). }
  assert (requests_map s' = requests_map s ++ [(rid, length (objs s))]) as Hm.
  { subst s'. unfold create_request. cbn [snd requests_map].
    by apply dict_set_fresh. }
  split_and!; [by apply dict_get_None|done|done|].
  intros k a Hget. destruct (requests_map_lookup s k a Hs Hget) as [Ha Hid].
  split.
  - rewrite Hm. apply dict_get_elem.
    + rewrite fmap_app. apply NoDup_app. split_and!.
      * rewrite requests_map_keys by done. apply (inv_ids s Hs).
      * intros x Hx Hx'. apply list_elem_of_singleton in Hx'. simpl in Hx'.
        by subst.
      * apply NoDup_singleton.
    + apply elem_of_app. left. by apply dict_get_Some_elem.
  - subst s'. unfold create_request. cbn [snd objs].
    by rewrite lookup_total_app_l.
Qed.

(** After a start on a file that holds the requests R3 and R7 the next id
    is R8. *)
Lemma request_ids_are_fresh_witness :
  let d := Content (JDict [("requests",
             JList [JDict [("id", JStr "R3")]; JDict [("id", JStr "R7")]])]) in
  ∃ s, startup (builtins := sample_builtins) d = Started s
    ∧ req_counter s = 8
    ∧ dict_get String.eqb (requests_map s) "R8" = None
    ∧ requests_map (create_request s "s1" (Finite 10) 1%Z).2
      = requests_map s ++ [("R8", 2)].
Proof.
  intros d. eexists. split; [reflexivity|]. split; [reflexivity|].
  match goal with |- context [create_request ?s _ _ _] => set (s0 := s) end.
  assert (reachable (builtins := sample_builtins) s0) as Hs
    by (apply (reachable_start d); reflexivity).
  destruct (request_ids_are_fresh (builtins := sample_builtins) s0 "s1" (Finite 10) 1%Z
              Hs) as (H1 & H2 & _).
  split; [exact H1|exact H2].
Defined.

(** No call removes or alters a registered user. *)
Lemma call_users_prefix {builtins : Builtins} (s : State) (c : Call) :
  Inv s → users_map s `prefix_of` users_map (call s c).
Proof.
  intros Hs.
  assert (∀ uid name role, uid ∉ users_set s →
            users_map s `prefix_of` users_map (add_user s uid name role))
    as Hadd.
  { intros uid name role Hnew. cbn [add_user users_map].
    rewrite dict_set_fresh; [by eexists|].
    rewrite (inv_users_set s Hs) in Hnew. by rewrite elem_of_list_to_set in Hnew. }
  destruct c as [form|form|form|form|form|lines]; simpl.
  - unfold Web.register. destruct (_ || _); [done|].
    case_bool_decide; [done|]. by apply Hadd.
  - unfold Web.submit. destruct (negb _); [done|].
    destruct (float_of_str _) as [amt|]; [|done].
    by destruct (int_of_str _) as [urg|].
  - unfold Web.admin_review. destruct (negb _); [done|].
    by destruct (pop_heap _) as [[r|] h].
  - unfold Web.admin_decide. destruct (dict_get _ _ _) as [req|]; [|done].
    by destruct (String.eqb _ _).
  - unfold Web.donate. destruct (float_of_str _); [|done].
    destruct (negb _); [done|]. destruct (dict_get _ _ _) as [req|]; [|done].
    destruct (negb _); [done|]. by destruct (float_ge _ _).
  - cli_run; simpl; try done.
    + match goal with
      | |- _ `prefix_of` dict_set _ _ ?uid (mkUser _ ?name ?role) =>
          apply (Hadd uid name role)
      end.
      eapply bool_decide_eq_false_1; eassumption.
    + match goal with
      | H : create_request _ _ _ _ = (_, ?s') |- _ =>
          apply (f_equal snd) in H; simpl in H; by subst s'
      end.
Qed.

(** X7.  In every state of a run the set of user ids and the user map agree:
    the ids in [users_set] are exactly the keys of [users_map], no id occurs
    twice and every user is stored under their own id.  No call and no turn
    removes or alters a registered user: the user map only grows at its
    end. *)
Theorem user_registry_grows {builtins : Builtins} (s : State) (c : Call) :
  reachable s →
  users_set s = list_to_set (dict_keys (users_map s))
  ∧ NoDup (dict_keys (users_map s))
  ∧ (∀ k u, dict_get String.eqb (users_map s) k = Some u → user_id u = k)
  ∧ users_map s `prefix_of` users_map (call s c).
Proof.
  intros Hs. apply reachable_Inv in Hs.
  destruct (inv_users s Hs) as [Hnd Hid].
  split_and!; [apply (inv_users_set s Hs)|done| |by apply call_users_prefix].
  intros k u Hget. apply dict_get_Some_elem in Hget.
  rewrite Forall_forall in Hid. by apply (Hid (k, u)).
Qed.

(** A registration on the web followed by one at the terminal. *)
Lemma user_registry_grows_witness :
  let s := run (builtins := sample_builtins)
             [WebRegister (registration "s1" "Ana" "student")]
             (empty_state Missing) in
  let c := CliTurn ["1"; "a1"; "Bo"; "Admin"] in
  users_map (call (builtins := sample_builtins) s c)
  = users_map s ++ [("a1", mkUser "a1" "Bo" "admin")]
  ∧ users_set s = list_to_set (dict_keys (users_map s))
  ∧ NoDup (dict_keys (users_map s))
  ∧ (∀ k u, dict_get String.eqb (users_map s) k = Some u → user_id u = k)
  ∧ users_map s `prefix_of` users_map (call (builtins := sample_builtins) s c).
Proof.
  intros s c. split; [reflexivity|].
  apply (user_registry_grows (builtins := sample_builtins) s c).
  apply reachable_fresh.
Defined.

(** ** The life cycle of a request *)

(** The steps that the status of a request may take. *)
Definition lifecycle (old new : string) : Prop :=
  new = old
  ∨ (old = "submitted" ∧ (new = "approved" ∨ new = "rejected"))
  ∨ (old = "approved" ∧ new = "funded").

(** From one store to a later one: no request is dropped, and a request
    keeps its id, student, amount and urgency; [step] says how its status
    may have changed. *)
Definition evolves (step : string → string → Prop)
    (old new : list (FundingRequest string)) : Prop :=
  length old ≤ length new
  ∧ ∀ a, a < length old →
      req_id (new !!! a) = req_id (old !!! a)
      ∧ student_id (new !!! a) = student_id (old !!! a)
      ∧ amount (new !!! a) = amount (old !!! a)
      ∧ urgency (new !!! a) = urgency (old !!! a)
      ∧ step (status (old !!! a)) (status (new !!! a)).

Lemma evolves_refl (step : string → string → Prop) objs0 :
  (∀ st, step st st) → evolves step objs0 objs0.
Proof. intros Hr. split; [done|]. intros a Ha. split_and!; first [done|apply Hr]. Qed.

Lemma evolves_app (step : string → string → Prop) objs0 r :
  (∀ st, step st st) → evolves step objs0 (objs0 ++ [r]).
Proof.
  intros Hr. split; [rewrite length_app; lia|]. intros a Ha.
  rewrite lookup_total_app_l by done. split_and!; first [done|apply Hr].
Qed.

Lemma evolves_set_status (step : string → string → Prop) objs0 a st :
  (∀ st, step st st) → a < length objs0 → step (status (objs0 !!! a)) st →
  evolves step objs0 (set_status objs0 a st).
Proof.
  intros Hr Ha Hst. split; [by rewrite set_status_length|]. intros b Hb.
  rewrite set_status_req_id, set_status_amount, set_status_urgency.
  rewrite set_status_status by done.
  split_and!; try done.
  - rewrite set_status_lookup. by case_decide as H; [destruct H as [-> _]|].
  - case_decide; [by subst|apply Hr].
Qed.

Lemma lifecycle_refl st : lifecycle st st.
Proof. by left. Qed.

(** A call of the web handler [admin_decide]. *)
Definition is_decide (c : Call) : bool :=
  match c with
  | WebDecide _ => true
  | _ => false
  end.

Lemma call_evolves {builtins : Builtins} (s : State) (c : Call) :
  Inv s →
  evolves (if is_decide c then λ _ _, True else lifecycle)
          (objs s) (objs (call s c)).
Proof.
  intros Hs.
  destruct c as [form|form|form|form|form|lines]; cbn [is_decide call].
  - unfold Web.register. destruct (_ || _); [by apply evolves_refl; left|].
    case_bool_decide; by apply evolves_refl; left.
  - unfold Web.submit. destruct (negb _); [by apply evolves_refl; left|].
    destruct (float_of_str _) as [amt|]; [|by apply evolves_refl; left].
    destruct (int_of_str _) as [urg|]; [|by apply evolves_refl; left].
    unfold create_request. simpl. by apply evolves_app; left.
  - unfold Web.admin_review. destruct (negb _); [by apply evolves_refl; left|].
    destruct (pop_heap _) as [[r|] h]; by apply evolves_refl; left.
  - unfold Web.admin_decide.
    destruct (dict_get _ _ _) as [req|] eqn:E; [|by apply evolves_refl].
    destruct (requests_map_lookup s _ _ Hs E) as [Hlt _].
    destruct (String.eqb _ _); simpl; by apply evolves_set_status.
  - unfold Web.donate.
    destruct (float_of_str _); [|by apply evolves_refl; left].
    destruct (negb _); [by apply evolves_refl; left|].
    destruct (dict_get _ _ _) as [req|] eqn:E; [|by apply evolves_refl; left].
    destruct (requests_map_lookup s _ _ Hs E) as [Hlt _].
    destruct (negb _) eqn:Hst; [by apply evolves_refl; left|].
    apply negb_false_iff, String.eqb_eq in Hst.
    destruct (float_ge _ _); simpl; [|by apply evolves_refl; left].
    apply evolves_set_status; [by left|done|]. right. right. done.
  - cli_run; simpl; try (by apply evolves_refl; left).
    all: try match goal with
      | H : create_request _ _ _ _ = (_, ?s') |- _ =>
          apply (f_equal snd) in H; simpl in H; subst s'; simpl;
          by apply evolves_app; left
      end.
    all: repeat match goal with
      | H : negb (String.eqb _ _) = false |- _ =>
          apply negb_false_iff, String.eqb_eq in H
      end.
    all: try match goal with
      | H : pop_heap (heap ?s0) = (Some ?r, ?h), HI : Inv ?s0 |- _ =>
          let HI' := fresh "HI'" in let Hr := fresh "Hr" in
          destruct (Inv_pop s0 _ _ HI H) as [HI' Hr];
          specialize (Hr r eq_refl)
      end.
    all: cbn [with_heap objs requests_map] in *.
    all: try match goal with
      | H : dict_get String.eqb (requests_map ?s0) (req_id (objs ?s0 !!! ?r))
            = Some ?cur, HI : Inv ?s0, Hr : ?r < length (objs ?s0) |- _ =>
          let E := fresh in
          assert (cur = r) as E
            by (exact (requests_map_own_id s0 r cur HI Hr H));
          subst cur
      end.
    all: try match goal with
      | H : dict_get String.eqb (requests_map ?s0) ?k = Some ?a, HI : Inv ?s0
        |- _ =>
          destruct (requests_map_lookup s0 k a HI H) as [? ?]
      end.
    all: simpl in *.
    all: apply evolves_set_status; [by left|done|].
    all: right; first [ by left; split; [|left] | by left; split; [|right]
                      | by right ].
Qed.

Lemma evolves_weaken (step step' : string → string → Prop) old new :
  (∀ a b, step a b → step' a b) → evolves step old new → evolves step' old new.
Proof.
  intros Himp [Hlen H]. split; [done|]. intros a Ha.
  destruct (H a Ha) as (? & ? & ? & ? & ?). split_and!; try done.
  by apply Himp.
Qed.

(** X8.  No call and no turn drops a request or changes the id, the student,
    the amount or the urgency of a request.  Apart from the web handler
    [admin_decide], which sets the status whatever it was, a call or turn
    only moves a status along the life cycle: from "submitted" to "approved"
    or "rejected", and from "approved" to "funded". *)
Theorem status_lifecycle {builtins : Builtins} (s : State) (c : Call) :
  reachable s →
  evolves (λ _ _, True) (objs s) (objs (call s c))
  ∧ (is_decide c = false → evolves lifecycle (objs s) (objs (call s c))).
Proof.
  intros Hs. apply reachable_Inv in Hs.
  pose proof (call_evolves s c Hs) as H. split.
  - eapply evolves_weaken; [|exact H]. done.
  - intros Hc. by rewrite Hc in H.
Qed.

(** A review at the terminal that approves R1. *)
Lemma status_lifecycle_witness :
  let s := run (builtins := sample_builtins)
             [WebRegister (registration "s1" "Ana" "student");
              WebRegister (registration "a1" "Bo" "admin");
              WebSubmit (submission "s1" "100" "5")]
             (empty_state Missing) in
  let c := CliTurn ["3"; "a1"; "y"] in
  status (objs s !!! 0) = "submitted"
  ∧ status (objs (call (builtins := sample_builtins) s c) !!! 0) = "approved"
  ∧ evolves (λ _ _, True) (objs s)
            (objs (call (builtins := sample_builtins) s c))
  ∧ (is_decide c = false →
     evolves lifecycle (objs s)
             (objs (call (builtins := sample_builtins) s c))).
Proof.
  intros s c. split; [reflexivity|]. split; [reflexivity|].
  apply (status_lifecycle (builtins := sample_builtins) s c).
  apply reachable_fresh.
Defined.

(** ** Every change is on disk *)







Section SavedSteps.
Context {builtins : Builtins}.




End SavedSteps.



(** ** Reading the terminal *)

(** A line that [strip] empties. *)
Definition blank {builtins : Builtins} (l : string) : Prop := str_strip l = "".

Lemma read_nonempty_blanks {builtins : Builtins} blanks lines :
  Forall blank blanks →
  Cli.read_nonempty (blanks ++ lines) = Cli.read_nonempty lines.
Proof.
  induction 1 as [|b blanks Hb _ IH]; [done|]. simpl.
  unfold blank in Hb. by rewrite Hb.
Qed.

Lemma read_nonempty_Some {builtins : Builtins} lines v rest :
  Cli.read_nonempty lines = Some (v, rest) →
  v ≠ "" ∧ ∃ blanks l, lines = blanks ++ l :: rest ∧ Forall blank blanks
                       ∧ v = str_strip l.
Proof.
  induction lines as [|l lines IH]; simpl; [done|].
  destruct (String.eqb (str_strip l) "") eqn:E.
  - apply String.eqb_eq in E. intros H.
    destruct (IH H) as (Hv & blanks & l' & -> & Hb & ->). split; [done|].
    exists (l :: blanks), l'. split_and!; try done. by constructor.
  - apply String.eqb_neq in E. intros [= <- <-]. split; [done|].
    by exists [], l.
Qed.

(** X10.  [input_nonempty] skips the lines that [strip] empties and returns
    the first other line, stripped, having read up to and including that
    line; it writes nothing and touches no variable.  It never returns the
    empty string.  When only blank lines are left the end of the input
    raises [EOFError]. *)
Theorem input_nonempty_skips_blank_lines {builtins : Builtins}
    (w : Cli.World) :
  match Cli.input_nonempty w with
  | Cli.Return v w' =>
      v ≠ ""
      ∧ (∃ blanks l, Cli.stdin w = blanks ++ l :: Cli.stdin w'
           ∧ Forall blank blanks ∧ v = str_strip l)
      ∧ Cli.engine w' = Cli.engine w ∧ Cli.stdout w' = Cli.stdout w
  | Cli.EOFError w' =>
      Forall blank (Cli.stdin w) ∧ Cli.stdin w' = []
      ∧ Cli.engine w' = Cli.engine w ∧ Cli.stdout w' = Cli.stdout w
  | Cli.SystemExit _ => False
  end.
Proof.
  unfold Cli.input_nonempty.
  destruct (Cli.read_nonempty (Cli.stdin w)) as [[v rest]|] eqn:E; simpl.
  - apply read_nonempty_Some in E as [Hv Hex]. by split_and!.
  - split_and!; try done. revert E.
    induction (Cli.stdin w) as [|l lines IH]; simpl; [by constructor|].
    destruct (String.eqb (str_strip l) "") eqn:El; [|done].
    apply String.eqb_eq in El. intros H. constructor; [done|by apply IH].
Qed.

(** ** The loop of main.py ends *)

Section Loop.
Context {builtins : Builtins}.






End Loop.






(** [isdigit] holds of more than the digits 0 to 9 (of the superscript two,
    for one) and [int] refuses some of what [isdigit] accepts.  With such
    builtins a request id made of "R" and the superscript two stops the
    program at start-up. *)
Definition superscript_isdigit (s : string) : bool :=
  ascii_isdigit s || String.eqb s "²".

Lemma superscript_isdigit_str_of_nat n :
  superscript_isdigit (str_of_nat n) = true.
Proof. unfold superscript_isdigit. by rewrite ascii_isdigit_str_of_nat. Qed.

Definition superscript_builtins : Builtins := {|
  str_strip := ascii_strip;
  str_lower := ascii_lower;
  str_isdigit := superscript_isdigit;
  float_of_str := float_literal;
  int_of_str := int_literal;
  isdigit_str_of_nat := superscript_isdigit_str_of_nat;
  int_of_str_of_nat := int_literal_str_of_nat
|}.

Example main_raises_at_startup :
  Cli.main (builtins := superscript_builtins)
    (Content (JDict [("requests", JList [JDict [("id", JStr "R²")]])]))
    ["6"]
  = Cli.Raised ValueError.
Proof. reflexivity. Qed.

(** A file outside the model: the name of a user is a number. *)
Example main_not_covered :
  Cli.main (builtins := sample_builtins)
    (Content (JDict [("users", JList [JDict [("id", JStr "u");
                                             ("name", JInt 5)]])]))
    ["6"]
  = Cli.NotCovered.
Proof. reflexivity. Qed.

(** ** The pages of app.py *)

(** [pop_heap] returns the request of the first entry of the list. *)
Lemma pop_heap_head e h :
  ∃ h', pop_heap (e :: h) = (Some e.2, h').
Proof.
  unfold pop_heap, heappop.
  destruct (last (e :: h)) as [lastelt|] eqn:Hlast.
  2:{ by rewrite last_cons in Hlast; destruct (last h). }
  cbn [length]. replace (S (length h) - 1) with (length h) by lia.
  destruct h as [|e' h].
  - injection Hlast as <-. destruct e as [[u i] r]. by eexists.
  - cbn [length take]. destruct e as [[u i] r]. by eexists.
Qed.

(** X12.  The request that the index page shows as the top of the heap is
    the request that the next review gets: for an admin, [admin_review]
    renders the review page for exactly that request, and it reports that
    nothing is pending exactly when the index page shows no top. *)
Theorem index_shows_next_review {builtins : Builtins} (s : State)
    (form : Web.Form) :
  has_role s (str_strip (Web.form_get form "admin_id" "")) "admin" = true →
  match Web.index_heap_top (Web.index s) with
  | Some req =>
      ∃ h, Web.admin_review s form = (with_heap s h, [], Web.ReviewPage req)
  | None =>
      Web.admin_review s form
      = (s, [Web.NoPendingRequests], Web.RedirectIndex)
  end.
Proof.
  intros Hrole. unfold Web.admin_review, Web.index. rewrite Hrole.
  cbn [negb Web.index_heap_top]. destruct (heap s) as [|e h]; [done|].
  destruct (pop_heap_head e h) as [h' ->]. by exists h'.
Qed.

(** Two requests are pending; the more urgent one, R2, is on top. *)
Lemma index_shows_next_review_witness :
  let s := run (builtins := sample_builtins)
             [WebRegister (registration "s1" "Ana" "student");
              WebRegister (registration "a1" "Bo" "admin");
              WebSubmit (submission "s1" "100" "5");
              WebSubmit (submission "s1" "50" "8")]
             (empty_state Missing) in
  Web.index_heap_top (Web.index s) = Some 1
  ∧ ∃ h, Web.admin_review (builtins := sample_builtins) s (review_by "a1")
         = (with_heap s h, [], Web.ReviewPage 1).
Proof.
  intros s. split; [reflexivity|].
  apply (index_shows_next_review (builtins := sample_builtins) s
           (review_by "a1")).
  reflexivity.
Defined.

(** *** sorted *)

Section SortedFacts.
Context {A : Type} (lt : A → A → result bool).

Lemma sorted_insert_returns x l :
  (∀ y, y ∈ l → ∃ b, lt y x = Ok b) →
  ∃ l', sorted_insert lt x l = Ok l' ∧ l' ≡ₚ x :: l.
Proof.
  induction l as [|y l IH]; intros Hc; simpl; [by eexists|].
  destruct (Hc y) as [b Hb]; [by left|].
  unfold mbind, result_bind, rbind. rewrite Hb. destruct b; [|by eexists].
  destruct IH as (l' & -> & Hp); [intros z Hz; apply Hc; by right|].
  eexists. split; [done|]. rewrite Hp. apply perm_swap.
Qed.

(** [sorted] returns when every two items of the list can be compared. *)
Lemma py_sorted_returns l :
  (∀ a b, a ∈ l → b ∈ l → ∃ r, lt a b = Ok r) →
  ∃ l', py_sorted lt l = Ok l' ∧ l' ≡ₚ l.
Proof.
  induction l as [|x l IH]; intros Hc; simpl; [by eexists|].
  destruct IH as (s & -> & Hp).
  { intros a b Ha Hb. apply Hc; by right. }
  unfold mbind, result_bind, rbind.
  destruct (sorted_insert_returns x s) as (l' & -> & Hp').
  { intros y Hy. rewrite Hp in Hy. apply Hc; [by right|by left]. }
  eexists. split; [done|]. by rewrite Hp', Hp.
Qed.

End SortedFacts.

Section SortedByKey.
Context {A : Type} (key : A → Z) (earlier : A → A → Prop).

(** [a] comes before [b] in the result of a stable sort by [key]: its key
    is smaller, or the keys are equal and [a] came earlier in the input. *)
Definition key_order (a b : A) : Prop :=
  (key a < key b)%Z ∨ (key a = key b ∧ earlier a b).

Lemma sorted_insert_by_key x l :
  StronglySorted key_order l → Forall (earlier x) l →
  ∃ l', sorted_insert (λ a b, Ok (key a <? key b)%Z) x l = Ok l'
        ∧ l' ≡ₚ x :: l ∧ StronglySorted key_order l'.
Proof.
  induction l as [|y l IH]; intros Hs He; simpl.
  - eexists. split_and!; [done|done|]. repeat constructor.
  - apply StronglySorted_cons in Hs as [Hy Hs].
    apply Forall_cons in He as [Hxy He].
    unfold mbind, result_bind, rbind. destruct (key y <? key x)%Z eqn:E.
    + apply Z.ltb_lt in E. destruct (IH Hs He) as (l' & -> & Hp & Hs').
      eexists. split_and!; [done|by rewrite Hp; apply perm_swap|].
      constructor; [done|]. rewrite Hp. constructor; [by left|done].
    + apply Z.ltb_ge in E. eexists. split_and!; [done|done|].
      constructor; [by constructor|]. constructor.
      * destruct (decide (key x = key y)) as [Heq|Hne]; [by right|left; lia].
      * rewrite Forall_forall in Hy, He. apply Forall_forall. intros z Hz.
        destruct (Hy z Hz) as [Hlt|[Heq _]].
        -- left. lia.
        -- destruct (decide (key x = key z)) as [Heq'|Hne];
             [right; split; [done|by apply He]|left; lia].
Qed.

(** [sorted(l, key=key)] returns the items of [l] by increasing key, items
    with equal keys in the order they had in [l]. *)
Lemma sorted_by_key_stable l :
  StronglySorted earlier l →
  ∃ l', sorted_by_key key l = Ok l' ∧ l' ≡ₚ l ∧ StronglySorted key_order l'.
Proof.
  unfold sorted_by_key. induction l as [|x l IH]; intros Hs; simpl.
  - eexists. split_and!; [done|done|constructor].
  - apply StronglySorted_cons in Hs as [Hx Hs].
    destruct (IH Hs) as (s & -> & Hp & Hss).
    unfold mbind, result_bind, rbind.
    destruct (sorted_insert_by_key x s Hss) as (l' & -> & Hp' & Hs').
    { by rewrite Hp. }
    eexists. split_and!; [done| |done]. by rewrite Hp', Hp.
Qed.

End SortedByKey.

Lemma StronglySorted_seq a n : StronglySorted Nat.lt (seq a n).
Proof.
  revert a. induction n as [|n IH]; intros a; simpl; constructor; [done|].
  apply Forall_forall. intros x Hx. apply elem_of_seq in Hx.
  unfold Nat.lt. lia.
Qed.

Lemma StronglySorted_filter {A} (R : relation A) (P : A → Prop)
    `{!∀ x, Decision (P x)} l :
  StronglySorted R l → StronglySorted R (filter P l).
Proof.
  induction 1 as [|x l Hs IH Hx]; [constructor|].
  rewrite filter_cons. case_decide; [|done]. constructor; [done|].
  rewrite Forall_forall in Hx. apply Forall_forall. intros y Hy.
  apply list_elem_of_filter in Hy as [_ Hy]. by apply Hx.
Qed.

Lemma StronglySorted_weaken {A} (R R' : relation A) l :
  (∀ a b, R a b → R' a b) → StronglySorted R l → StronglySorted R' l.
Proof.
  intros Himp. induction 1 as [|x l Hs IH Hx]; constructor; [done|].
  eapply Forall_impl; [exact Hx|]. intros y. apply Himp.
Qed.

(** *** The admin page *)

(** Two heap entries of a state of the engine can always be compared. *)
Lemma heap_items_comparable s (a b : entry) :
  Inv s → a ∈ heap s → b ∈ heap s →
  ∃ r, item_lt (objs s) ((- b.1.1)%Z, b.1.2, b.2) ((- a.1.1)%Z, a.1.2, a.2)
       = Ok r.
Proof.
  intros HI Ha Hb. unfold item_lt. cbn [fst snd].
  destruct (negb _); [by eexists|].
  destruct (negb (String.eqb _ _)) eqn:E; [by eexists|].
  apply negb_false_iff, String.eqb_eq in E.
  pose proof (inv_heap_entries s HI) as Hf. rewrite Forall_forall in Hf.
  destruct (Hf a Ha) as (Hla & _ & Hia). destruct (Hf b Hb) as (Hlb & _ & Hib).
  assert (b.2 = a.2) as ->.
  { pose proof (inv_ids s HI) as Hnd.
    eapply (NoDup_lookup _ b.2 a.2 _ Hnd); rewrite list_lookup_fmap.
    - by rewrite (list_lookup_lookup_total_lt _ _ Hlb).
    - rewrite (list_lookup_lookup_total_lt _ _ Hla). simpl. congruence. }
  rewrite Nat.eqb_refl. by eexists.
Qed.

(** X13.  In every state of a run the admin page is rendered: the sort of
    the heap items, the one step of the handler that can raise, finds no
    two tuples that it cannot order.  The page lists all users, and under
    "pending" exactly the requests whose status is "submitted", each once,
    by decreasing urgency, requests of equal urgency in the order of their
    creation. *)
Theorem admin_page_lists_pending {builtins : Builtins} (s : State) :
  reachable s →
  ∃ page, Web.admin_page s = Ok page
    ∧ Web.admin_users page = dict_values (users_map s)
    ∧ Web.admin_pending page
      ≡ₚ filter (is_submitted (objs s)) (seq 0 (length (objs s)))
    ∧ StronglySorted
        (λ a b, (urgency (objs s !!! b) < urgency (objs s !!! a))%Z
                ∨ (urgency (objs s !!! a) = urgency (objs s !!! b) ∧ a < b))
        (Web.admin_pending page).
Proof.
  intros Hs. apply reachable_Inv in Hs. unfold Web.admin_page.
  assert (∃ items,
            match heap s with
            | [] => Ok []
            | _ =>
                py_sorted (λ a b, item_lt (objs s) b a)
                  ((λ item : entry, ((- item.1.1)%Z, item.1.2, item.2))
                     <$> heap s)
            end = Ok items) as [items ->].
  { destruct (heap s) as [|e h] eqn:Hh; [by eexists|]. rewrite <- Hh.
    destruct (py_sorted_returns (λ a b, item_lt (objs s) b a)
                ((λ item : entry, ((- item.1.1)%Z, item.1.2, item.2))
                   <$> heap s)) as (l' & Hl' & _); [|by eexists].
    intros x y Hx Hy.
    apply list_elem_of_fmap in Hx as (a & -> & Ha).
    apply list_elem_of_fmap in Hy as (b & -> & Hb).
    by apply heap_items_comparable. }
  unfold mbind, result_bind, rbind.
  assert (dict_values (requests_map s) = seq 0 (length (objs s))) as ->.
  { unfold dict_values. rewrite (inv_map s Hs). apply snd_zip.
    by rewrite length_fmap, length_seq. }
  rewrite (list_filter_iff _ (is_submitted (objs s))) by done.
  destruct (sorted_by_key_stable (λ x, (- urgency (objs s !!! x))%Z) Nat.lt
              (filter (is_submitted (objs s)) (seq 0 (length (objs s)))))
    as (l' & -> & Hp & Hsorted).
  { apply StronglySorted_filter, StronglySorted_seq. }
  eexists. split_and!; [done|done|done|]. cbn [Web.admin_pending].
  eapply StronglySorted_weaken; [|exact Hsorted]. unfold key_order, Nat.lt.
  intros a b [H|[H1 H2]]; [left; lia|right; split; [lia|done]].
Qed.

(** Three pending requests with urgencies 5, 8 and 5, and an approved one:
    the page lists R2, then R1 and R4. *)
Lemma admin_page_lists_pending_witness :
  let s := run (builtins := sample_builtins)
             [WebRegister (registration "s1" "Ana" "student");
              WebRegister (registration "a1" "Bo" "admin");
              WebSubmit (submission "s1" "100" "5");
              WebSubmit (submission "s1" "50" "8");
              WebSubmit (submission "s1" "70" "9");
              WebSubmit (submission "s1" "20" "5");
              WebReview (review_by "a1");
              WebDecide (decision "R3" "approve")]
             (empty_state Missing) in
  Web.admin_page s
  = Ok (Web.mkAdminPage (dict_values (users_map s)) [1; 0; 3])
  ∧ ∃ page, Web.admin_page s = Ok page
      ∧ Web.admin_users page = dict_values (users_map s)
      ∧ Web.admin_pending page
        ≡ₚ filter (is_submitted (objs s)) (seq 0 (length (objs s)))
      ∧ StronglySorted
          (λ a b, (urgency (objs s !!! b) < urgency (objs s !!! a))%Z
                  ∨ (urgency (objs s !!! a) = urgency (objs s !!! b) ∧ a < b))
          (Web.admin_pending page).
Proof.
  intros s. split; [reflexivity|].
  apply (admin_page_lists_pending (builtins := sample_builtins) s).
  apply reachable_fresh.
Defined.

(** X14.  In every state of a run the donor page lists every request once,
    in the order of creation, and every request whose status is "approved"
    is in the approved list of the index page and of the donor page, so a
    donor sees every request that can be funded; every entry of the approved
    list is a request of the store. *)
Theorem pages_list_approved {builtins : Builtins} (s : State) :
  reachable s →
  Web.donor_requests (Web.donor_page s) = seq 0 (length (objs s))
  ∧ Web.index_approved (Web.index s) = Web.donor_approved (Web.donor_page s)
  ∧ (∀ a, a < length (objs s) → status (objs s !!! a) = "approved" →
       a ∈ Web.donor_approved (Web.donor_page s))
  ∧ (∀ a, a ∈ Web.donor_approved (Web.donor_page s) → a < length (objs s)).
Proof.
  intros Hs. apply reachable_Good in Hs as [HI HQ].
  cbn [Web.donor_page Web.index Web.donor_requests Web.donor_approved
       Web.index_approved].
  split_and!; [|done|exact HQ|].
  - unfold dict_values. rewrite (inv_map s HI). apply snd_zip.
    by rewrite length_fmap, length_seq.
  - pose proof (inv_queue s HI) as Hq. rewrite Forall_forall in Hq. exact Hq.
Qed.

(** Two requests, the second approved at the terminal. *)
Lemma pages_list_approved_witness :
  let s := run (builtins := sample_builtins)
             [WebRegister (registration "s1" "Ana" "student");
              WebRegister (registration "a1" "Bo" "admin");
              WebSubmit (submission "s1" "100" "5");
              WebSubmit (submission "s1" "50" "8");
              CliTurn ["3"; "a1"; "y"]]
             (empty_state Missing) in
  Web.donor_page s
  = Web.mkDonorPage [mkUser "s1" "Ana" "student"] [1] [0; 1]
  ∧ Web.donor_requests (Web.donor_page s) = seq 0 (length (objs s))
  ∧ Web.index_approved (Web.index s) = Web.donor_approved (Web.donor_page s)
  ∧ (∀ a, a < length (objs s) → status (objs s !!! a) = "approved" →
       a ∈ Web.donor_approved (Web.donor_page s))
  ∧ (∀ a, a ∈ Web.donor_approved (Web.donor_page s) → a < length (objs s)).
Proof.
  intros s. split; [reflexivity|].
  apply (pages_list_approved (builtins := sample_builtins) s).
  apply reachable_fresh.
Defined.

(** ** Without the web decisions the approved queue is exact *)

Section Exact.
Context {builtins : Builtins}.

Lemma NoDup_call s c :
  Sound s → is_decide c = false →
  NoDup (approved_q s) → NoDup (approved_q (call s c)).
Proof.
  intros HS Hc Hnd. pose proof HS as [HI HQ].
  destruct c as [form|form|form|form|form|lines]; try done; cbn [call].
  - unfold Web.register. destruct (_ || _); [done|]. by case_bool_decide.
  - unfold Web.submit. destruct (negb _); [done|].
    destruct (float_of_str _) as [amt|]; [|done].
    by destruct (int_of_str _) as [urg|].
  - unfold Web.admin_review. destruct (negb _); [done|].
    by destruct (pop_heap _) as [[r|] h].
  - unfold Web.donate. destruct (float_of_str _); [|done].
    destruct (negb _); [done|]. destruct (dict_get _ _ _) as [req|]; [|done].
    destruct (negb _); [done|]. destruct (float_ge _ _); [|done].
    simpl. by apply NoDup_filter.
  - cli_run; simpl;
      try match goal with
      | H : approved_q ?s0 = ?l, Hn : NoDup ?l |- _ => rewrite <- H in Hn
      end; try done; try (by apply NoDup_filter).
    + match goal with
      | H : create_request _ _ _ _ = (_, ?s') |- _ =>
          apply (f_equal snd) in H; simpl in H; by subst s'
      end.
    + match goal with
      | H : pop_heap (heap ?s0) = (Some ?r, ?h) |- _ =>
          destruct (Inv_pop s0 _ _ HI H) as [HI' Hr];
          specialize (Hr r eq_refl)
      end.
      cbn [with_heap objs requests_map] in *.
      match goal with
      | H : dict_get String.eqb (requests_map s) (req_id (objs s !!! ?r))
            = Some ?cur |- _ =>
          assert (cur = r) as -> by exact (requests_map_own_id s r cur HI Hr H)
      end.
      match goal with
      | H : negb (String.eqb _ _) = false |- _ =>
          apply negb_false_iff, String.eqb_eq in H; rename H into Hst
      end.
      unfold enqueue. apply NoDup_app. split_and!; [done| |apply NoDup_singleton].
      intros x Hx Hx'. apply list_elem_of_singleton in Hx'. subst x.
      apply HQ in Hx; [|done]. congruence.
Qed.

End Exact.

(** X15.  Along a run that does not go through the web handler
    [admin_decide] (a run of main.py, say, on whatever data file), the
    approved queue holds exactly the requests whose status is "approved",
    and each of them once. *)
Theorem approved_queue_exact {builtins : Builtins} (d : File) (s0 : State)
    (cs : list Call) :
  startup d = Started s0 →
  Forall (λ c, is_decide c = false) cs →
  let s := run cs s0 in
  NoDup (approved_q s)
  ∧ ∀ a, a < length (objs s) →
      (a ∈ approved_q s ↔ status (objs s !!! a) = "approved").
Proof.
  intros Hstart Hcs s. subst s.
  assert (Sound s0 ∧ NoDup (approved_q s0)) as H0.
  { split; [by eapply Sound_startup|].
    apply startup_boot in Hstart as (us' & rs' & Hu & Hr & Hboot).
    destruct (boot_fields us' rs' d s0 Hu Hr Hboot) as (_ & _ & _ & Hre & _).
    destruct Hre as (_ & _ & _ & _ & _ & Hq). simpl in Hq. rewrite Hq.
    apply NoDup_filter, NoDup_seq. }
  clear Hstart. revert s0 H0.
  induction Hcs as [|c cs Hc _ IH]; intros s0 [HS Hnd].
  - split; [done|]. apply HS.
  - change (run (c :: cs) s0) with (run cs (call s0 c)). apply IH. split.
    + apply Sound_call; [|done].
      destruct c; simpl in *; try discriminate; by intros [].
    + by apply NoDup_call.
Qed.

(** A session at the terminal: two requests are approved, one is funded. *)
Lemma approved_queue_exact_witness :
  let cs := [CliTurn ["1"; "s1"; "Ana"; "student"];
             CliTurn ["1"; "a1"; "Bo"; "admin"];
             CliTurn ["1"; "d1"; "Cy"; "donor"];
             CliTurn ["2"; "s1"; "100"; "5"];
             CliTurn ["2"; "s1"; "50"; "8"];
             CliTurn ["2"; "s1"; "70"; "2"];
             CliTurn ["3"; "a1"; "y"];
             CliTurn ["3"; "a1"; "y"];
             CliTurn ["4"; "d1"; "R2"; "50"]] in
  let s := run (builtins := sample_builtins) cs (empty_state Missing) in
  approved_q s = [0]
  ∧ status <$> objs s = ["approved"; "funded"; "submitted"]
  ∧ NoDup (approved_q s)
  ∧ ∀ a, a < length (objs s) →
      (a ∈ approved_q s ↔ status (objs s !!! a) = "approved").
Proof.
  intros cs s. split; [reflexivity|]. split; [reflexivity|].
  apply (approved_queue_exact (builtins := sample_builtins) Missing
           (empty_state Missing) cs); [reflexivity|].
  repeat constructor.
Defined.

(** ** The two front ends decide alike *)

(** The request map leads from the id of a request to the request. *)
Lemma requests_map_get s a :
  Inv s → a < length (objs s) →
  dict_get String.eqb (requests_map s) (req_id (objs s !!! a)) = Some a.
Proof.
  intros HI Ha. apply dict_get_elem.
  - rewrite requests_map_keys by done. apply (inv_ids s HI).
  - rewrite (inv_map s HI). apply list_elem_of_lookup. exists a.
    apply lookup_zip_with_Some. exists (req_id (objs s !!! a)), a.
    split_and!; [done| |by apply lookup_seq].
    rewrite list_lookup_fmap. by rewrite (list_lookup_lookup_total_lt _ _ Ha).
Qed.

(** X16.  Reviewing and deciding through the web handlers and through
    option 3 of the terminal lead to the same state.  Let an admin review
    when the request popped is still "submitted".  [admin_review] followed
    by [admin_decide] for the request shown, and one turn of option 3, both
    pop the request, set its status and write the file: to "approved", with
    the request appended to the approved queue, when the decision is
    "approve" (on the terminal: an answer that [lower] turns into "y"), and
    to "rejected" otherwise. *)
Theorem review_and_decide_agree {builtins : Builtins} (s : State)
    (aid dec : string) (req : ref) (h : list entry)
    (review decide : Web.Form) (lines rest : list string)
    (out : list Cli.Output) :
  reachable s →
  has_role s aid "admin" = true →
  pop_heap (heap s) = (Some req, h) →
  status (objs s !!! req) = "submitted" →
  str_strip (Web.form_get review "admin_id" "") = aid →
  str_strip (Web.form_get decide "request_id" "") = req_id (objs s !!! req) →
  reads lines [aid; dec] rest →
  (Web.form_get decide "decision" "no" = "approve" ↔ str_lower dec = "y") →
  let rid := req_id (objs s !!! req) in
  let popped := with_heap s h in
  let s' := if String.eqb (str_lower dec) "y"
            then persist (approve popped req)
            else persist (reject popped req) in
  Web.admin_review s review = (popped, [], Web.ReviewPage req)
  ∧ (Web.admin_decide popped decide).1.1 = s'
  ∧ Cli.choice_3 (Cli.mkWorld s lines out)
    = Cli.Return tt
        (Cli.mkWorld s' rest
           (out ++ [Cli.Reviewing (objs s !!! req);
                    if String.eqb (str_lower dec) "y"
                    then Cli.Approved rid else Cli.Rejected rid])).
Proof.
  intros Hs Hrole Hpop Hst Hf1 Hf2 Hreads Hdec rid popped s'.
  apply reachable_Inv in Hs.
  destruct (Inv_pop s _ _ Hs Hpop) as [HI' Hr]. specialize (Hr req eq_refl).
  pose proof (requests_map_get s req Hs Hr) as Hget.
  split_and!.
  - unfold Web.admin_review. by rewrite Hf1, Hrole, Hpop.
  - unfold Web.admin_decide. rewrite Hf2. subst popped s'.
    cbn [with_heap requests_map]. rewrite Hget.
    destruct (String.eqb (str_lower dec) "y") eqn:E.
    + apply String.eqb_eq in E. apply Hdec in E. rewrite E. done.
    + apply String.eqb_neq in E.
      destruct (String.eqb (Web.form_get decide "decision" "no") "approve")
        eqn:E'; [|done].
      apply String.eqb_eq in E'. apply Hdec in E'. done.
  - cli_unfold. read_next. rewrite Hrole, Hpop.
    cbn [negb Cli.engine Cli.stdin Cli.stdout with_heap requests_map objs].
    rewrite Hget, Hst, String.eqb_refl.
    read_next. read_next. subst s' popped rid.
    destruct (String.eqb (str_lower dec) "y");
      cbn [Cli.engine Cli.stdin Cli.stdout approve reject objs];
      rewrite set_status_req_id, <- app_assoc; reflexivity.
Qed.

(** The admin a1 reviews R1 and approves: "approve" on the web, "Y" at the
    terminal. *)
Lemma review_and_decide_agree_witness :
  let s := run (builtins := sample_builtins)
             [WebRegister (registration "s1" "Ana" "student");
              WebRegister (registration "a1" "Bo" "admin");
              WebSubmit (submission "s1" "100" "5")]
             (empty_state Missing) in
  let s' := persist (approve (with_heap s []) 0) in
  status (objs s' !!! 0) = "approved"
  ∧ Web.admin_review (builtins := sample_builtins) s (review_by "a1")
    = (with_heap s [], [], Web.ReviewPage 0)
  ∧ (Web.admin_decide (builtins := sample_builtins) (with_heap s [])
       (decision "R1" "approve")).1.1 = s'
  ∧ Cli.choice_3 (builtins := sample_builtins) (Cli.mkWorld s ["a1"; "Y"] [])
    = Cli.Return tt
        (Cli.mkWorld s' []
           ([] ++ [Cli.Reviewing (objs s !!! 0); Cli.Approved "R1"])).
Proof.
  intros s s'. split; [reflexivity|].
  apply (review_and_decide_agree (builtins := sample_builtins) s "a1" "Y" 0 []
           (review_by "a1") (decision "R1" "approve") ["a1"; "Y"] [] []).
  - apply reachable_fresh.
  - reflexivity.
  - reflexivity.
  - reflexivity.
  - reflexivity.
  - reflexivity.
  - simpl. eexists. split; [reflexivity|]. eexists. split; reflexivity.
  - split; reflexivity.
Defined.

(** X17.  A registration with a new id, a non-empty name and a valid role
    succeeds alike on the web and at the terminal: the user is added at the
    end of the user map, under the id, with the name and the role in lower
    case, the id joins [users_set], the file is written, and the user has
    the role from then on. *)
Theorem registration_agrees {builtins : Builtins} (s : State)
    (uid name role typed : string) (form : Web.Form)
    (lines rest : list string) (out : list Cli.Output) :
  reachable s →
  uid ∉ users_set s → uid ≠ "" → name ≠ "" → valid_role role = true →
  str_strip (Web.form_get form "user_id" "") = uid →
  str_strip (Web.form_get form "name" "") = name →
  str_lower (str_strip (Web.form_get form "role" "")) = role →
  reads lines [uid; name; typed] rest → str_lower typed = role →
  let s' := persist (add_user s uid name role) in
  Web.register s form = (s', [Web.Registered role name], Web.RedirectIndex)
  ∧ Cli.choice_1 (Cli.mkWorld s lines out)
    = Cli.Return tt (Cli.mkWorld s' rest (out ++ [Cli.Registered role name uid]))
  ∧ users_map s' = users_map s ++ [(uid, mkUser uid name role)]
  ∧ users_set s' = {[uid]} ∪ users_set s
  ∧ has_role s' uid role = true.
Proof.
  intros Hs Hnew Huid Hname Hrole Hf1 Hf2 Hf3 Hreads Htyped s'.
  apply reachable_Inv in Hs.
  assert (users_map s' = users_map s ++ [(uid, mkUser uid name role)]) as Hm.
  { subst s'. cbn [persist add_user users_map]. apply dict_set_fresh.
    rewrite (inv_users_set s Hs) in Hnew.
    by rewrite elem_of_list_to_set in Hnew. }
  split_and!; [| |done|done|].
  - unfold Web.register. rewrite Hf1, Hf2, Hf3, Hrole.
    apply String.eqb_neq in Huid, Hname. rewrite Huid, Hname. cbn [orb negb].
    by rewrite bool_decide_eq_false_2.
  - cli_unfold. read_next. rewrite bool_decide_eq_false_2 by done.
    read_next. read_next. rewrite Htyped, Hrole. read_next. reflexivity.
  - unfold has_role. subst s'. cbn [persist add_user users_map].
    by rewrite dict_get_set, String.eqb_refl.
Qed.

(** The student s1 registers on the web form or at the terminal. *)
Lemma registration_agrees_witness :
  let s := empty_state Missing in
  let s' := persist (add_user s "s1" "Ana" "student") in
  Web.register (builtins := sample_builtins) s
    (registration " s1 " "Ana" "Student")
  = (s', [Web.Registered "student" "Ana"], Web.RedirectIndex)
  ∧ Cli.choice_1 (builtins := sample_builtins)
      (Cli.mkWorld s [""; "s1"; " Ana"; "STUDENT"; "6"] [])
    = Cli.Return tt
        (Cli.mkWorld s' ["6"] ([] ++ [Cli.Registered "student" "Ana" "s1"]))
  ∧ users_map s' = users_map s ++ [("s1", mkUser "s1" "Ana" "student")]
  ∧ users_set s' = {["s1"]} ∪ users_set s
  ∧ has_role s' "s1" "student" = true.
Proof.
  intros s s'.
  apply (registration_agrees (builtins := sample_builtins) s "s1" "Ana"
           "student" "STUDENT" (registration " s1 " "Ana" "Student")
           [""; "s1"; " Ana"; "STUDENT"; "6"] ["6"] []).
  - apply (reachable_start Missing). reflexivity.
  - apply not_elem_of_empty.
  - discriminate.
  - discriminate.
  - reflexivity.
  - reflexivity.
  - reflexivity.
  - reflexivity.
  - simpl. eexists. split; [reflexivity|]. eexists. split; [reflexivity|].
    eexists. split; reflexivity.
  - reflexivity.
Defined.

(** ** Requests belong to students *)

Lemma dict_get_app_l {V} (d e : list (string * V)) k v :
  dict_get String.eqb d k = Some v → dict_get String.eqb (d ++ e) k = Some v.
Proof.
  induction d as [|[k' v'] d IH]; simpl; [done|].
  by destruct (String.eqb k' k).
Qed.

Lemma has_role_call {builtins : Builtins} s c uid role :
  Inv s → has_role s uid role = true → has_role (call s c) uid role = true.
Proof.
  intros HI. destruct (call_users_prefix s c HI) as [e He].
  unfold has_role. rewrite He.
  destruct (dict_get String.eqb (users_map s) uid) as [u|] eqn:E; [|done].
  by rewrite (dict_get_app_l _ e _ _ E).
Qed.

(** The requests that a call adds to the store were submitted for a user
    who is a student. *)
Lemma call_new_requests {builtins : Builtins} s c a :
  length (objs s) ≤ a < length (objs (call s c)) →
  has_role s (student_id (objs (call s c) !!! a)) "student" = true.
Proof.
  assert (∀ sid amt urg,
            has_role s sid "student" = true →
            length (objs s) ≤ a < length (objs (create_request s sid amt urg).2) →
            has_role s (student_id (objs (create_request s sid amt urg).2 !!! a))
              "student" = true) as Hnew.
  { intros sid amt urg Hrole. unfold create_request. cbn [snd objs].
    rewrite length_app. simpl. intros Ha.
    assert (a = length (objs s)) as -> by lia.
    by rewrite list_lookup_total_middle. }
  destruct c as [form|form|form|form|form|lines]; cbn [call].
  - unfold Web.register. destruct (_ || _); [simpl; lia|].
    case_bool_decide; simpl; lia.
  - unfold Web.submit. destruct (negb _) eqn:Hrole; [simpl; lia|].
    apply negb_false_iff in Hrole.
    destruct (float_of_str _) as [amt|]; [|simpl; lia].
    destruct (int_of_str _) as [urg|]; [|simpl; lia].
    specialize (Hnew _ amt urg Hrole).
    by destruct (create_request _ _ _ _).
  - unfold Web.admin_review. destruct (negb _); [simpl; lia|].
    destruct (pop_heap _) as [[r|] h]; simpl; lia.
  - unfold Web.admin_decide. destruct (dict_get _ _ _) as [req|]; [|simpl; lia].
    destruct (String.eqb _ _); simpl; rewrite set_status_length; lia.
  - unfold Web.donate. destruct (float_of_str _); [|simpl; lia].
    destruct (negb _); [simpl; lia|].
    destruct (dict_get _ _ _) as [req|]; [|simpl; lia].
    destruct (negb _); [simpl; lia|].
    destruct (float_ge _ _); simpl; rewrite ?set_status_length; lia.
  - cli_run; simpl; rewrite ?set_status_length; try lia.
    match goal with
    | H : create_request _ ?sid ?amt ?urg = (_, ?s'),
      Hr : negb (has_role _ ?sid _) = false |- _ =>
        apply negb_false_iff in Hr; specialize (Hnew sid amt urg Hr);
        by rewrite H in Hnew
    end.
Qed.

(** Every request names as its student a registered user whose role is
    "student". *)
Definition students_known (s : State) : Prop :=
  ∀ a, a < length (objs s) →
       has_role s (student_id (objs s !!! a)) "student" = true.

(** X18.  When the requests of the data file name registered students (when
    there is no file, say), so do the requests of every state of the run:
    a request is only ever created for a registered user with role
    "student", and neither the student of a request nor the role of a user
    changes afterwards. *)
Theorem requests_belong_to_students {builtins : Builtins} (d : File)
    (s0 : State) (cs : list Call) :
  startup d = Started s0 → students_known s0 → students_known (run cs s0).
Proof.
  intros Hstart H0.
  assert (reachable s0) as Hs0 by (by apply (reachable_start d)).
  clear Hstart. revert s0 H0 Hs0.
  induction cs as [|c cs IH]; intros s0 H0 Hs0; [done|].
  change (run (c :: cs) s0) with (run cs (call s0 c)). apply IH.
  - pose proof (reachable_Inv s0 Hs0) as HI. intros a Ha.
    apply has_role_call; [done|].
    destruct (decide (a < length (objs s0))) as [Hold|Hnew].
    + destruct (call_evolves s0 c HI) as [_ He].
      destruct (He a Hold) as (_ & -> & _). by apply H0.
    + apply call_new_requests. lia.
  - eapply reachable_step; [done|]. apply step_call.
Qed.

(** A run from scratch: both requests belong to the student s1. *)
Lemma requests_belong_to_students_witness :
  let cs := [WebRegister (registration "s1" "Ana" "student");
             WebRegister (registration "a1" "Bo" "admin");
             WebSubmit (submission "s1" "100" "5");
             WebSubmit (submission "a1" "10" "9");
             CliTurn ["2"; "s1"; "50"; "8"]] in
  let s := run (builtins := sample_builtins) cs (empty_state Missing) in
  student_id <$> objs s = ["s1"; "s1"] ∧ students_known s.
Proof.
  intros cs s. split; [reflexivity|].
  apply (requests_belong_to_students (builtins := sample_builtins) Missing
           (empty_state Missing) cs); [reflexivity|].
  intros a Ha. simpl in Ha. lia.
Defined.

(** ** No request is queued for review twice *)

Lemma NoDup_submseteq_inv {A} (l k : list A) : l ⊆+ k → NoDup k → NoDup l.
Proof.
  intros Hsub Hk. apply submseteq_Permutation in Hsub as [k' Hp].
  rewrite Hp in Hk. by apply NoDup_app in Hk as [? _].
Qed.

(** A step takes entries off the heap, or adds the entry of the request
    that it creates. *)
Lemma step_heap {builtins : Builtins} s s' :
  Inv s → step s s' →
  (heap s').*2 ⊆+ (heap s).*2 ∨ (heap s').*2 ≡ₚ length (objs s) :: (heap s).*2.
Proof.
  intros HI Hstep.
  assert (∀ r h, pop_heap (heap s) = (Some r, h) → h.*2 ⊆+ (heap s).*2) as Hpop.
  { intros r h Hp.
    pose proof (pop_heap_spec (heap s) (inv_heap_ordered s HI)) as Hspec.
    rewrite Hp in Hspec. destruct Hspec as (e & _ & Hperm & _).
    rewrite Hperm. simpl. by apply submseteq_cons. }
  assert (∀ sid amt urg,
            (heap (create_request s sid amt urg).2).*2
            ≡ₚ length (objs s) :: (heap s).*2) as Hnew.
  { intros sid amt urg.
    by destruct (create_request_spec s sid amt urg) as (_ & _ & _ & _ & ? & _). }
  destruct Hstep as [s form|s form|s form|s form|s form|w].
  - left. unfold Web.register. destruct (_ || _); [done|].
    by case_bool_decide.
  - unfold Web.submit. destruct (negb _); [by left|].
    destruct (float_of_str _) as [amt|]; [|by left].
    destruct (int_of_str _) as [urg|]; [|by left].
    specialize (Hnew (str_strip (Web.form_get form "student_id" "")) amt urg).
    destruct (create_request _ _ _ _). by right.
  - left. unfold Web.admin_review. destruct (negb _); [done|].
    destruct (pop_heap _) as [[r|] h] eqn:E; [|done]. simpl. by eapply Hpop.
  - left. unfold Web.admin_decide. destruct (dict_get _ _ _) as [req|]; [|done].
    by destruct (String.eqb _ _).
  - left. unfold Web.donate. destruct (float_of_str _); [|done].
    destruct (negb _); [done|]. destruct (dict_get _ _ _) as [req|]; [|done].
    destruct (negb _); [done|]. by destruct (float_ge _ _).
  - cli_run; simpl; try (by left); try (left; by eapply Hpop).
    match goal with
    | H : create_request _ ?sid ?amt ?urg = (_, ?s') |- _ =>
        specialize (Hnew sid amt urg); rewrite H in Hnew; by right
    end.
Qed.

(** X19.  In every state of a run no request is in the urgency queue twice,
    so that between two starts a request is handed out for review at most
    once; and every entry of the queue points to a request of the store and
    carries the urgency (negated) and the id that the request has now. *)
Theorem heap_entries_valid {builtins : Builtins} (s : State) :
  reachable s →
  NoDup (heap s).*2
  ∧ ∀ u i r, (u, i, r) ∈ heap s →
      r < length (objs s)
      ∧ u = (- urgency (objs s !!! r))%Z ∧ i = req_id (objs s !!! r).
Proof.
  intros Hs. split.
  - induction Hs as [d s Hstart|s s' Hs IH Hstep].
    + apply startup_boot in Hstart as (us' & rs' & Hu & Hr & Hboot).
      destruct (boot_fields us' rs' d s Hu Hr Hboot) as (_ & _ & _ & Hre & _).
      destruct Hre as (_ & _ & _ & _ & Hh & _). simpl in Hh. rewrite Hh.
      apply NoDup_filter, NoDup_seq.
    + pose proof (reachable_Inv s Hs) as HI.
      destruct (step_heap s s' HI Hstep) as [Hsub|Hperm].
      * by eapply NoDup_submseteq_inv.
      * rewrite Hperm. apply NoDup_cons. split; [|done].
        intros Hin. apply list_elem_of_fmap in Hin as (e & He & Hin).
        pose proof (inv_heap_entries s HI) as Hf. rewrite Forall_forall in Hf.
        destruct (Hf e Hin) as [Hlt _]. lia.
  - apply reachable_Inv in Hs. intros u i r Hin.
    pose proof (inv_heap_entries s Hs) as Hf. rewrite Forall_forall in Hf.
    exact (Hf (u, i, r) Hin).
Qed.

(** Three requests, the most urgent one reviewed: two entries are left. *)
Lemma heap_entries_valid_witness :
  let s := run (builtins := sample_builtins)
             [WebRegister (registration "s1" "Ana" "student");
              WebRegister (registration "a1" "Bo" "admin");
              WebSubmit (submission "s1" "100" "5");
              WebSubmit (submission "s1" "50" "8");
              WebSubmit (submission "s1" "70" "2");
              WebReview (review_by "a1")]
             (empty_state Missing) in
  heap s = [((-5)%Z, "R1", 0); ((-2)%Z, "R3", 2)]
  ∧ NoDup (heap s).*2
  ∧ ∀ u i r, (u, i, r) ∈ heap s →
      r < length (objs s)
      ∧ u = (- urgency (objs s !!! r))%Z ∧ i = req_id (objs s !!! r).
Proof.
  intros s. split; [reflexivity|].
  apply (heap_entries_valid (builtins := sample_builtins) s).
  apply reachable_fresh.
Defined.
